(** * PRAXIS registry (Lighthouse): a shallow embedding of
      [cmd/registry/main.go] and [storage/redis.go], and the properties of
      the registry core proved over it.

    Conventions of the embedding.
    - Go [string] and [[]byte] values are byte sequences: Rocq [string].
    - [peer.ID] is a Go [string] type; it is [string] here too.
    - [float64] / [float32] values are IEEE 754 values: [spec_float] of the
      Standard Library with precision 53 / 24.
    - [int64] fields ([Nonce], [Timestamp]) are [Z]; the code never does
      arithmetic on them.
    - [time.Time] is an instant in nanoseconds on one time line ([Z]),
      [time.Duration] is an [int64] count of nanoseconds and [Time.Sub]
      saturates.
    - A Go [map] is a [gmap]; [range] over a map visits the entries in an
      unspecified order, so every loop over a map is a function of the list
      of entries it is given, and it is run on [map_to_list].
    - The mutexes, the durable store (Redis) and the vector index (Qdrant)
      are outside the process state: every call to them is an [Event] of
      the trace an operation returns. *)

From Stdlib Require Import ZArith Floats.SpecFloat.
From stdpp Require Import gmap strings list fin_maps pretty.

Local Open Scope Z_scope.

(* [naive_solver] clears hypotheses that case analysis has already removed. *)
#[local] Set Warnings "-clear-no-such-hyp".

(* ===================================================================== *)
(** * Go run-time and standard-library functions used by the registry *)
(* ===================================================================== *)

Module Go.

(** ** Bytes of a string *)

Fixpoint bytes (s : string) : list Z :=
  match s with
  | EmptyString => []
  | String a s' => Z.of_N (Ascii.N_of_ascii a) :: bytes s'
  end.

(** ** [strings.HasPrefix], [strings.TrimPrefix], [strings.Contains],
       [strings.Join] *)

Fixpoint HasPrefix (s p : string) : bool :=
  match p, s with
  | EmptyString, _ => true
  | String a p', String b s' => bool_decide (a = b) && HasPrefix s' p'
  | String _ _, EmptyString => false
  end.

Fixpoint drop_bytes (n : nat) (s : string) : string :=
  match n, s with
  | S n', String _ s' => drop_bytes n' s'
  | _, _ => s
  end.

Definition TrimPrefix (s p : string) : string :=
  if HasPrefix s p then drop_bytes (String.length p) s else s.

Fixpoint Contains (s substr : string) : bool :=
  HasPrefix s substr ||
  match s with
  | EmptyString => false
  | String _ s' => Contains s' substr
  end.

Fixpoint Join (elems : list string) (sep : string) : string :=
  match elems with
  | [] => ""
  | [e] => e
  | e :: rest => e +:+ sep +:+ Join rest sep
  end.

(** ** [strings.ToLower]

    The function first scans for a byte [>= utf8.RuneSelf]; an all-ASCII
    string is lowered byte by byte (and returned as it is when it has no
    upper-case letter). Any other string goes through
    [strings.Map(unicode.ToLower, s)], which needs the Unicode case tables:
    that path is the parameter [unicode_lower]. *)

Definition isASCII (s : string) : bool := forallb (fun c => c <? 128) (bytes s).

Definition isUpperByte (c : Z) : bool := (65 <=? c) && (c <=? 90).

Definition hasUpper (s : string) : bool := existsb isUpperByte (bytes s).

Definition lowerByte (a : Ascii.ascii) : Ascii.ascii :=
  let c := Z.of_N (Ascii.N_of_ascii a) in
  if isUpperByte c then Ascii.ascii_of_N (Z.to_N (c + 32)) else a.

Fixpoint lowerASCII (s : string) : string :=
  match s with
  | EmptyString => EmptyString
  | String a s' => String (lowerByte a) (lowerASCII s')
  end.

Definition ToLower (unicode_lower : string → string) (s : string) : string :=
  if isASCII s then (if hasUpper s then lowerASCII s else s)
  else unicode_lower s.

(** ** [for _, r := range s]: UTF-8 decoding

    [DecodeRune] is [utf8.DecodeRuneInString] on the bytes of the string:
    the code point and the number of bytes it takes; a byte that does not
    start a well-formed sequence decodes to [RuneError] with width 1. *)

Definition RuneError : Z := 65533.

Definition inRange (lo hi c : Z) : bool := (lo <=? c) && (c <=? hi).

(** [first[s0]]: [None] for the entries [xx] (invalid) of the table;
    otherwise the size of the sequence and the accepted range of the
    second byte. The ASCII entries [as] are handled before the lookup. *)
Definition first (s0 : Z) : option (nat * (Z * Z)) :=
  if inRange 194 223 s0 then Some (2%nat, (128, 191))
  else if s0 =? 224 then Some (3%nat, (160, 191))
  else if inRange 225 236 s0 then Some (3%nat, (128, 191))
  else if s0 =? 237 then Some (3%nat, (128, 159))
  else if inRange 238 239 s0 then Some (3%nat, (128, 191))
  else if s0 =? 240 then Some (4%nat, (144, 191))
  else if inRange 241 243 s0 then Some (4%nat, (128, 191))
  else if s0 =? 244 then Some (4%nat, (128, 143))
  else None.

Definition DecodeRune (s : list Z) : Z * nat :=
  match s with
  | [] => (RuneError, 0%nat)
  | s0 :: t =>
    if s0 <? 128 then (s0, 1%nat)
    else
      match first s0 with
      | None => (RuneError, 1%nat)
      | Some (sz, (lo, hi)) =>
        if (length s <? sz)%nat then (RuneError, 1%nat)
        else
          match t with
          | [] => (RuneError, 1%nat)
          | s1 :: t1 =>
            if negb (inRange lo hi s1) then (RuneError, 1%nat)
            else if (sz <=? 2)%nat then
              (Z.lor (Z.shiftl (Z.land s0 31) 6) (Z.land s1 63), 2%nat)
            else
              match t1 with
              | [] => (RuneError, 1%nat)
              | s2 :: t2 =>
                if negb (inRange 128 191 s2) then (RuneError, 1%nat)
                else if (sz <=? 3)%nat then
                  (Z.lor (Z.lor (Z.shiftl (Z.land s0 15) 12)
                                (Z.shiftl (Z.land s1 63) 6))
                         (Z.land s2 63), 3%nat)
                else
                  match t2 with
                  | [] => (RuneError, 1%nat)
                  | s3 :: _ =>
                    if negb (inRange 128 191 s3) then (RuneError, 1%nat)
                    else
                      (Z.lor (Z.lor (Z.lor (Z.shiftl (Z.land s0 7) 18)
                                           (Z.shiftl (Z.land s1 63) 12))
                                    (Z.shiftl (Z.land s2 63) 6))
                             (Z.land s3 63), 4%nat)
                  end
              end
          end
      end
  end.

(** The runes a [range] loop yields. [skip] counts the continuation bytes
    of the rune decoded last that are still to be stepped over. *)
Fixpoint runes_from (skip : nat) (s : list Z) : list Z :=
  match s with
  | [] => []
  | _ :: rest =>
    match skip with
    | S k => runes_from k rest
    | O => let '(r, w) := DecodeRune s in r :: runes_from (w - 1) rest
    end
  end.

Definition runes (s : string) : list Z := runes_from 0 (bytes s).

(** ** [fmt]: the verbs [%d] and [%.Nf] *)

Definition fmt_d (n : Z) : string := pretty n.

(** [scaled prec m e]: the value [m * 2^e * 10^prec] rounded to an integer,
    ties to even — the digits [strconv.FormatFloat(v, 'f', prec, 64)]
    prints for a finite [v] of magnitude [m * 2^e]. *)
Definition scaled (prec : nat) (m : positive) (e : Z) : Z :=
  let num := Z.pos m * 10 ^ Z.of_nat prec in
  if 0 <=? e then num * 2 ^ e
  else
    let den := 2 ^ (- e) in
    let q := num / den in
    let r := num mod den in
    if (den <? 2 * r) || ((2 * r =? den) && Z.odd q) then q + 1 else q.

Fixpoint zeros (n : nat) : string :=
  match n with O => "" | S n' => "0" +:+ zeros n' end.

Fixpoint take_bytes (n : nat) (s : string) : string :=
  match n, s with
  | S n', String a s' => String a (take_bytes n' s')
  | _, _ => ""
  end.

(** The digits of [q], at least [prec + 1] of them, with the decimal point
    before the last [prec]. *)
Definition fixed (prec : nat) (q : Z) : string :=
  let ds := pretty q in
  let ds := zeros (S prec - String.length ds) +:+ ds in
  let k := (String.length ds - prec)%nat in
  match prec with
  | O => ds
  | _ => take_bytes k ds +:+ "." +:+ drop_bytes k ds
  end.

Definition fmt_f (prec : nat) (x : spec_float) : string :=
  match x with
  | S754_nan => "NaN"
  | S754_infinity false => "+Inf"
  | S754_infinity true => "-Inf"
  | S754_zero s => (if s then "-" else "") +:+ fixed prec 0
  | S754_finite s m e => (if s then "-" else "") +:+ fixed prec (scaled prec m e)
  end.

(** ** [float64] and [float32] *)

Definition float64_of_Z (n : Z) : spec_float := binary_normalize 53 1024 n 0 false.
Definition float64_lt (x y : spec_float) : bool := SFltb x y.

Definition float32_of_Z (n : Z) : spec_float := binary_normalize 24 128 n 0 false.
Definition float32_add (x y : spec_float) : spec_float := SFadd 24 128 x y.
Definition float32_one : spec_float := S754_finite false 8388608 (-23).
Definition float32_zero : spec_float := S754_zero false.

(** The integer a float holds, when it holds one. *)
Definition float_int_value (x : spec_float) : option Z :=
  match x with
  | S754_zero _ => Some 0
  | S754_finite s m e =>
    if 0 <=? e then Some ((if s then -1 else 1) * (Z.pos m * 2 ^ e))
    else if Z.pos m mod 2 ^ (- e) =? 0
         then Some ((if s then -1 else 1) * (Z.pos m / 2 ^ (- e)))
         else None
  | _ => None
  end.

(** ** [time] *)

Definition Second : Z := 1000000000.
Definition maxDuration : Z := 2 ^ 63 - 1.
Definition minDuration : Z := - 2 ^ 63.

(** [t.Sub(u)]: the difference, saturated to the range of [Duration]. *)
Definition Time_Sub (t u : Z) : Z :=
  let d := t - u in
  if maxDuration <? d then maxDuration
  else if d <? minDuration then minDuration
  else d.

End Go.

(* ===================================================================== *)
(** * Data model: packages [peer], [crypto], [host], [common], [storage] *)
(* ===================================================================== *)

(** A Go [error]: [nil] or the text of the error. *)
Abbreviation error := (option string).

Module peer.
  (** [type ID string] *)
Abbreviation ID := string.

Module AddrInfo.
Record t := { ID : peer.ID; Addrs : list string }.
End AddrInfo.
End peer.

Module crypto.
  (** The interface [crypto.PubKey]: [Verify(data, sig) (bool, error)]. *)
Record PubKey := { Verify : string → string → bool * error }.
End crypto.

Module host.
  (** What the registry uses of [host.Host]: [Peerstore().PubKey(p)],
      [nil] when the peer store has no key for [p]. *)
Record Host := { Peerstore_PubKey : peer.ID → option crypto.PubKey }.
End host.

Module common.

Module ServiceCard.
Record t := {
      Name : string;
      Description : string;
      Inputs : list string;
      CostPerOp : spec_float;
      Version : string;
      Tags : list string;
      Embedding : list spec_float;
    }.
End ServiceCard.

Module StakeProof.
Record t := {
      TxHash : string;
      Staker : string;
      Amount : spec_float;
      Nonce : Z;
      Timestamp : Z;
      ChainID : string;
      Signature : string;
    }.
End StakeProof.

Module RegistryRequest.
Record t := {
      Method : string;
      Card : ServiceCard.t;
      Query : string;
      StakeProof : option StakeProof.t;
      ProviderInfo : option peer.AddrInfo.t;
    }.
End RegistryRequest.

Module RegistryResponse.
Record t := {
      Success : bool;
      Providers : list peer.AddrInfo.t;
      Error : string;
    }.
End RegistryResponse.

End common.

Module storage.

Module RegistrationRecord.
Record t := {
      LastSeen : Z;
      ServiceCard : common.ServiceCard.t;
      StakeProof : option common.StakeProof.t;
      AddrInfo : peer.AddrInfo.t;
    }.
End RegistrationRecord.

  (** [RedisStorage]: the client is outside the model; the value records
      that a store is configured, and its TTL. *)
Record RedisStorage := { ttl : Z }.

  (** What the Redis client answers during [RestoreAllRegistrations]:
      the keys the scan of [registration:*] yields, the error the iterator
      ends with, and the bytes [Get] returns for a key ([None]: the read
      failed). *)
Record RedisView := {
    scan_keys : list string;
    scan_err : error;
    get : string → option string;
  }.

End storage.

(** [RegistrationRecord] of package [main]. *)
Module RegistrationRecord.
Record t := {
    LastSeen : Z;
    ServiceCard : common.ServiceCard.t;
    StakeProof : option common.StakeProof.t;
    AddrInfo : peer.AddrInfo.t;
  }.
End RegistrationRecord.

Import common.

(** Library functions the registry calls and the model leaves open. *)
Class Libs := {
  (** [strings.Map(unicode.ToLower, s)], the non-ASCII path of
      [strings.ToLower] *)
  unicode_lower : string → string;
  (** [sha256.Sum256] *)
  sha256_Sum256 : string → string;
  (** [peer.ID.String], [peer.ID.ShortString], [peer.Decode] *)
  peer_String : peer.ID → string;
  peer_ShortString : peer.ID → string;
  peer_Decode : string → option peer.ID;
  (** [json.Unmarshal] into a [storage.RegistrationRecord] *)
  json_Unmarshal : string → option storage.RegistrationRecord.t;
}.

(** Calls that leave the process state, in the order they are made. *)
Inductive Event :=
  | MuLock | MuUnlock                 (* r.mu *)
  | StakeMuLock | StakeMuUnlock       (* r.stakeMu *)
  | RedisSave (pid : peer.ID) (record : storage.RegistrationRecord.t)
  | RedisDelete (pid : peer.ID) (serviceName : string)
  | RedisRestoreAll
  | QdrantUpsert (id : string) (vector : list spec_float).

Record QdrantClient := { BaseURL : string; Collection : string }.

Record RegistryNode := {
  Host : host.Host;
  Registrations : gmap string RegistrationRecord.t;
  ServiceIndex : gmap string (list string);
  minStake : spec_float;
  seenStakeNonces : gmap string bool;
  qdrant : option QdrantClient;
  storage_ : option storage.RedisStorage;
}.

Definition with_Registrations (r : RegistryNode)
    (m : gmap string RegistrationRecord.t) : RegistryNode :=
  {| Host := Host r; Registrations := m; ServiceIndex := ServiceIndex r;
     minStake := minStake r; seenStakeNonces := seenStakeNonces r;
     qdrant := qdrant r; storage_ := storage_ r |}.

Definition with_ServiceIndex (r : RegistryNode)
    (m : gmap string (list string)) : RegistryNode :=
  {| Host := Host r; Registrations := Registrations r; ServiceIndex := m;
     minStake := minStake r; seenStakeNonces := seenStakeNonces r;
     qdrant := qdrant r; storage_ := storage_ r |}.

Definition with_seenStakeNonces (r : RegistryNode)
    (m : gmap string bool) : RegistryNode :=
  {| Host := Host r; Registrations := Registrations r;
     ServiceIndex := ServiceIndex r;
     minStake := minStake r; seenStakeNonces := m;
     qdrant := qdrant r; storage_ := storage_ r |}.

(** The node [startRegistry] builds. *)
Definition newRegistryNode (h : host.Host) (minStake : spec_float)
    (qdrant : option QdrantClient) (redisStorage : option storage.RedisStorage)
    : RegistryNode :=
  {| Host := h; Registrations := ∅; ServiceIndex := ∅; minStake := minStake;
     seenStakeNonces := ∅; qdrant := qdrant; storage_ := redisStorage |}.

(* ===================================================================== *)
(** * Package [storage]: the calls of the registry to the Redis adapter *)
(* ===================================================================== *)

Section Storage.
Context `{Libs}.

(** [SaveRegistration] and [DeleteRegistration] return at once on a [nil]
    receiver; otherwise they talk to Redis. Their result is only logged. *)
Definition storage_SaveRegistration (s : option storage.RedisStorage)
    (pid : peer.ID) (record : storage.RegistrationRecord.t) : list Event :=
  match s with
  | None => []
  | Some _ => [RedisSave pid record]
  end.

Definition storage_DeleteRegistration (s : option storage.RedisStorage)
    (pid : peer.ID) (serviceName : string) : list Event :=
  match s with
  | None => []
  | Some _ => [RedisDelete pid serviceName]
  end.

(** One turn of the loop over the scanned keys of
    [RestoreAllRegistrations]. *)
Definition restoreKey (db : storage.RedisView) (now : Z)
    (registrations : gmap string storage.RegistrationRecord.t) (key : string)
    : gmap string storage.RegistrationRecord.t :=
  match storage.get db key with
  | None => registrations
  | Some data =>
    match json_Unmarshal data with
    | None => registrations
    | Some record =>
      if 90 * Go.Second <? Go.Time_Sub now (storage.RegistrationRecord.LastSeen record)
      then registrations
      else
        let peerIDStr := Go.TrimPrefix key "registration:" in
        match peer_Decode peerIDStr with
        | None => registrations
        | Some pid => <[pid := record]> registrations
        end
    end
  end.

Definition storage_RestoreAllRegistrations (s : option storage.RedisStorage)
    (db : storage.RedisView) (now : Z)
    : gmap string storage.RegistrationRecord.t * error :=
  match s with
  | None => (∅, Some "redis not configured")
  | Some _ =>
    let registrations := foldl (restoreKey db now) ∅ (storage.scan_keys db) in
    match storage.scan_err db with
    | Some err => (∅, Some ("redis scan error: " +:+ err))
    | None => (registrations, None)
    end
  end.

End Storage.

(* ===================================================================== *)
(** * Package [main]: the registry node *)
(* ===================================================================== *)

Section Registry.
Context `{Libs}.

Definition ToLower (s : string) : string := Go.ToLower unicode_lower s.

(** ** Index helpers *)

Definition addToIndex (r : RegistryNode) (pid : peer.ID) (serviceName : string)
    : RegistryNode :=
  let list := default [] (ServiceIndex r !! serviceName) in
  if bool_decide (pid ∈ list) then r
  else with_ServiceIndex r (<[serviceName := list ++ [pid]]> (ServiceIndex r)).

Definition removeFromIndex (r : RegistryNode) (pid : peer.ID)
    (serviceName : string) : RegistryNode :=
  let list := default [] (ServiceIndex r !! serviceName) in
  let newList := filter (λ id, id ≠ pid) list in
  with_ServiceIndex r (<[serviceName := newList]> (ServiceIndex r)).

(** ** Storage conversion helpers *)

Definition convertToStorageRecord (record : RegistrationRecord.t)
    : storage.RegistrationRecord.t :=
  {| storage.RegistrationRecord.LastSeen := RegistrationRecord.LastSeen record;
     storage.RegistrationRecord.ServiceCard := RegistrationRecord.ServiceCard record;
     storage.RegistrationRecord.StakeProof := RegistrationRecord.StakeProof record;
     storage.RegistrationRecord.AddrInfo := RegistrationRecord.AddrInfo record |}.

Definition convertFromStorageRecord (record : storage.RegistrationRecord.t)
    : RegistrationRecord.t :=
  {| RegistrationRecord.LastSeen := storage.RegistrationRecord.LastSeen record;
     RegistrationRecord.ServiceCard := storage.RegistrationRecord.ServiceCard record;
     RegistrationRecord.StakeProof := storage.RegistrationRecord.StakeProof record;
     RegistrationRecord.AddrInfo := storage.RegistrationRecord.AddrInfo record |}.

(** ** [gcLoop]: one tick of the ticker *)

Definition gcInterval : Z := 10 * Go.Second.

(** The body of the loop over [r.Registrations], for one entry. *)
Definition gcVisit (now : Z) (acc : RegistryNode * list Event)
    (entry : string * RegistrationRecord.t) : RegistryNode * list Event :=
  let '(r, tr) := acc in
  let '(pid, record) := entry in
  if 90 * Go.Second <? Go.Time_Sub now (RegistrationRecord.LastSeen record) then
    let r := with_Registrations r (delete pid (Registrations r)) in
    let r := removeFromIndex r pid (ServiceCard.Name (RegistrationRecord.ServiceCard record)) in
    (r, tr ++ storage_DeleteRegistration (storage_ r) pid
                (ServiceCard.Name (RegistrationRecord.ServiceCard record)))
  else (r, tr).

(** A tick that visits the entries in the order [entries]. *)
Definition gcTickIn (entries : list (string * RegistrationRecord.t)) (now : Z)
    (r : RegistryNode) : RegistryNode * list Event :=
  let '(r, tr) := foldl (gcVisit now) (r, [MuLock]) entries in
  (r, tr ++ [MuUnlock]).

Definition gcTick (now : Z) (r : RegistryNode) : RegistryNode * list Event :=
  gcTickIn (map_to_list (Registrations r)) now r.

(** ** [restoreStateFromRedis] *)

Definition restoreVisit (r : RegistryNode)
    (entry : string * storage.RegistrationRecord.t) : RegistryNode :=
  let '(pid, storageRecord) := entry in
  let record := convertFromStorageRecord storageRecord in
  let r := with_Registrations r (<[pid := record]> (Registrations r)) in
  addToIndex r pid (ServiceCard.Name (RegistrationRecord.ServiceCard record)).

Definition restoreStateFromRedis (r : RegistryNode) (db : storage.RedisView)
    (now : Z) : RegistryNode * error * list Event :=
  match storage_ r with
  | None => (r, None, [])
  | Some _ =>
    match storage_RestoreAllRegistrations (storage_ r) db now with
    | (_, Some err) =>
      (r, Some ("failed to restore registrations: " +:+ err), [RedisRestoreAll])
    | (storageRecords, None) =>
      if bool_decide (size storageRecords = 0%nat) then (r, None, [RedisRestoreAll])
      else
        (foldl restoreVisit r (map_to_list storageRecords), None,
         [RedisRestoreAll; MuLock; MuUnlock])
    end
  end.

(** ** [checkStakeValidity] *)

Definition stakePayload (proof : StakeProof.t) : string :=
  StakeProof.TxHash proof +:+ "|" +:+ Go.fmt_f 6 (StakeProof.Amount proof) +:+ "|" +:+
  Go.fmt_d (StakeProof.Nonce proof) +:+ "|" +:+ Go.fmt_d (StakeProof.Timestamp proof) +:+ "|" +:+
  StakeProof.ChainID proof.

Definition checkStakeValidity (r : RegistryNode) (remote : peer.ID)
    (proof : option StakeProof.t) : error :=
  match proof with
  | None =>
    Some ("stake proof required (min " +:+ Go.fmt_f 2 (minStake r) +:+ ")")
  | Some proof =>
    if Go.float64_lt (StakeProof.Amount proof) (minStake r) then
      Some ("stake too low: have " +:+ Go.fmt_f 2 (StakeProof.Amount proof) +:+
            " need " +:+ Go.fmt_f 2 (minStake r))
    else if bool_decide (StakeProof.Staker proof ≠ "") &&
            bool_decide (StakeProof.Staker proof ≠ peer_String remote) then
      Some ("stake staker mismatch (expected " +:+ peer_ShortString remote +:+
            " got " +:+ StakeProof.Staker proof +:+ ")")
    else
      match host.Peerstore_PubKey (Host r) remote with
      | None => Some ("missing pubkey for " +:+ peer_ShortString remote)
      | Some pubKey =>
        let payload := stakePayload proof in
        let digest := sha256_Sum256 payload in
        match crypto.Verify pubKey digest (StakeProof.Signature proof) with
        | (_, Some err) => Some ("stake signature verify failed: " +:+ err)
        | (false, None) => Some "stake signature invalid"
        | (true, None) => None
        end
      end
  end.

(** ** Embedding *)

Definition defaultEmbeddingDim : Z := 64.

(** The body of the loop over the runes of the text. The index is within
    the vector for every rune. *)
Definition embedRune (dim : Z) (vec : list spec_float) (r : Z) : list spec_float :=
  let idx := Z.rem r dim in
  let idx := if idx <? 0 then idx + dim else idx in
  alter (λ v, Go.float32_add v Go.float32_one) (Z.to_nat idx) vec.

Definition simpleTextEmbedding (text : string) (dim : Z) : list spec_float :=
  let dim := if dim <=? 0 then defaultEmbeddingDim else dim in
  let vec := replicate (Z.to_nat dim) Go.float32_zero in
  foldl (embedRune dim) vec (Go.runes text).

Definition cardText (card : ServiceCard.t) : string :=
  let textParts := [ServiceCard.Name card; ServiceCard.Description card] in
  let textParts :=
    if (0 <? length (ServiceCard.Tags card))%nat
    then textParts ++ [Go.Join (ServiceCard.Tags card) " "]
    else textParts in
  Go.Join textParts " ".

Definition buildServiceEmbedding (card : ServiceCard.t) : list spec_float :=
  let text := ToLower (cardText card) in
  simpleTextEmbedding text defaultEmbeddingDim.

(** The vector [semanticSearchServices] sends to the index for [query]. *)
Definition queryEmbedding (query : string) : list spec_float :=
  simpleTextEmbedding (ToLower query) defaultEmbeddingDim.

(** ** [handleStream]

    [remotePeer] is [stream.Conn().RemotePeer()], [req] the decoded request
    (a stream whose request does not decode is closed without a response)
    and [now] what [time.Now()] returns while the request is served. The
    result is the node after the request, the response written to the
    stream, and the calls made on the way. *)

Definition isHeartbeat (existing : option RegistrationRecord.t)
    (req : RegistryRequest.t) : bool :=
  match existing with
  | Some existing =>
    match RegistrationRecord.StakeProof existing, RegistryRequest.StakeProof req with
    | Some eproof, Some rproof =>
      bool_decide (StakeProof.TxHash eproof = StakeProof.TxHash rproof)
    | _, _ => false
    end
  | None => false
  end.

Definition replayKey (proof : StakeProof.t) : string :=
  StakeProof.TxHash proof +:+ "|" +:+ Go.fmt_d (StakeProof.Nonce proof).

Definition respFailure (err : string) : RegistryResponse.t :=
  {| RegistryResponse.Success := false; RegistryResponse.Providers := [];
     RegistryResponse.Error := err |}.

Definition respSuccess (providers : list peer.AddrInfo.t) : RegistryResponse.t :=
  {| RegistryResponse.Success := true; RegistryResponse.Providers := providers;
     RegistryResponse.Error := "" |}.

(** The heartbeat branch, entered with [r.mu] released. *)
Definition handleHeartbeat (r : RegistryNode) (remotePeer : peer.ID) (now : Z)
    (req : RegistryRequest.t) : RegistryNode * RegistryResponse.t * list Event :=
  match Registrations r !! remotePeer with
  | Some entry =>
    let entry :=
      {| RegistrationRecord.LastSeen := now;
         RegistrationRecord.ServiceCard := RegistrationRecord.ServiceCard entry;
         RegistrationRecord.StakeProof := RegistrationRecord.StakeProof entry;
         RegistrationRecord.AddrInfo :=
           match RegistryRequest.ProviderInfo req with
           | Some info => info
           | None => RegistrationRecord.AddrInfo entry
           end |} in
    let storageRecord := convertToStorageRecord entry in
    (with_Registrations r (<[remotePeer := entry]> (Registrations r)),
     respSuccess [],
     [MuLock] ++ storage_SaveRegistration (storage_ r) remotePeer storageRecord ++ [MuUnlock])
  | None => (r, respFailure "", [MuLock; MuUnlock])
  end.

(** The branch "new registration or stake changed"; [existing] is the
    record read for the peer before the branch was chosen. *)
Definition handleNewRegistration (r : RegistryNode) (remotePeer : peer.ID) (now : Z)
    (req : RegistryRequest.t) (existing : option RegistrationRecord.t)
    : RegistryNode * RegistryResponse.t * list Event :=
  match checkStakeValidity r remotePeer (RegistryRequest.StakeProof req),
        RegistryRequest.StakeProof req with
  | Some err, _ => (r, respFailure err, [])
  | None, None => (r, respFailure "", [])   (* a nil proof never passes the check *)
  | None, Some proof =>
    let key := replayKey proof in
    if default false (seenStakeNonces r !! key) then
      (r, respFailure "stake proof already used (replay detected)",
       [StakeMuLock; StakeMuUnlock])
    else
      let r := with_seenStakeNonces r (<[key := true]> (seenStakeNonces r)) in
      let card := RegistryRequest.Card req in
      let embedding := buildServiceEmbedding card in
      (* r.mu.Lock() *)
      let r :=
        match existing with
        | Some existing =>
          if bool_decide (ServiceCard.Name (RegistrationRecord.ServiceCard existing)
                          ≠ ServiceCard.Name card)
          then removeFromIndex r remotePeer
                 (ServiceCard.Name (RegistrationRecord.ServiceCard existing))
          else r
        | None => r
        end in
      let '(r, saved) :=
        match RegistryRequest.ProviderInfo req with
        | Some info =>
          let newRecord :=
            {| RegistrationRecord.LastSeen := now;
               RegistrationRecord.ServiceCard := card;
               RegistrationRecord.StakeProof := Some proof;
               RegistrationRecord.AddrInfo := info |} in
          let r := with_Registrations r (<[remotePeer := newRecord]> (Registrations r)) in
          let r := addToIndex r remotePeer (ServiceCard.Name card) in
          (r, storage_SaveRegistration (storage_ r) remotePeer
                (convertToStorageRecord newRecord))
        | None => (r, [])
        end in
      (* r.mu.Unlock() *)
      let indexed :=
        match qdrant r with
        | Some _ =>
          if (0 <? length embedding)%nat
          then [QdrantUpsert (peer_String remotePeer +:+ ":" +:+ ServiceCard.Name card)
                             embedding]
          else []
        | None => []
        end in
      (r, respSuccess [],
       [StakeMuLock; StakeMuUnlock] ++ [MuLock] ++ saved ++ [MuUnlock] ++ indexed)
  end.

(** The inner loops of the [find] case: [results] after the peers of one
    index entry, and after all the entries in the order given. *)
Definition findPeers (r : RegistryNode) (results : list peer.AddrInfo.t)
    (peerIDs : list string) : list peer.AddrInfo.t :=
  foldl (λ results pid,
           match Registrations r !! pid with
           | Some reg => results ++ [RegistrationRecord.AddrInfo reg]
           | None => results
           end) results peerIDs.

Definition findIn (r : RegistryNode) (query : string)
    (entries : list (string * list string)) : list peer.AddrInfo.t :=
  foldl (λ results '(name, peerIDs),
           if Go.Contains (ToLower name) query
           then findPeers r results peerIDs
           else results) [] entries.

Definition handleStream (r : RegistryNode) (remotePeer : peer.ID) (now : Z)
    (req : RegistryRequest.t) : RegistryNode * RegistryResponse.t * list Event :=
  if bool_decide (RegistryRequest.Method req = "register") then
    let existing := Registrations r !! remotePeer in
    let '(r, resp, tr) :=
      if isHeartbeat existing req
      then handleHeartbeat r remotePeer now req
      else handleNewRegistration r remotePeer now req existing in
    (r, resp, [MuLock; MuUnlock] ++ tr)
  else if bool_decide (RegistryRequest.Method req = "find") then
    let query := ToLower (RegistryRequest.Query req) in
    let results := findIn r query (map_to_list (ServiceIndex r)) in
    (r, respSuccess results, [MuLock; MuUnlock])
  else
    (r, respFailure "Unknown method", []).

End Registry.

(* ===================================================================== *)
(** * Runs of the registry *)
(* ===================================================================== *)

(** What happens to a running registry: a request arrives on a stream, or
    the ticker of [gcLoop] fires. *)
Inductive Op :=
  | Request (remotePeer : peer.ID) (now : Z) (req : RegistryRequest.t)
  | Tick (now : Z).

Section Runs.
Context `{Libs}.

Definition step (r : RegistryNode) (op : Op) : RegistryNode :=
  match op with
  | Request remotePeer now req => (handleStream r remotePeer now req).1.1
  | Tick now => (gcTick now r).1
  end.

Definition stepTrace (r : RegistryNode) (op : Op) : list Event :=
  match op with
  | Request remotePeer now req => (handleStream r remotePeer now req).2
  | Tick now => (gcTick now r).2
  end.

Definition run (r : RegistryNode) (ops : list Op) : RegistryNode :=
  foldl step r ops.

(** ** Invariants A and B of the registry state *)

(** Invariant A: every registered peer is listed, exactly once, under the
    service name of its record. *)
Definition InvariantA (r : RegistryNode) : Prop :=
  ∀ pid record, Registrations r !! pid = Some record →
    ∃ l, ServiceIndex r !! ServiceCard.Name (RegistrationRecord.ServiceCard record) = Some l
         ∧ pid ∈ l ∧ length (filter (λ id, id = pid) l) = 1%nat.

(** Invariant B: every peer listed under a name has a record with that
    name. *)
Definition InvariantB (r : RegistryNode) : Prop :=
  ∀ n l pid, ServiceIndex r !! n = Some l → pid ∈ l →
    ∃ record, Registrations r !! pid = Some record
              ∧ ServiceCard.Name (RegistrationRecord.ServiceCard record) = n.

(** No list of the index names a peer twice. *)
Definition IndexNoDup (r : RegistryNode) : Prop :=
  ∀ n l, ServiceIndex r !! n = Some l → NoDup l.

(** ** The stake verifier as the specification words it *)

Inductive StakeOutcome :=
  | StakeOK | StakeMissing | StakeTooLow | StakerMismatch | PubkeyMissing
  | SignatureInvalid.

(** The outcome an error of [checkStakeValidity] stands for. *)
Definition outcomeOf (e : error) : option StakeOutcome :=
  match e with
  | None => Some StakeOK
  | Some msg =>
    if Go.HasPrefix msg "stake proof required" then Some StakeMissing
    else if Go.HasPrefix msg "stake too low" then Some StakeTooLow
    else if Go.HasPrefix msg "stake staker mismatch" then Some StakerMismatch
    else if Go.HasPrefix msg "missing pubkey" then Some PubkeyMissing
    else if Go.HasPrefix msg "stake signature" then Some SignatureInvalid
    else None
  end.

(** The procedure of the specification: the first step that applies
    decides. [verified] tells whether the signature verifies against the
    digest [digest] with the public key [pk]. *)
Definition verifyStake_spec (sp : option StakeProof.t) (pidString : string)
    (m : spec_float) (pubkey_of_pid : option crypto.PubKey)
    (verified : crypto.PubKey → string → string → bool) : StakeOutcome :=
  match sp with
  | None => StakeMissing
  | Some sp =>
    if Go.float64_lt (StakeProof.Amount sp) m then StakeTooLow
    else if bool_decide (StakeProof.Staker sp ≠ "" ∧ StakeProof.Staker sp ≠ pidString)
    then StakerMismatch
    else
      match pubkey_of_pid with
      | None => PubkeyMissing
      | Some pk =>
        let payload :=
          StakeProof.TxHash sp +:+ "|" +:+ Go.fmt_f 6 (StakeProof.Amount sp) +:+ "|" +:+
          pretty (StakeProof.Nonce sp) +:+ "|" +:+ pretty (StakeProof.Timestamp sp) +:+
          "|" +:+ StakeProof.ChainID sp in
        if verified pk (sha256_Sum256 payload) (StakeProof.Signature sp)
        then StakeOK else SignatureInvalid
      end
  end.

(** A signature verifies when [Verify] answers [true] without an error. *)
Definition verified (pk : crypto.PubKey) (digest sig : string) : bool :=
  match crypto.Verify pk digest sig with
  | (true, None) => true
  | _ => false
  end.

End Runs.

(* ===================================================================== *)
(** * A concrete environment and concrete peers, for the scenarios *)
(* ===================================================================== *)

Module Scenario.

(** A toy signature scheme: the signature of a digest is the digest. *)
Definition pubKey : crypto.PubKey :=
  {| crypto.Verify := λ data sig, (bool_decide (sig = data), None) |}.

Definition h : host.Host := {| host.Peerstore_PubKey := λ _, Some pubKey |}.

Definition addrOf (pid : peer.ID) : peer.AddrInfo.t :=
  {| peer.AddrInfo.ID := pid; peer.AddrInfo.Addrs := ["/ip4/127.0.0.1/tcp/4001"] |}.

Definition card (name : string) : ServiceCard.t :=
  {| ServiceCard.Name := name; ServiceCard.Description := "demo";
     ServiceCard.Inputs := []; ServiceCard.CostPerOp := S754_zero false;
     ServiceCard.Version := "1"; ServiceCard.Tags := [];
     ServiceCard.Embedding := [] |}.

Definition stored (lastSeen : Z) (pid : peer.ID) (name : string)
    : storage.RegistrationRecord.t :=
  {| storage.RegistrationRecord.LastSeen := lastSeen;
     storage.RegistrationRecord.ServiceCard := card name;
     storage.RegistrationRecord.StakeProof := None;
     storage.RegistrationRecord.AddrInfo := addrOf pid |}.

(** The libraries of the scenarios: identities stand for themselves, the
    hash is the identity, and two stored documents decode. *)
Definition libs : Libs :=
  {| unicode_lower := λ s, s;
     sha256_Sum256 := λ s, s;
     peer_String := λ p, p;
     peer_ShortString := λ p, "<peer.ID " +:+ p +:+ ">";
     peer_Decode := λ s, Some s;
     json_Unmarshal := λ data,
       if bool_decide (data = "record-of-peerA") then Some (stored (70 * Go.Second) "peerA" "math")
       else if bool_decide (data = "record-of-peerB") then Some (stored (-20 * Go.Second) "peerB" "echo")
       else None |}.

Definition proof (tx : string) (nonce : Z) (amount : Z) : StakeProof.t :=
  let p := {| StakeProof.TxHash := tx; StakeProof.Staker := "";
              StakeProof.Amount := Go.float64_of_Z amount; StakeProof.Nonce := nonce;
              StakeProof.Timestamp := 1700000000; StakeProof.ChainID := "prxs";
              StakeProof.Signature := "" |} in
  {| StakeProof.TxHash := tx; StakeProof.Staker := "";
     StakeProof.Amount := Go.float64_of_Z amount; StakeProof.Nonce := nonce;
     StakeProof.Timestamp := 1700000000; StakeProof.ChainID := "prxs";
     StakeProof.Signature := stakePayload p |}.

Definition register (name : string) (sp : option StakeProof.t)
    (info : option peer.AddrInfo.t) : RegistryRequest.t :=
  {| RegistryRequest.Method := "register"; RegistryRequest.Card := card name;
     RegistryRequest.Query := ""; RegistryRequest.StakeProof := sp;
     RegistryRequest.ProviderInfo := info |}.

Definition find (query : string) : RegistryRequest.t :=
  {| RegistryRequest.Method := "find"; RegistryRequest.Card := card "";
     RegistryRequest.Query := query; RegistryRequest.StakeProof := None;
     RegistryRequest.ProviderInfo := None |}.

(** The empty registry with a minimum stake of 10, without and with a
    durable store and a vector index. *)
Definition empty : RegistryNode :=
  newRegistryNode h (Go.float64_of_Z 10) None None.

Definition emptyStored : RegistryNode :=
  newRegistryNode h (Go.float64_of_Z 10)
    (Some {| BaseURL := "http://localhost:6333"; Collection := "prxs_services" |})
    (Some {| storage.ttl := 120 * Go.Second |}).

End Scenario.

(* ===================================================================== *)
(** * Definitions used to state the properties *)
(* ===================================================================== *)

(** ** Eviction *)

(** A record last seen at [t] is stale at [now]: more than 90 seconds old. *)
Definition stale (now t : Z) : Prop := 90 * Go.Second < now - t.

(** The test of [gcLoop] and of [RestoreAllRegistrations]. *)
Definition staleb (now t : Z) : bool := 90 * Go.Second <? Go.Time_Sub now t.

(** A visit of [gcLoop] evicts the entry. *)
Definition evicts (now : Z) (entry : string * RegistrationRecord.t) : bool :=
  staleb now (RegistrationRecord.LastSeen entry.2).

(** The fields of the node no operation writes. *)
Definition config (r : RegistryNode)
    : host.Host * spec_float * option QdrantClient * option storage.RedisStorage :=
  (Host r, minStake r, qdrant r, storage_ r).

(** ** The index *)

(** The index lists peer [pid] under the name [n]. *)
Definition listed (r : RegistryNode) (n : string) (pid : peer.ID) : Prop :=
  ∃ l, ServiceIndex r !! n = Some l ∧ pid ∈ l.

(** The index is sound: Invariant B, and no list names a peer twice. *)
Definition IndexSound (r : RegistryNode) : Prop := InvariantB r ∧ IndexNoDup r.

(** The one request that breaks Invariant A: a register request that is
    not a heartbeat, from a peer with a record under another service
    name, without provider_info. *)
Definition dropsIndexEntry (r : RegistryNode) (op : Op) : Prop :=
  match op with
  | Request remotePeer now req =>
    RegistryRequest.Method req = "register"
    ∧ isHeartbeat (Registrations r !! remotePeer) req = false
    ∧ RegistryRequest.ProviderInfo req = None
    ∧ ∃ existing, Registrations r !! remotePeer = Some existing
                  ∧ ServiceCard.Name (RegistrationRecord.ServiceCard existing)
                    ≠ ServiceCard.Name (RegistryRequest.Card req)
  | Tick _ => False
  end.

(** ** Replay guard *)

(** The replay set only ever stores [true]; a key has been claimed when
    looking it up gives [true]. *)
Definition seen (r : RegistryNode) (key : string) : bool :=
  default false (seenStakeNonces r !! key).

(** ** Find *)

Section FindSpec.
Context `{Libs}.

(** The addresses of the registered records whose service name, lowered,
    contains the lowered query. *)
Definition matchingProviders (r : RegistryNode) (query : string)
    : list peer.AddrInfo.t :=
  (λ kv, RegistrationRecord.AddrInfo kv.2) <$>
  filter (λ kv : string * RegistrationRecord.t,
            Go.Contains (ToLower (ServiceCard.Name (RegistrationRecord.ServiceCard kv.2)))
                        (ToLower query) = true)
         (map_to_list (Registrations r)).

(** The address of [pid], if it has a record. *)
Definition providerOf (r : RegistryNode) (pid : string) : list peer.AddrInfo.t :=
  match Registrations r !! pid with
  | Some reg => [RegistrationRecord.AddrInfo reg]
  | None => []
  end.

(** The pairs (name, peer) of the index entries whose name matches. *)
Definition matchingPairs (query : string) (entries : list (string * list string))
    : list (string * string) :=
  entries ≫= λ '(name, peerIDs),
    if Go.Contains (ToLower name) query then (λ pid, (name, pid)) <$> peerIDs else [].

End FindSpec.

(** ** Restore *)

Section RestoreSpec.
Context `{Libs}.

(** The key [key] of the store holds a readable record [record] of the
    peer [pid]. *)
Definition holds (db : storage.RedisView) (key : string) (pid : string)
    (record : storage.RegistrationRecord.t) : Prop :=
  ∃ data, storage.get db key = Some data
          ∧ json_Unmarshal data = Some record
          ∧ peer_Decode (Go.TrimPrefix key "registration:") = Some pid.

(** What the loop of [RestoreAllRegistrations] puts into its map for a
    key. *)
Definition restored (db : storage.RedisView) (now : Z) (key : string)
    : option (string * storage.RegistrationRecord.t) :=
  match storage.get db key with
  | None => None
  | Some data =>
    match json_Unmarshal data with
    | None => None
    | Some record =>
      if staleb now (storage.RegistrationRecord.LastSeen record) then None
      else
        match peer_Decode (Go.TrimPrefix key "registration:") with
        | None => None
        | Some pid => Some (pid, record)
        end
    end
  end.

End RestoreSpec.

(** ** Embedding *)

(** How many of the code points [rs] fall into bucket [i] of 64. *)
Definition bucketCount (i : nat) (rs : list Z) : Z :=
  Z.of_nat (length (filter (λ c, c mod 64 = Z.of_nat i) rs)).

(** [strings.Repeat] *)
Fixpoint Repeat (s : string) (count : nat) : string :=
  match count with
  | O => ""
  | S n => s +:+ Repeat s n
  end.

(** The mantissa of 24 digits and the exponent with which a [float32]
    holds the integer [p < 2^24]. *)
Definition canon24 (p : positive) : positive * Z :=
  match 24 - Z.pos (digits2_pos p) with
  | Z.pos k => (Pos.iter xO p k, - Z.pos k)
  | _ => (p, 0)
  end.

(** ** Where the external calls of a trace fall *)

Definition isStoreCall (e : Event) : bool :=
  match e with
  | RedisSave _ _ | RedisDelete _ _ | RedisRestoreAll => true
  | _ => false
  end.

Definition isStoreWrite (e : Event) : bool :=
  match e with
  | RedisSave _ _ | RedisDelete _ _ => true
  | _ => false
  end.

Definition isIndexCall (e : Event) : bool :=
  match e with
  | QdrantUpsert _ _ => true
  | _ => false
  end.

Definition isExternalCall (e : Event) : bool := isStoreCall e || isIndexCall e.

(** [callsWhen sel want held tr]: in the trace [tr], run from a moment at
    which the state mutex [r.mu] is held or not as [held] tells, every
    call selected by [sel] is made while the mutex is held ([want = true])
    or while it is not ([want = false]). *)
Fixpoint callsWhen (sel : Event → bool) (want held : bool) (tr : list Event) : bool :=
  match tr with
  | [] => true
  | e :: tr' =>
    (if sel e then bool_decide (held = want) else true) &&
    callsWhen sel want
      (match e with MuLock => true | MuUnlock => false | _ => held end) tr'
  end.


(* ===================================================================== *)
(** * The REST API, the Qdrant client and the Redis adapter *)
(* ===================================================================== *)

(** ** More of the Go library *)

Module GoLib.

(** [strings.TrimRight(s, cutset)] for a cutset of one ASCII byte [c]:
    [trimRightByte], which drops the bytes [c] the string ends with. *)
Fixpoint trimRightByte (s : string) (c : Ascii.ascii) : string :=
  match s with
  | EmptyString => EmptyString
  | String a s' =>
    match trimRightByte s' c with
    | EmptyString => if bool_decide (a = c) then EmptyString else String a EmptyString
    | t => String a t
    end
  end.

(** The byte of ["/"]. *)
Definition slash : Ascii.ascii := Ascii.Ascii true true true true false true false false.

(** [strings.HasSuffix] *)
Fixpoint HasSuffix (s suffix : string) : bool :=
  bool_decide (s = suffix) ||
  match s with
  | EmptyString => false
  | String _ s' => HasSuffix s' suffix
  end.

(** An [interface{}] value: what [encoding/json] decodes a document into,
    and the values the request bodies are built from. *)
#[warnings="-register-all"]
Inductive Any :=
  | AnyNil
  | AnyBool (b : bool)
  | AnyInt (n : Z)
  | AnyFloat (x : spec_float)
  | AnyString (s : string)
  | AnySlice (l : list Any)
  | AnyMap (m : list (string * Any)).

(** [v, _ := m[key].(string)] on a [map[string]interface{}]: the zero
    string when the key is absent or holds something else. *)
Definition stringAt (m : gmap string Any) (key : string) : string :=
  match m !! key with
  | Some (AnyString s) => s
  | _ => ""
  end.

(** ** UTF-8 encoding: [string(runes)] *)

Definition MaxRune : Z := 1114111.
Definition surrogateMin : Z := 55296.
Definition surrogateMax : Z := 57343.

(** [byte(x)] *)
Definition byte (x : Z) : Z := x mod 256.

(** [utf8.AppendRune(nil, r)] for the [int32] value [r]. *)
Definition EncodeRune (r : Z) : list Z :=
  let i := r mod 2 ^ 32 in
  if i <=? 127 then [byte r]
  else if i <=? 2047 then
    [Z.lor 192 (byte (Z.shiftr r 6)); Z.lor 128 (Z.land (byte r) 63)]
  else
    let invalid := (MaxRune <? i) || ((surrogateMin <=? i) && (i <=? surrogateMax)) in
    let r := if invalid then Go.RuneError else r in
    if invalid || (i <=? 65535) then
      [Z.lor 224 (byte (Z.shiftr r 12));
       Z.lor 128 (Z.land (byte (Z.shiftr r 6)) 63);
       Z.lor 128 (Z.land (byte r) 63)]
    else
      [Z.lor 240 (byte (Z.shiftr r 18));
       Z.lor 128 (Z.land (byte (Z.shiftr r 12)) 63);
       Z.lor 128 (Z.land (byte (Z.shiftr r 6)) 63);
       Z.lor 128 (Z.land (byte r) 63)].

Fixpoint string_of_bytes (l : list Z) : string :=
  match l with
  | [] => EmptyString
  | b :: l' => String (Ascii.ascii_of_N (Z.to_N b)) (string_of_bytes l')
  end.

(** [string(runes)] for a [[]rune]. *)
Definition string_of_runes (rs : list Z) : string :=
  string_of_bytes (rs ≫= EncodeRune).

(** [strings.ToUpper]: an all-ASCII string is raised byte by byte (and
    returned as it is when it has no lower-case letter); any other string
    goes through the Unicode tables, the parameter [unicode_upper]. *)
Definition isLowerByte (c : Z) : bool := (97 <=? c) && (c <=? 122).

Definition hasLower (s : string) : bool := existsb isLowerByte (Go.bytes s).

Definition upperByte (a : Ascii.ascii) : Ascii.ascii :=
  let c := Z.of_N (Ascii.N_of_ascii a) in
  if isLowerByte c then Ascii.ascii_of_N (Z.to_N (c - 32)) else a.

Fixpoint upperASCII (s : string) : string :=
  match s with
  | EmptyString => EmptyString
  | String a s' => String (upperByte a) (upperASCII s')
  end.

Definition ToUpper (unicode_upper : string → string) (s : string) : string :=
  if Go.isASCII s then (if hasLower s then upperASCII s else s)
  else unicode_upper s.

End GoLib.

Module http.

Definition StatusOK : Z := 200.
Definition StatusCreated : Z := 201.
Definition StatusAccepted : Z := 202.
Definition StatusBadRequest : Z := 400.
Definition StatusNotFound : Z := 404.
Definition StatusConflict : Z := 409.
Definition StatusInternalServerError : Z := 500.

Definition MethodPut : string := "PUT".
Definition MethodPost : string := "POST".

(** A request as the client builds it: method, URL, body and the
    [Content-Type] header it sets. *)
Record Request := {
    Method : string;
    URL : string;
    Body : string;
    ContentType : string;
  }.

(** A response: its status code and the bytes [ioutil.ReadAll] reads from
    its body. *)
Record Response := {
    StatusCode : Z;
    ResponseBody : string;
  }.

End http.

Module ma.

Definition P_IP4 : Z := 4.
Definition P_TCP : Z := 6.
Definition P_UDP : Z := 273.

(** What the registry uses of the interface [ma.Multiaddr]: its text,
    the codes of its protocols, and [ValueForProtocol]. *)
Record Multiaddr := {
    String : string;
    Protocols : list Z;
    ValueForProtocol : Z → string * error;
  }.

End ma.

(** One hit of a Qdrant search. *)
Record qdrantSearchResult := {
  ID : GoLib.Any;
  Score : spec_float;
  Payload : gmap string GoLib.Any;
}.

(** ** The responses of the REST handlers: status code and JSON body *)

Module api.

(** The entry of a service in the view of [getAllServicesFull]. *)
Record ServiceView := {
    card : ServiceCard.t;
    providers : list peer.AddrInfo.t;
  }.

(** [apiResult] of [semanticSearchServices]. *)
Record Result := {
    ServiceName : string;
    ResultScore : spec_float;
    Card : ServiceCard.t;
    Providers : list peer.AddrInfo.t;
  }.

(** The [gin.H] documents the handlers answer with. *)
Inductive Body :=
  | Error (error : string)
  | Services (services : gmap string (list peer.AddrInfo.t)) (count : Z)
  | ServicesFull (services : gmap string ServiceView) (count : Z)
  | Search (query : string) (services : gmap string (list peer.AddrInfo.t)) (count : Z)
  | Service (service : string) (providers : list peer.AddrInfo.t) (count : Z)
  | Semantic (query : string) (results : list Result) (count : Z)
  | Info (peer_id : string) (multiaddrs : list string) (bootstrap : string).

End api.

(** Library functions of the REST handlers, the Qdrant client and the
    Redis adapter that the model leaves open. *)
Class ApiLibs := {
  (** [strconv.Atoi] *)
  strconv_Atoi : string → Z * error;
  (** [strings.TrimSpace] *)
  strings_TrimSpace : string → string;
  (** [json.Marshal] of a request body; the client drops its error *)
  json_Marshal : GoLib.Any → string;
  (** the error of [http.NewRequest(method, url, body)] *)
  http_NewRequest : string → string → string → error;
  (** [json.NewDecoder(body).Decode(&sr)] into a [qdrantSearchResponse],
      then [sr.Result] *)
  json_DecodeSearch : string → list qdrantSearchResult * error;
  (** [json.Marshal] of a [storage.RegistrationRecord] *)
  json_MarshalRecord : storage.RegistrationRecord.t → string * error;
  (** the text of the error of a failed [json.Unmarshal] *)
  json_UnmarshalError : string → string;
}.

Section RestAPI.
Context `{Libs} `{ApiLibs}.

(** ** [getAllServices]

    The handlers hold [r.mu] while they read the state. A loop over
    [r.Registrations] is a function of the entries in the order visited. *)

Definition servicesVisit (view : gmap string (list peer.AddrInfo.t))
    (reg : RegistrationRecord.t) : gmap string (list peer.AddrInfo.t) :=
  let name := ServiceCard.Name (RegistrationRecord.ServiceCard reg) in
  <[name := default [] (view !! name) ++ [RegistrationRecord.AddrInfo reg]]> view.

Definition getAllServicesIn (entries : list (string * RegistrationRecord.t))
    : Z * api.Body :=
  let view := foldl servicesVisit ∅ entries.*2 in
  (http.StatusOK, api.Services view (Z.of_nat (size view))).

Definition getAllServices (r : RegistryNode) : Z * api.Body :=
  getAllServicesIn (map_to_list (Registrations r)).

(** ** [getAllServicesFull] *)

Definition servicesFullVisit (view : gmap string api.ServiceView)
    (reg : RegistrationRecord.t) : gmap string api.ServiceView :=
  let name := ServiceCard.Name (RegistrationRecord.ServiceCard reg) in
  let entry :=
    match view !! name with
    | Some entry => entry
    | None => {| api.card := RegistrationRecord.ServiceCard reg; api.providers := [] |}
    end in
  let providers := api.providers entry ++ [RegistrationRecord.AddrInfo reg] in
  <[name := {| api.card := api.card entry; api.providers := providers |}]> view.

Definition getAllServicesFullIn (entries : list (string * RegistrationRecord.t))
    : Z * api.Body :=
  let view := foldl servicesFullVisit ∅ entries.*2 in
  (http.StatusOK, api.ServicesFull view (Z.of_nat (size view))).

Definition getAllServicesFull (r : RegistryNode) : Z * api.Body :=
  getAllServicesFullIn (map_to_list (Registrations r)).

(** ** [searchServices]; [query] is [c.Query("q")], the empty string when
       the parameter is absent *)

Definition searchPeers (r : RegistryNode) (name : string)
    (results : gmap string (list peer.AddrInfo.t)) (peerIDs : list string)
    : gmap string (list peer.AddrInfo.t) :=
  foldl (λ results pid,
           match Registrations r !! pid with
           | Some reg =>
             <[name := default [] (results !! name) ++ [RegistrationRecord.AddrInfo reg]]>
               results
           | None => results
           end) results peerIDs.

Definition searchIn (r : RegistryNode) (queryLower : string)
    (entries : list (string * list string)) : gmap string (list peer.AddrInfo.t) :=
  foldl (λ results '(name, peerIDs),
           if Go.Contains (ToLower name) queryLower
           then searchPeers r name results peerIDs
           else results) ∅ entries.

Definition searchServicesIn (entries : list (string * list string)) (r : RegistryNode)
    (query : string) : Z * api.Body :=
  if bool_decide (query = "") then
    (http.StatusBadRequest, api.Error "query parameter 'q' is required")
  else
    let queryLower := ToLower query in
    let results := searchIn r queryLower entries in
    (http.StatusOK, api.Search query results (Z.of_nat (size results))).

Definition searchServices (r : RegistryNode) (query : string) : Z * api.Body :=
  searchServicesIn (map_to_list (ServiceIndex r)) r query.

(** ** [getServiceByName]; [serviceName] is [c.Param("name")] *)

Definition getServiceByName (r : RegistryNode) (serviceName : string) : Z * api.Body :=
  let providers :=
    match ServiceIndex r !! serviceName with
    | Some peerIDs => findPeers r [] peerIDs
    | None => []
    end in
  if bool_decide (length providers = 0%nat) then
    (http.StatusNotFound, api.Error ("service '" +:+ serviceName +:+ "' not found"))
  else
    (http.StatusOK, api.Service serviceName providers (Z.of_nat (length providers))).

(** ** [semanticSearchServices]

    [q] is [c.Query("q")] and [k] the parameter [k] when the request has
    one. [Search] is [r.qdrant.Search] of the client the node holds. The
    result carries the calls made to [Search]. *)

Definition semanticLimit (k : option string) : Z :=
  let kStr := default "5" k in
  let '(k, err) := strconv_Atoi kStr in
  if bool_decide (err ≠ None) || (k <=? 0) then 5 else k.

(** The body of the loop over the hits. *)
Definition semanticVisit (r : RegistryNode) (apiResults : list api.Result)
    (hit : qdrantSearchResult) : list api.Result :=
  let payload := Payload hit in
  let serviceName := GoLib.stringAt payload "service_name" in
  let peerIDStr := GoLib.stringAt payload "peer_id" in
  if bool_decide (serviceName = "") || bool_decide (peerIDStr = "") then apiResults
  else
    match peer_Decode peerIDStr with
    | None => apiResults
    | Some pid =>
      match Registrations r !! pid with
      | None => apiResults
      | Some reg =>
        if bool_decide (ServiceCard.Name (RegistrationRecord.ServiceCard reg) ≠ serviceName)
        then apiResults
        else apiResults ++
             [{| api.ServiceName := serviceName;
                 api.ResultScore := Score hit;
                 api.Card := RegistrationRecord.ServiceCard reg;
                 api.Providers := [RegistrationRecord.AddrInfo reg] |}]
      end
    end.

Definition semanticSearchServices (r : RegistryNode)
    (Search : list spec_float → Z → list qdrantSearchResult * error)
    (q : string) (k : option string)
    : Z * api.Body * list (list spec_float * Z) :=
  match qdrant r with
  | None =>
    (http.StatusBadRequest,
     api.Error "semantic search is not enabled (no Qdrant configured)", [])
  | Some _ =>
    if bool_decide (strings_TrimSpace q = "") then
      (http.StatusBadRequest, api.Error "query parameter 'q' is required", [])
    else
      let k := semanticLimit k in
      let vector := queryEmbedding q in
      match Search vector k with
      | (_, Some err) =>
        (http.StatusInternalServerError,
         api.Error ("qdrant search failed: " +:+ err), [(vector, k)])
      | (results, None) =>
        let apiResults := foldl (semanticVisit r) [] results in
        (http.StatusOK, api.Semantic q apiResults (Z.of_nat (length apiResults)),
         [(vector, k)])
      end
  end.

(** ** [getRegistryInfo]; [hostID] is [r.Host.ID()] and [hostAddrs] is
       [r.Host.Addrs()] *)

(** The loop that looks for an address to bootstrap from. *)
Fixpoint bootstrapFrom (hostID : peer.ID) (hostAddrs : list ma.Multiaddr) : string :=
  match hostAddrs with
  | [] => ""
  | addr :: rest =>
    let protocols := ma.Protocols addr in
    if match protocols with
       | code :: _ => code =? ma.P_IP4
       | [] => false
       end
    then
      let '(port, err) := ma.ValueForProtocol addr ma.P_UDP in
      let port :=
        match err with
        | Some _ => (ma.ValueForProtocol addr ma.P_TCP).1
        | None => port
        end in
      if bool_decide (port ≠ "")
      then "/ip4/127.0.0.1/udp/" +:+ port +:+ "/quic-v1/p2p/" +:+ peer_String hostID
      else bootstrapFrom hostID rest
    else bootstrapFrom hostID rest
  end.

Definition getRegistryInfo (hostID : peer.ID) (hostAddrs : list ma.Multiaddr)
    : Z * api.Body :=
  let addrs := (λ addr, ma.String addr +:+ "/p2p/" +:+ peer_String hostID) <$> hostAddrs in
  let bootstrapAddr := bootstrapFrom hostID hostAddrs in
  let bootstrapAddr :=
    if bool_decide (bootstrapAddr = "") && (0 <? length addrs)%nat
    then default "" (head addrs)
    else bootstrapAddr in
  (http.StatusOK, api.Info (peer_String hostID) addrs bootstrapAddr).

End RestAPI.

(* ===================================================================== *)
(** * The Qdrant HTTP client *)
(* ===================================================================== *)

Module Qdrant.

(** [QdrantClient] with the field the calls write, [VectorSize]. The HTTP
    client it holds is outside the model: [Do] is what it answers. *)
Record Client := {
    BaseURL : string;
    Collection : string;
    VectorSize : Z;
  }.

Definition with_VectorSize (qc : Client) (dim : Z) : Client :=
  {| BaseURL := BaseURL qc; Collection := Collection qc; VectorSize := dim |}.

End Qdrant.

Section QdrantClient.
Context `{Libs} `{ApiLibs}.

Definition NewQdrantClient (baseURL collection : string) : Qdrant.Client :=
  {| Qdrant.BaseURL := GoLib.trimRightByte baseURL GoLib.slash;
     Qdrant.Collection := collection;
     Qdrant.VectorSize := 0 |}.

(** The client [startRegistry] builds from the flags. *)
Definition startQdrant (qdrantEnabled : bool) (qdrantURL qdrantCollection : string)
    : option Qdrant.Client :=
  if qdrantEnabled && bool_decide (qdrantURL ≠ "") && bool_decide (qdrantCollection ≠ "")
  then Some (NewQdrantClient qdrantURL qdrantCollection)
  else None.

(** The calls return the client as they leave it, their result, and the
    requests they have sent. *)

Definition ensureCollection (Do : http.Request → http.Response * error)
    (qc : option Qdrant.Client) (dim : Z)
    : option Qdrant.Client * error * list http.Request :=
  match qc with
  | None => (None, None, [])
  | Some c =>
    if bool_decide (Qdrant.VectorSize c ≠ 0) then (qc, None, [])
    else
      let body :=
        GoLib.AnyMap
          [("vectors",
            GoLib.AnyMap [("size", GoLib.AnyInt dim);
                          ("distance", GoLib.AnyString "Cosine")])] in
      let b := json_Marshal body in
      let url := Qdrant.BaseURL c +:+ "/collections/" +:+ Qdrant.Collection c in
      match http_NewRequest http.MethodPut url b with
      | Some err => (qc, Some err, [])
      | None =>
        let req := {| http.Method := http.MethodPut; http.URL := url; http.Body := b;
                      http.ContentType := "application/json" |} in
        match Do req with
        | (_, Some err) => (qc, Some err, [req])
        | (resp, None) =>
          if bool_decide (http.StatusCode resp ≠ http.StatusOK)
             && bool_decide (http.StatusCode resp ≠ http.StatusCreated)
             && bool_decide (http.StatusCode resp ≠ http.StatusConflict)
          then
            (qc,
             Some ("qdrant create collection failed: status=" +:+
                   Go.fmt_d (http.StatusCode resp) +:+ " body=" +:+
                   http.ResponseBody resp),
             [req])
          else (Some (Qdrant.with_VectorSize c dim), None, [req])
        end
      end
  end.

(** [hashToUint64]: [v] is a [uint64]. *)
Definition hashToUint64 (s : string) : Z :=
  let sum := Go.bytes (sha256_Sum256 s) in
  foldl (λ v b, Z.lor (Z.shiftl v 8 mod 2 ^ 64) b) 0 (take 8 sum).

Definition UpsertService (Do : http.Request → http.Response * error)
    (qc : option Qdrant.Client) (id : string) (vector : list spec_float)
    (payload : list (string * GoLib.Any))
    : option Qdrant.Client * error * list http.Request :=
  match qc with
  | None => (None, None, [])
  | Some _ =>
    if bool_decide (length vector = 0%nat) then (qc, None, [])
    else
      match ensureCollection Do qc (Z.of_nat (length vector)) with
      | (qc, Some err, sent) => (qc, Some err, sent)
      | (None, None, sent) => (None, None, sent)
      | (Some c, None, sent) =>
        let numID := hashToUint64 id in
        let body :=
          GoLib.AnyMap
            [("points",
              GoLib.AnySlice
                [GoLib.AnyMap [("id", GoLib.AnyInt numID);
                               ("vector", GoLib.AnySlice (GoLib.AnyFloat <$> vector));
                               ("payload", GoLib.AnyMap payload)]])] in
        let b := json_Marshal body in
        let url := Qdrant.BaseURL c +:+ "/collections/" +:+ Qdrant.Collection c +:+
                   "/points" in
        match http_NewRequest http.MethodPut url b with
        | Some err => (Some c, Some err, sent)
        | None =>
          let req := {| http.Method := http.MethodPut; http.URL := url; http.Body := b;
                        http.ContentType := "application/json" |} in
          match Do req with
          | (_, Some err) => (Some c, Some err, sent ++ [req])
          | (resp, None) =>
            if bool_decide (http.StatusCode resp ≠ http.StatusOK)
               && bool_decide (http.StatusCode resp ≠ http.StatusAccepted)
            then
              (Some c,
               Some ("qdrant upsert failed: status=" +:+
                     Go.fmt_d (http.StatusCode resp) +:+ " body=" +:+
                     http.ResponseBody resp),
               sent ++ [req])
            else (Some c, None, sent ++ [req])
          end
        end
      end
  end.

Definition Search (Do : http.Request → http.Response * error)
    (qc : option Qdrant.Client) (vector : list spec_float) (limit : Z)
    : option Qdrant.Client * (list qdrantSearchResult * error) * list http.Request :=
  match qc with
  | None => (None, ([], Some "qdrant client not configured"), [])
  | Some _ =>
    if bool_decide (length vector = 0%nat) then (qc, ([], Some "empty query vector"), [])
    else
      let limit := if limit <=? 0 then 5 else limit in
      match ensureCollection Do qc (Z.of_nat (length vector)) with
      | (qc, Some err, sent) => (qc, ([], Some err), sent)
      | (None, None, sent) => (None, ([], Some "qdrant client not configured"), sent)
      | (Some c, None, sent) =>
        let body :=
          GoLib.AnyMap [("vector", GoLib.AnySlice (GoLib.AnyFloat <$> vector));
                        ("limit", GoLib.AnyInt limit);
                        ("with_payload", GoLib.AnyBool true)] in
        let b := json_Marshal body in
        let url := Qdrant.BaseURL c +:+ "/collections/" +:+ Qdrant.Collection c +:+
                   "/points/search" in
        match http_NewRequest http.MethodPost url b with
        | Some err => (Some c, ([], Some err), sent)
        | None =>
          let req := {| http.Method := http.MethodPost; http.URL := url; http.Body := b;
                        http.ContentType := "application/json" |} in
          match Do req with
          | (_, Some err) => (Some c, ([], Some err), sent ++ [req])
          | (resp, None) =>
            if bool_decide (http.StatusCode resp ≠ http.StatusOK)
            then
              (Some c,
               ([], Some ("qdrant search failed: status=" +:+
                          Go.fmt_d (http.StatusCode resp) +:+ " body=" +:+
                          http.ResponseBody resp)),
               sent ++ [req])
            else
              match json_DecodeSearch (http.ResponseBody resp) with
              | (_, Some err) => (Some c, ([], Some err), sent ++ [req])
              | (result, None) => (Some c, (result, None), sent ++ [req])
              end
          end
        end
      end
  end.

End QdrantClient.

(** A call to the client: an upsert or a search, with what the server
    answers while the call runs. *)
Inductive QdrantCall :=
  | CallUpsert (Do : http.Request → http.Response * error) (id : string)
      (vector : list spec_float) (payload : list (string * GoLib.Any))
  | CallSearch (Do : http.Request → http.Response * error)
      (vector : list spec_float) (limit : Z).

Section QdrantCalls.
Context `{Libs} `{ApiLibs}.

Definition qdrantStep (acc : option Qdrant.Client * list http.Request)
    (call : QdrantCall) : option Qdrant.Client * list http.Request :=
  let '(qc, sent) := acc in
  match call with
  | CallUpsert Do id vector payload =>
    let '(qc, _, reqs) := UpsertService Do qc id vector payload in (qc, sent ++ reqs)
  | CallSearch Do vector limit =>
    let '(qc, _, reqs) := Search Do qc vector limit in (qc, sent ++ reqs)
  end.

(** The URL of the request that creates the collection. *)
Definition createURL (c : Qdrant.Client) : string :=
  Qdrant.BaseURL c +:+ "/collections/" +:+ Qdrant.Collection c.

Definition isCreate (c : Qdrant.Client) (req : http.Request) : bool :=
  bool_decide (http.Method req = http.MethodPut)
  && bool_decide (http.URL req = createURL c).

End QdrantCalls.

(* ===================================================================== *)
(** * The Redis adapter, command by command *)
(* ===================================================================== *)

(** A Redis server as the adapter sees it: string keys and sets, each with
    the instant at which it expires, if it does; a server that is not
    reachable answers every command with an error. A key that has expired
    is treated as absent by every command. *)
Module redis.

Record DB := {
    online : bool;
    strings : gmap string (string * option Z);
    sets : gmap string (gset string * option Z);
  }.

Definition empty : DB := {| online := true; strings := ∅; sets := ∅ |}.

Definition unreachable : string := "dial tcp: connect: connection refused".

(** [redis.Nil] *)
Definition Nil : string := "redis: nil".

Definition live {A} (now : Z) (entry : A * option Z) : bool :=
  match entry.2 with
  | Some deadline => now <? deadline
  | None => true
  end.

(** [redis.KeepTTL] *)
Definition KeepTTL : Z := -1.

Definition WrongType : string :=
  "WRONGTYPE Operation against a key holding the wrong kind of value".

(** The string key [key] holds a value at [now]; the set key [key] holds
    a set. *)
Definition isString (db : DB) (now : Z) (key : string) : bool :=
  match strings db !! key with
  | Some entry => live now entry
  | None => false
  end.

Definition isSet (db : DB) (now : Z) (key : string) : bool :=
  match sets db !! key with
  | Some entry => live now entry
  | None => false
  end.

(** The instant at which a value written by [Set] at [now] expires: a
    positive expiration is a time to live, [KeepTTL] keeps what the key
    has, anything else is no expiry. *)
Definition deadline (db : DB) (now : Z) (key : string) (ttl : Z) : option Z :=
  if 0 <? ttl then Some (now + ttl)
  else if ttl =? KeepTTL then
    match strings db !! key with
    | Some entry => if live now entry then entry.2 else None
    | None => None
    end
  else None.

Definition Ping (db : DB) : error :=
  if online db then None else Some unreachable.

Definition Set_ (db : DB) (now : Z) (key value : string) (ttl : Z) : DB * error :=
  if online db then
    ({| online := online db;
        strings := <[key := (value, deadline db now key ttl)]> (strings db);
        sets := delete key (sets db) |}, None)
  else (db, Some unreachable).

Definition Get (db : DB) (now : Z) (key : string) : string * error :=
  if online db then
    if isSet db now key then ("", Some WrongType) else
    match strings db !! key with
    | Some entry => if live now entry then (entry.1, None) else ("", Some Nil)
    | None => ("", Some Nil)
    end
  else ("", Some unreachable).

Definition Del (db : DB) (now : Z) (key : string) : DB * error :=
  if online db then
    ({| online := online db; strings := delete key (strings db);
        sets := delete key (sets db) |}, None)
  else (db, Some unreachable).

Definition SAdd (db : DB) (now : Z) (key member : string) : DB * error :=
  if online db then
    if isString db now key then (db, Some WrongType)
    else
      let entry :=
        match sets db !! key with
        | Some entry => if live now entry then entry else (∅, None)
        | None => (∅, None)
        end in
      ({| online := online db; strings := delete key (strings db);
          sets := <[key := ({[member]} ∪ entry.1, entry.2)]> (sets db) |}, None)
  else (db, Some unreachable).

Definition SRem (db : DB) (now : Z) (key member : string) : DB * error :=
  if online db then
    if isString db now key then (db, Some WrongType)
    else
      match sets db !! key with
      | Some entry =>
        if live now entry then
          let members := entry.1 ∖ {[member]} in
          ({| online := online db; strings := strings db;
              sets := if bool_decide (members = ∅) then delete key (sets db)
                      else <[key := (members, entry.2)]> (sets db) |}, None)
        else (db, None)
      | None => (db, None)
      end
  else (db, Some unreachable).

Definition Expire (db : DB) (now : Z) (key : string) (ttl : Z) : DB * error :=
  if online db then
    ({| online := online db;
        strings :=
          match strings db !! key with
          | Some entry =>
            if live now entry then <[key := (entry.1, Some (now + ttl))]> (strings db)
            else strings db
          | None => strings db
          end;
        sets :=
          match sets db !! key with
          | Some entry =>
            if live now entry then <[key := (entry.1, Some (now + ttl))]> (sets db)
            else sets db
          | None => sets db
          end |}, None)
  else (db, Some unreachable).

(** The keys a scan with the pattern [prefix*] goes through: the string
    and set keys that have not expired and start with [prefix]. *)
Definition Keys (db : DB) (now : Z) (prefix : string) : list string :=
  (filter (λ kv, live now kv.2 = true ∧ Go.HasPrefix kv.1 prefix = true)
          (map_to_list (strings db))).*1
  ++ (filter (λ kv, live now kv.2 = true ∧ Go.HasPrefix kv.1 prefix = true)
             (map_to_list (sets db))).*1.

End redis.

Section RedisAdapter.
Context `{Libs} `{ApiLibs}.

(** [NewRedisStorage]; [db] is the server at [addr]. *)
Definition NewRedisStorage (db : redis.DB) (addr : string) (ttl : Z)
    : option storage.RedisStorage * error :=
  if bool_decide (addr = "") then (None, None)
  else
    match redis.Ping db with
    | Some err =>
      (None, Some ("failed to connect to Redis at " +:+ addr +:+ ": " +:+ err))
    | None => (Some {| storage.ttl := ttl |}, None)
    end.

Definition registrationKey (pid : peer.ID) : string :=
  "registration:" +:+ peer_String pid.

Definition serviceKey (serviceName : string) : string :=
  "service:" +:+ serviceName.

Definition SaveRegistration (s : option storage.RedisStorage) (db : redis.DB) (now : Z)
    (pid : peer.ID) (record : storage.RegistrationRecord.t) : redis.DB * error :=
  match s with
  | None => (db, None)
  | Some st =>
    match json_MarshalRecord record with
    | (_, Some err) => (db, Some ("failed to marshal registration: " +:+ err))
    | (data, None) =>
      let key := registrationKey pid in
      match redis.Set_ db now key data (storage.ttl st) with
      | (db, Some err) => (db, Some ("failed to save to redis: " +:+ err))
      | (db, None) =>
        let serviceKey :=
          serviceKey (ServiceCard.Name (storage.RegistrationRecord.ServiceCard record)) in
        match redis.SAdd db now serviceKey (peer_String pid) with
        | (db, Some err) => (db, Some ("failed to add to service index: " +:+ err))
        | (db, None) =>
          let '(db, _) := redis.Expire db now serviceKey (storage.ttl st) in
          (db, None)
        end
      end
    end
  end.

Definition LoadRegistration (s : option storage.RedisStorage) (db : redis.DB) (now : Z)
    (pid : peer.ID) : option storage.RegistrationRecord.t * error :=
  match s with
  | None => (None, Some "redis not configured")
  | Some _ =>
    let key := registrationKey pid in
    match redis.Get db now key with
    | (_, Some err) => (None, Some err)
    | (data, None) =>
      match json_Unmarshal data with
      | None =>
        (None, Some ("failed to unmarshal registration: " +:+ json_UnmarshalError data))
      | Some record => (Some record, None)
      end
    end
  end.

(** The errors of the two commands are logged; the call returns [nil]. *)
Definition DeleteRegistration (s : option storage.RedisStorage) (db : redis.DB) (now : Z)
    (pid : peer.ID) (serviceName : string) : redis.DB * error :=
  match s with
  | None => (db, None)
  | Some _ =>
    let key := registrationKey pid in
    let '(db, _) := redis.Del db now key in
    let serviceKey := serviceKey serviceName in
    let '(db, _) := redis.SRem db now serviceKey (peer_String pid) in
    (db, None)
  end.

(** What the server answers during [RestoreAllRegistrations] when the
    scan yields the keys [keys]. *)
Definition redisView (db : redis.DB) (now : Z) (keys : list string) : storage.RedisView :=
  {| storage.scan_keys := if redis.online db then keys else [];
     storage.scan_err := redis.Ping db;
     storage.get := λ key,
       match redis.Get db now key with
       | (data, None) => Some data
       | (_, Some _) => None
       end |}.

Definition RestoreAllRegistrations (s : option storage.RedisStorage) (db : redis.DB)
    (now : Z) (keys : list string)
    : gmap string storage.RegistrationRecord.t * error :=
  storage_RestoreAllRegistrations s (redisView db now keys) now.

(** ** The registry and its store together

    A call the registry makes to the adapter, carried out on the server
    at the instant [now]. *)
Definition execEvent (s : option storage.RedisStorage) (now : Z) (db : redis.DB)
    (e : Event) : redis.DB :=
  match e with
  | RedisSave pid record => (SaveRegistration s db now pid record).1
  | RedisDelete pid serviceName => (DeleteRegistration s db now pid serviceName).1
  | _ => db
  end.

Definition opTime (op : Op) : Z :=
  match op with
  | Request _ now _ => now
  | Tick now => now
  end.

(** An operation of the registry, and its calls carried out on the
    server. *)
Definition stepWith (r : RegistryNode * redis.DB) (op : Op)
    : RegistryNode * redis.DB :=
  (step r.1 op, foldl (execEvent (storage_ r.1) (opTime op)) r.2 (stepTrace r.1 op)).

Definition runWith (r : RegistryNode * redis.DB) (ops : list Op)
    : RegistryNode * redis.DB :=
  foldl stepWith r ops.

(** [startRegistry], up to the restore: the storage, the node, and the
    node after [restoreStateFromRedis]. The process exits when the
    storage cannot be set up. *)
Definition startRegistry (h : host.Host) (minStake : spec_float)
    (qdrant : option QdrantClient) (db : redis.DB) (redisAddr : string) (now : Z)
    (keys : list string) : option RegistryNode :=
  match NewRedisStorage db redisAddr (120 * Go.Second) with
  | (_, Some _) => None
  | (redisStorage, None) =>
    let reg := newRegistryNode h minStake qdrant redisStorage in
    match redisStorage with
    | Some _ => Some (restoreStateFromRedis reg (redisView db now keys) now).1.1
    | None => Some reg
    end
  end.

End RedisAdapter.

(* ===================================================================== *)
(** * The agent: the methods it serves *)
(* ===================================================================== *)

Module agent.

Record Request := {
    Method : string;
    Params : list string;
    ID : Z;
  }.

Record Response := {
    Result : string;
    RespID : Z;
  }.

End agent.

Section Agent.

(** [strings.Map(unicode.ToUpper, s)], the non-ASCII path of
    [strings.ToUpper]. *)
Variable unicode_upper : string → string.

(** The loop that swaps [runes[i]] and [runes[j]] while [i < j]. *)
Fixpoint reverseLoop (fuel : nat) (i j : Z) (runes : list Z) : list Z :=
  match fuel with
  | O => runes
  | S fuel' =>
    if i <? j then
      match runes !! Z.to_nat i, runes !! Z.to_nat j with
      | Some ri, Some rj =>
        reverseLoop fuel' (i + 1) (j - 1)
          (<[Z.to_nat j := ri]> (<[Z.to_nat i := rj]> runes))
      | _, _ => runes
      end
    else runes
  end.

Definition reverse (s : string) : string :=
  let runes := Go.runes s in
  let runes := reverseLoop (length runes) 0 (Z.of_nat (length runes) - 1) runes in
  GoLib.string_of_runes runes.

(** The business logic of one request. *)
Definition agentResult (method : string) (params : list string) : string :=
  if bool_decide (method = "uppercase") then
    match params with
    | p :: _ => GoLib.ToUpper unicode_upper p
    | [] => ""
    end
  else if bool_decide (method = "reverse") then
    match params with
    | p :: _ => reverse p
    | [] => ""
    end
  else "unknown method".

Definition agentServe (req : agent.Request) : agent.Response :=
  {| agent.Result := agentResult (agent.Method req) (agent.Params req);
     agent.RespID := agent.ID req |}.

End Agent.

(** ** Definitions used to state the properties of this part *)

(** The records with the service name [name], as addresses. *)
Definition providersNamed (r : RegistryNode) (name : string) : list peer.AddrInfo.t :=
  (λ kv, RegistrationRecord.AddrInfo kv.2) <$>
  filter (λ kv : string * RegistrationRecord.t,
            ServiceCard.Name (RegistrationRecord.ServiceCard kv.2) = name)
         (map_to_list (Registrations r)).

(** The port [getRegistryInfo] takes from an address: its UDP port, or
    its TCP port when asking for the UDP port fails. *)
Definition bootstrapPort (addr : ma.Multiaddr) : string :=
  match ma.ValueForProtocol addr ma.P_UDP with
  | (port, None) => port
  | (_, Some _) => (ma.ValueForProtocol addr ma.P_TCP).1
  end.

(** An address [getRegistryInfo] can bootstrap from: an IPv4 address with
    such a port. *)
Definition bootstrapCandidate (addr : ma.Multiaddr) : Prop :=
  head (ma.Protocols addr) = Some ma.P_IP4 ∧ bootstrapPort addr ≠ "".

Section StoreSpec.
Context `{Libs} `{ApiLibs}.

(** The calls of a run, in the order they are made. *)
Fixpoint runTrace (r : RegistryNode) (ops : list Op) : list Event :=
  match ops with
  | [] => []
  | op :: ops => stepTrace r op ++ runTrace (step r op) ops
  end.

(** The server mirrors the node: it is reachable, its string keys are
    the registration keys of the peers that have a record, each holding
    a document that decodes to the record of the peer and expiring [ttl]
    after the record was last seen, and its sets are under service
    keys. *)
Definition mirrors (r : RegistryNode) (db : redis.DB) (ttl : Z) : Prop :=
  redis.online db = true
  ∧ (∀ pid record,
       Registrations r !! pid = Some record →
       ∃ data,
         redis.strings db !! registrationKey pid
         = Some (data, Some (RegistrationRecord.LastSeen record + ttl))
         ∧ json_Unmarshal data = Some (convertToStorageRecord record))
  ∧ (∀ key entry,
       redis.strings db !! key = Some entry →
       ∃ pid, key = registrationKey pid ∧ is_Some (Registrations r !! pid))
  ∧ (∀ key entry,
       redis.sets db !! key = Some entry → ∃ serviceName, key = serviceKey serviceName).

End StoreSpec.

(** An environment and a run for the properties of the store: the
    libraries of [Scenario], with JSON documents for the three records
    the run saves. *)
Module StoreScenario.

Definition recordOf (lastSeen : Z) (pid name tx : string) : storage.RegistrationRecord.t :=
  {| storage.RegistrationRecord.LastSeen := lastSeen;
     storage.RegistrationRecord.ServiceCard := Scenario.card name;
     storage.RegistrationRecord.StakeProof := Some (Scenario.proof tx 1 10);
     storage.RegistrationRecord.AddrInfo := Scenario.addrOf pid |}.

Definition libs : Libs :=
  {| unicode_lower := λ s, s;
     sha256_Sum256 := λ s, s;
     peer_String := λ p, p;
     peer_ShortString := λ p, "<peer.ID " +:+ p +:+ ">";
     peer_Decode := λ s, Some s;
     json_Unmarshal := λ data,
       if bool_decide (data = "A0") then Some (recordOf 0 "peerA" "math" "tx1")
       else if bool_decide (data = "B") then
         Some (recordOf (10 * Go.Second) "peerB" "echo" "tx2")
       else if bool_decide (data = "A1") then
         Some (recordOf (60 * Go.Second) "peerA" "math" "tx1")
       else None |}.

Definition apiLibs : ApiLibs :=
  {| strconv_Atoi := λ s,
       if bool_decide (s = "5") then (5, None)
       else if bool_decide (s = "3") then (3, None)
       else (0, Some "strconv.Atoi: invalid syntax");
     strings_TrimSpace := λ s, s;
     json_Marshal := λ _, "{}";
     http_NewRequest := λ _ _ _, None;
     json_DecodeSearch := λ _, ([], None);
     json_MarshalRecord := λ record,
       if storage.RegistrationRecord.LastSeen record =? 0 then ("A0", None)
       else if storage.RegistrationRecord.LastSeen record =? 10 * Go.Second
       then ("B", None)
       else ("A1", None);
     json_UnmarshalError := λ _, "unexpected end of JSON input" |}.

Definition storage : storage.RedisStorage := {| storage.ttl := 120 * Go.Second |}.

Definition node : RegistryNode :=
  newRegistryNode Scenario.h (Go.float64_of_Z 10) None (Some storage).

(** peerA registers at 0, peerB at 10 s, peerA sends a heartbeat at 60 s. *)
Definition ops : list Op :=
  [Request "peerA" 0
     (Scenario.register "math" (Some (Scenario.proof "tx1" 1 10))
        (Some (Scenario.addrOf "peerA")));
   Request "peerB" (10 * Go.Second)
     (Scenario.register "echo" (Some (Scenario.proof "tx2" 1 10))
        (Some (Scenario.addrOf "peerB")));
   Request "peerA" (60 * Go.Second)
     (Scenario.register "math" (Some (Scenario.proof "tx1" 1 10)) None)].

End StoreScenario.

(** The big-endian value of a sequence of bytes. *)
Definition bigEndian (l : list Z) : Z := foldl (λ v b, v * 256 + b) 0 l.

(** A rune [string(runes)] encodes as it is: a code point that is not a
    surrogate. *)
Definition validRune (r : Z) : bool :=
  (0 <=? r) && (r <=? GoLib.MaxRune)
  && negb ((GoLib.surrogateMin <=? r) && (r <=? GoLib.surrogateMax)).

(* ===================================================================== *)
(** * [float32]: adding one to an integer *)
(* ===================================================================== *)

Lemma iter_pos_Pos_iter {A} (f : A -> A) (n : positive) (x : A) :
  SpecFloat.iter_pos f n x = Pos.iter f x n.
Proof.
  revert x; induction n as [n IH|n IH|]; intros x; simpl.
  - rewrite !IH. rewrite <- !Pos.iter_swap. reflexivity.
  - rewrite !IH. reflexivity.
  - reflexivity.
Qed.

Lemma Zpos_iter_xO (p k : positive) :
  Z.pos (Pos.iter xO p k) = Z.pos p * 2 ^ Z.pos k.
Proof.
  induction k as [|k IH] using Pos.peano_ind.
  - simpl. lia.
  - rewrite Pos.iter_succ, Pos2Z.inj_xO, IH, Pos2Z.inj_succ, Z.pow_succ_r by lia. lia.
Qed.

Lemma digits2_pos_iter_xO (p k : positive) :
  digits2_pos (Pos.iter xO p k) = (digits2_pos p + k)%positive.
Proof.
  induction k as [|k IH] using Pos.peano_ind.
  - simpl. lia.
  - rewrite Pos.iter_succ. simpl. rewrite IH. lia.
Qed.

Lemma digits2_pos_size p : digits2_pos p = Pos.size p.
Proof. induction p; simpl; congruence. Qed.

Lemma digits2_pos_bounds p :
  2 ^ (Z.pos (digits2_pos p) - 1) <= Z.pos p < 2 ^ Z.pos (digits2_pos p).
Proof.
  induction p as [p IH|p IH|]; simpl digits2_pos.
  - rewrite Pos2Z.inj_succ. replace (Z.succ (Z.pos (digits2_pos p)) - 1) with (Z.succ (Z.pos (digits2_pos p) - 1)) by lia.
    rewrite !Z.pow_succ_r by lia. lia.
  - rewrite Pos2Z.inj_succ. replace (Z.succ (Z.pos (digits2_pos p)) - 1) with (Z.succ (Z.pos (digits2_pos p) - 1)) by lia.
    rewrite !Z.pow_succ_r by lia. lia.
  - simpl. lia.
Qed.

Lemma digits2_pos_unique p d :
  2 ^ (d - 1) <= Z.pos p < 2 ^ d -> Z.pos (digits2_pos p) = d.
Proof.
  intros Hd. pose proof (digits2_pos_bounds p) as Hb.
  assert (0 < d). { destruct (Z_lt_le_dec 0 d); auto. assert (d-1 < 0) by lia.
    rewrite (Z.pow_neg_r 2 (d-1)) in Hd by lia.
    destruct (Z.eq_dec d 0). subst. simpl in Hd. lia. rewrite (Z.pow_neg_r 2 d) in Hd by lia. lia. }
  destruct (Z_lt_le_dec (Z.pos (digits2_pos p)) d).
  - assert (2 ^ Z.pos (digits2_pos p) <= 2 ^ (d - 1)) by (apply Z.pow_le_mono_r; lia). lia.
  - destruct (Z_lt_le_dec d (Z.pos (digits2_pos p))); [|lia].
    assert (2 ^ d <= 2 ^ (Z.pos (digits2_pos p) - 1)) by (apply Z.pow_le_mono_r; lia). lia.
Qed.

Lemma shr_exact (p k : positive) :
  SpecFloat.iter_pos shr_1 k (Build_shr_record (Z.pos (Pos.iter xO p k)) false false)
  = Build_shr_record (Z.pos p) false false.
Proof.
  rewrite iter_pos_Pos_iter.
  induction k as [|k IH] using Pos.peano_ind.
  - reflexivity.
  - rewrite !Pos.iter_succ. rewrite <- Pos.iter_swap. simpl. exact IH.
Qed.

Lemma shr_fexp_canonical (m : positive) (e : Z) :
  Z.pos (digits2_pos m) = 24 -> -149 <= e ->
  shr_fexp 24 128 (Z.pos m) e loc_Exact
  = (Build_shr_record (Z.pos m) false false, e).
Proof.
  intros Hd He. unfold shr_fexp, Zdigits2. rewrite Hd.
  unfold fexp, emin.
  replace (Z.max (24 + e - 24) (3 - 128 - 24) - e) with 0 by lia.
  reflexivity.
Qed.

(** A mantissa of 24 digits with an exponent in range is its own rounding. *)
Lemma binary_round_aux_canonical (m : positive) (e : Z) :
  Z.pos (digits2_pos m) = 24 -> -149 <= e <= 104 ->
  binary_round_aux 24 128 false (Z.pos m) e loc_Exact = S754_finite false m e.
Proof.
  intros Hd He. unfold binary_round_aux.
  rewrite shr_fexp_canonical by (auto; lia).
  cbn [shr_m loc_of_shr_record round_nearest_even].
  rewrite shr_fexp_canonical by (auto; lia).
  cbn [shr_m].
  replace (e <=? 128 - 24) with true; [reflexivity|].
  symmetry. apply Z.leb_le. lia.
Qed.

Lemma canon24_spec p :
  Z.pos p < 2 ^ 24 ->
  Z.pos (digits2_pos (canon24 p).1) = 24 /\ -23 <= (canon24 p).2 <= 0 /\
  Z.pos (canon24 p).1 = Z.pos p * 2 ^ (- (canon24 p).2) /\
  (canon24 p).2 = Z.pos (digits2_pos p) - 24.
Proof.
  intros Hp. pose proof (digits2_pos_bounds p) as Hb.
  assert (Hd : Z.pos (digits2_pos p) <= 24).
  { destruct (Z_lt_le_dec 24 (Z.pos (digits2_pos p))); [|lia].
    assert (2 ^ 24 <= 2 ^ (Z.pos (digits2_pos p) - 1)) by (apply Z.pow_le_mono_r; lia). lia. }
  unfold canon24.
  destruct (24 - Z.pos (digits2_pos p)) as [|k|k] eqn:Hk; cbn [fst snd]; [| |lia].
  - change (2 ^ (- 0)) with 1. repeat split; lia.
  - rewrite digits2_pos_iter_xO, Zpos_iter_xO. rewrite Z.opp_involutive.
    repeat split; lia.
Qed.

Lemma binary_round_int (p : positive) :
  Z.pos p < 2 ^ 24 ->
  binary_round 24 128 false p 0 = S754_finite false (canon24 p).1 (canon24 p).2.
Proof.
  intros Hp. destruct (canon24_spec p Hp) as (Hd & He & Hm & Hx).
  pose proof (digits2_pos_bounds p) as Hb.
  unfold binary_round, shl_align, fexp, emin.
  replace (Z.max (Z.pos (digits2_pos p) + 0 - 24) (3 - 128 - 24) - 0)
    with (- (24 - Z.pos (digits2_pos p))) by lia.
  revert Hd He Hm Hx. unfold canon24.
  destruct (24 - Z.pos (digits2_pos p)) as [|k|k] eqn:Hk; cbn [fst snd Z.opp]; intros Hd He Hm Hx.
  - apply binary_round_aux_canonical; [auto|lia].
  - replace (Z.max (Z.pos (digits2_pos p) + 0 - 24) (3 - 128 - 24)) with (Z.neg k) by lia.
    apply binary_round_aux_canonical; [auto|lia].
  - lia.
Qed.

Lemma binary_round_aux_exact (mx : positive) (ex : Z) (m' : positive) (e' : Z) :
  shr_fexp 24 128 (Z.pos mx) ex loc_Exact
    = (Build_shr_record (Z.pos m') false false, e') ->
  Z.pos (digits2_pos m') = 24 -> -149 <= e' <= 104 ->
  binary_round_aux 24 128 false (Z.pos mx) ex loc_Exact = S754_finite false m' e'.
Proof.
  intros Hs Hd He. unfold binary_round_aux. rewrite Hs.
  cbn [shr_m loc_of_shr_record round_nearest_even].
  rewrite shr_fexp_canonical by (auto; lia).
  cbn [shr_m].
  replace (e' <=? 128 - 24) with true; [reflexivity|].
  symmetry. apply Z.leb_le. lia.
Qed.

Lemma shl_align_fst (m : positive) (e e' : Z) :
  e' <= e -> Z.pos (shl_align m e e').1 = Z.pos m * 2 ^ (e - e').
Proof.
  intros He. unfold shl_align.
  destruct (e' - e) as [|d|d] eqn:Hd; cbn [fst].
  - replace (e - e') with 0 by lia. lia.
  - lia.
  - rewrite Zpos_iter_xO. f_equal. f_equal. lia.
Qed.

Lemma binary_round_shifted (q : positive) :
  Z.pos q < 2 ^ 24 ->
  binary_round 24 128 false (Pos.iter xO q 23) (-23)
  = S754_finite false (canon24 q).1 (canon24 q).2.
Proof.
  intros Hq. destruct (canon24_spec q Hq) as (Hd & He & Hm & Hx).
  pose proof (digits2_pos_bounds q) as Hb.
  assert (Hdq : 1 <= Z.pos (digits2_pos q) <= 24) by lia.
  unfold binary_round. rewrite digits2_pos_iter_xO.
  unfold shl_align, fexp, emin.
  replace (Z.max (Z.pos (digits2_pos q + 23) + -23 - 24) (3 - 128 - 24) - -23)
    with (Z.pos (digits2_pos q) - 1) by lia.
  assert (Hal : (match Z.pos (digits2_pos q) - 1 with
                 | Z.neg d => (Pos.iter xO (Pos.iter xO q 23) d,
                               Z.max (Z.pos (digits2_pos q + 23) + -23 - 24) (3 - 128 - 24))
                 | _ => (Pos.iter xO q 23, -23)
                 end) = (Pos.iter xO q 23, -23)).
  { destruct (Z.pos (digits2_pos q) - 1) eqn:E; try reflexivity. lia. }
  rewrite Hal. clear Hal.
  apply binary_round_aux_exact; [|exact Hd|lia].
  unfold shr_fexp, Zdigits2. rewrite digits2_pos_iter_xO.
  unfold fexp, emin, shr. cbn [shr_record_of_loc].
  replace (Z.max (Z.pos (digits2_pos q + 23) + -23 - 24) (3 - 128 - 24) - -23)
    with (Z.pos (digits2_pos q) - 1) by lia.
  destruct (Z.pos (digits2_pos q) - 1) as [|k|k] eqn:Hk; [| |lia].
  - (* one digit: q = 1 *)
    f_equal; [|lia]. f_equal. apply Pos2Z.inj_iff.
    apply Pos2Z.inj. rewrite Hm, Zpos_iter_xO. f_equal. f_equal. lia.
  - f_equal; [|lia].
    assert (Hsplit : Pos.iter xO q 23 = Pos.iter xO (canon24 q).1 k).
    { apply Pos2Z.inj. rewrite !Zpos_iter_xO, Hm.
      rewrite <- Z.mul_assoc, <- Z.pow_add_r by lia. f_equal. f_equal. lia. }
    rewrite Hsplit. apply shr_exact.
Qed.

Lemma SFadd_int_one (p : positive) :
  Z.pos p + 1 < 2 ^ 24 ->
  SFadd 24 128 (S754_finite false (canon24 p).1 (canon24 p).2) Go.float32_one
  = S754_finite false (canon24 (p + 1)%positive).1 (canon24 (p + 1)%positive).2.
Proof.
  intros Hp. assert (Hp' : Z.pos p < 2 ^ 24) by lia.
  destruct (canon24_spec p Hp') as (Hd & He & Hm & Hx).
  unfold Go.float32_one, SFadd.
  replace (Z.min (canon24 p).2 (-23)) with (-23) by lia.
  cbn [cond_Zopp].
  assert (Hsum : Z.pos (shl_align (canon24 p).1 (canon24 p).2 (-23)).1
                 + Z.pos (shl_align 8388608 (-23) (-23)).1
                 = Z.pos (Pos.iter xO (p + 1)%positive 23)).
  { rewrite shl_align_fst by lia. rewrite Hm.
    rewrite <- Z.mul_assoc, <- Z.pow_add_r by lia.
    replace (- (canon24 p).2 + ((canon24 p).2 - -23)) with 23 by lia.
    rewrite Zpos_iter_xO. cbn [shl_align Z.sub Z.add Z.opp Z.pos_sub fst].
    simpl (shl_align _ _ _).1. lia. }
  rewrite Hsum. cbn [binary_normalize].
  apply binary_round_shifted. lia.
Qed.

Lemma float32_of_Z_canon (p : positive) :
  Z.pos p < 2 ^ 24 ->
  Go.float32_of_Z (Z.pos p) = S754_finite false (canon24 p).1 (canon24 p).2.
Proof. apply binary_round_int. Qed.

Lemma float32_add_one (n : Z) :
  0 <= n < 2 ^ 24 ->
  Go.float32_add (Go.float32_of_Z n) Go.float32_one = Go.float32_of_Z (n + 1).
Proof.
  intros Hn. destruct n as [|p|p]; [reflexivity| |lia].
  destruct (Z_lt_le_dec (Z.pos p + 1) (2 ^ 24)) as [Hlt|Hge].
  - replace (Z.pos p + 1) with (Z.pos (p + 1)) by lia.
    rewrite !float32_of_Z_canon by lia.
    apply SFadd_int_one. exact Hlt.
  - assert (Hp : Z.pos p = 16777215) by lia.
    injection Hp as ->. vm_compute. reflexivity.
Qed.

Lemma float32_add_one_top :
  Go.float32_add (Go.float32_of_Z (2 ^ 24)) Go.float32_one = Go.float32_of_Z (2 ^ 24).
Proof. vm_compute. reflexivity. Qed.

(** Adding [1.0] to a [float32] zero [k] times counts up to [2^24] and
    stays there. *)
Lemma float32_count (k : nat) :
  Nat.iter k (λ v, Go.float32_add v Go.float32_one) Go.float32_zero
  = Go.float32_of_Z (Z.min (Z.of_nat k) (2 ^ 24)).
Proof.
  induction k as [|k IH]; [reflexivity|].
  rewrite Nat.iter_succ, IH.
  destruct (Z_lt_le_dec (Z.of_nat k) (2 ^ 24)) as [Hlt|Hge].
  - rewrite Z.min_l by lia. rewrite float32_add_one by lia.
    f_equal. lia.
  - rewrite !Z.min_r by lia. apply float32_add_one_top.
Qed.

Lemma float_int_value_of_Z (n : Z) :
  0 <= n <= 2 ^ 24 -> Go.float_int_value (Go.float32_of_Z n) = Some n.
Proof.
  intros Hn. destruct n as [|p|p]; [reflexivity| |lia].
  destruct (Z_lt_le_dec (Z.pos p) (2 ^ 24)) as [Hlt|Hge].
  - rewrite float32_of_Z_canon by exact Hlt.
    destruct (canon24_spec p Hlt) as (Hd & He & Hm & Hx).
    unfold Go.float_int_value. rewrite Hm.
    destruct (Z.leb_spec 0 (canon24 p).2) as [H0|H0].
    + replace (canon24 p).2 with 0 by lia. change (2 ^ (- 0)) with 1.
      change (2 ^ 0) with 1. f_equal; lia.
    + rewrite Z.mod_mul by lia. rewrite Z.eqb_refl.
      rewrite Z.div_mul by lia. f_equal; lia.
  - assert (Hp : Z.pos p = 16777216) by lia.
    injection Hp as ->. vm_compute. reflexivity.
Qed.

(* ===================================================================== *)
(** * The embedding *)
(* ===================================================================== *)

Section Embedding.
Context `{Libs}.

(** The index [embedRune] computes is the residue of the rune modulo the
    dimension. *)
Lemma rune_index (r : Z) :
  (let idx := Z.rem r 64 in if idx <? 0 then idx + 64 else idx) = r mod 64.
Proof.
  cbv zeta. pose proof (Z.quot_rem' r 64) as Hqr.
  pose proof (Z.rem_bound_abs r 64 ltac:(lia)) as Hb.
  destruct (Z.ltb_spec (Z.rem r 64) 0) as [Hneg|Hpos].
  - apply (Z.mod_unique r 64 (r ÷ 64 - 1)); [left; lia|lia].
  - apply (Z.mod_unique r 64 (r ÷ 64)); [left; lia|lia].
Qed.

Lemma embedRune_lookup (vec : list spec_float) (r : Z) (i : nat) :
  embedRune 64 vec r !! i =
  if bool_decide (r mod 64 = Z.of_nat i)
  then (λ v, Go.float32_add v Go.float32_one) <$> vec !! i
  else vec !! i.
Proof.
  unfold embedRune. rewrite rune_index.
  pose proof (Z.mod_pos_bound r 64 ltac:(lia)) as Hb.
  case_bool_decide as Hi.
  - replace (Z.to_nat (r mod 64)) with i by lia. apply list_lookup_alter_eq.
  - apply list_lookup_alter_ne. lia.
Qed.

Lemma foldl_embedRune_lookup (rs : list Z) (vec : list spec_float) (i : nat) :
  foldl (embedRune 64) vec rs !! i =
  Nat.iter (length (filter (λ c, c mod 64 = Z.of_nat i) rs))
           (λ v, Go.float32_add v Go.float32_one) <$> vec !! i.
Proof.
  revert vec. induction rs as [|r rs IH]; intros vec.
  - cbn. by destruct (vec !! i).
  - cbn [foldl]. rewrite IH, embedRune_lookup, filter_cons.
    case_bool_decide as Hi.
    + rewrite decide_True by done. cbn [length].
      destruct (vec !! i) as [v|]; [|done].
      cbn [fmap option_fmap option_map]. f_equal.
      rewrite Nat.iter_succ.
      exact (Nat.iter_swap _ _ (λ v, Go.float32_add v Go.float32_one) v).
    + rewrite decide_False by done. done.
Qed.

Lemma foldl_embedRune_length (rs : list Z) (vec : list spec_float) :
  length (foldl (embedRune 64) vec rs) = length vec.
Proof.
  revert vec. induction rs as [|r rs IH]; intros vec; [done|].
  cbn [foldl]. rewrite IH. unfold embedRune. apply length_alter.
Qed.

Lemma simpleTextEmbedding_lookup (text : string) (i : nat) :
  (i < 64)%nat →
  simpleTextEmbedding text 64 !! i
  = Some (Go.float32_of_Z (Z.min (bucketCount i (Go.runes text)) (2 ^ 24))).
Proof.
  intros Hi. unfold simpleTextEmbedding, defaultEmbeddingDim.
  change (if 64 <=? 0 then 64 else 64) with 64.
  rewrite foldl_embedRune_lookup.
  rewrite lookup_replicate_2 by (change (Z.to_nat 64) with 64%nat; lia).
  cbn [fmap option_fmap option_map]. f_equal. apply float32_count.
Qed.

(** Texts of plain ASCII without upper-case letters. *)
Lemma bytes_app (a b : string) : Go.bytes (a +:+ b) = Go.bytes a ++ Go.bytes b.
Proof.
  induction a as [|c a IH]; [done|].
  change (String c a +:+ b) with (String c (a +:+ b)).
  cbn [Go.bytes app]. by rewrite IH.
Qed.

Lemma bytes_Repeat_a (n : nat) : Go.bytes (Repeat "a" n) = replicate n 97.
Proof.
  induction n as [|n IH]; [done|].
  change (Go.bytes (Repeat "a" (S n))) with (97 :: Go.bytes (Repeat "a" n)).
  rewrite IH. reflexivity.
Qed.

Lemma runes_ascii (l : list Z) :
  Forall (λ c, c < 128) l → Go.runes_from 0 l = l.
Proof.
  induction 1 as [|c l Hc Hl IH]; [done|].
  cbn [Go.runes_from Go.DecodeRune].
  rewrite (proj2 (Z.ltb_lt c 128) Hc). cbn [Nat.sub]. by rewrite IH.
Qed.

Lemma ToLower_lower (s : string) :
  Forall (λ c, c < 65 ∨ 90 < c < 128) (Go.bytes s) → ToLower s = s.
Proof.
  intros Hs. unfold ToLower, Go.ToLower, Go.isASCII, Go.hasUpper.
  assert (Hall : forallb (λ c, c <? 128) (Go.bytes s) = true).
  { induction Hs as [|c l Hc Hl IH]; [done|]. cbn [forallb]. rewrite IH.
    rewrite (proj2 (Z.ltb_lt c 128)) by lia. done. }
  assert (Hex : existsb Go.isUpperByte (Go.bytes s) = false).
  { clear Hall. induction Hs as [|c l Hc Hl IH]; [done|]. cbn [existsb]. rewrite IH.
    unfold Go.isUpperByte.
    destruct (Z.leb_spec 65 c); destruct (Z.leb_spec c 90); cbn; try done; lia. }
  by rewrite Hall, Hex.
Qed.

(** The text of [n] letters [a] followed by [tail], for a short plain
    [tail] without the letter [a]. *)
Lemma runes_Repeat_a (n : nat) (tail : string) :
  Forall (λ c, c < 65) (Go.bytes tail) →
  ToLower (Repeat "a" n +:+ tail) = Repeat "a" n +:+ tail
  ∧ Go.runes (Repeat "a" n +:+ tail) = replicate n 97 ++ Go.bytes tail
  ∧ bucketCount 33 (Go.runes (Repeat "a" n +:+ tail))
    = Z.of_nat n + bucketCount 33 (Go.bytes tail).
Proof.
  intros Htail.
  assert (Hb : Go.bytes (Repeat "a" n +:+ tail) = replicate n 97 ++ Go.bytes tail)
    by (by rewrite bytes_app, bytes_Repeat_a).
  assert (Hr : Go.runes (Repeat "a" n +:+ tail) = replicate n 97 ++ Go.bytes tail).
  { unfold Go.runes. rewrite Hb. apply runes_ascii. apply Forall_app. split.
    - apply Forall_replicate. lia.
    - eapply Forall_impl; [exact Htail|]. intros c Hc. cbn in Hc. lia. }
  split; [|split; [exact Hr|]].
  - apply ToLower_lower. rewrite Hb. apply Forall_app. split.
    + apply Forall_replicate. lia.
    + eapply Forall_impl; [exact Htail|]. intros c Hc. cbn in Hc. lia.
  - rewrite Hr. unfold bucketCount. rewrite filter_app, length_app, Nat2Z.inj_add.
    f_equal. f_equal. clear.
    induction n as [|n IH]; [done|].
    cbn [replicate]. rewrite filter_cons, decide_True by done.
    cbn [length]. by rewrite IH.
Qed.

End Embedding.

(** C8 (as amended). For every text [t], the vector embedded for [t] has
    64 components, and its component [i] is the [float32] that holds the
    number of code points [c] of the lowered text with [c mod 64 = i] —
    as long as that number is at most [2^24 = 16777216]; a larger count
    leaves the component at [16777216], where adding [1.0] to a [float32]
    no longer changes it. The registration path embeds the text made of
    the name, the description and the space-joined tags of the card, the
    query path embeds the query, both with the same function of the
    lowered text: equal lowered texts give the very same vector. *)
Theorem embedding_counts_code_points `{Libs} (t : string) (i : nat) :
  (i < 64)%nat →
  let n := bucketCount i (Go.runes (ToLower t)) in
  length (queryEmbedding t) = 64%nat
  ∧ queryEmbedding t !! i = Some (Go.float32_of_Z (Z.min n (2 ^ 24)))
  ∧ (n ≤ 2 ^ 24 →
       ∃ v, queryEmbedding t !! i = Some v ∧ Go.float_int_value v = Some n)
  ∧ (∀ card, buildServiceEmbedding card = queryEmbedding (cardText card))
  ∧ (∀ card,
       cardText card =
       match ServiceCard.Tags card with
       | [] => ServiceCard.Name card +:+ " " +:+ ServiceCard.Description card
       | _ => ServiceCard.Name card +:+ " " +:+ ServiceCard.Description card
              +:+ " " +:+ Go.Join (ServiceCard.Tags card) " "
       end)
  ∧ (∀ card q, ToLower (cardText card) = ToLower q →
       buildServiceEmbedding card = queryEmbedding q).
Proof.
  intros Hi n.
  assert (Hn : 0 ≤ n) by (unfold n, bucketCount; lia).
  assert (Hlook : queryEmbedding t !! i = Some (Go.float32_of_Z (Z.min n (2 ^ 24)))).
  { unfold queryEmbedding, defaultEmbeddingDim. by apply simpleTextEmbedding_lookup. }
  split; [|split; [exact Hlook|split; [|split; [|split]]]].
  - unfold queryEmbedding, simpleTextEmbedding, defaultEmbeddingDim.
    rewrite foldl_embedRune_length. by rewrite length_replicate.
  - intros Hle. eexists. split; [exact Hlook|].
    rewrite Z.min_l by lia. apply float_int_value_of_Z. lia.
  - reflexivity.
  - intros card. unfold cardText. by destruct (ServiceCard.Tags card).
  - intros card q Heq. unfold buildServiceEmbedding, queryEmbedding. by rewrite Heq.
Qed.

Lemma embedding_counts_code_points_witness :
  let t := "Banana" in
  (33 < 64)%nat
  ∧ bucketCount 33 (Go.runes (@ToLower Scenario.libs t)) = 3
  ∧ ∃ v, @queryEmbedding Scenario.libs t !! 33%nat = Some v
         ∧ Go.float_int_value v = Some 3.
Proof.
  intros t.
  assert (Hi : (33 < 64)%nat) by lia.
  assert (Hn : bucketCount 33 (Go.runes (@ToLower Scenario.libs t)) = 3)
    by (vm_compute; reflexivity).
  split; [exact Hi|split; [exact Hn|]].
  destruct (@embedding_counts_code_points Scenario.libs t 33%nat Hi)
    as (_ & _ & Hval & _).
  rewrite Hn in Hval. apply Hval. vm_compute. discriminate.
Defined.

(** C8 as stated fails on a text of [2^24 + 1] letters [a], and on the
    card whose name is that text: the count for bucket [33 = 97 mod 64]
    is [16777217], the component holds [16777216]. *)
Lemma embedding_float32_saturates :
  let t := Repeat "a" (Z.to_nat 16777217) in
  let card := {| ServiceCard.Name := t; ServiceCard.Description := "";
                 ServiceCard.Inputs := []; ServiceCard.CostPerOp := S754_zero false;
                 ServiceCard.Version := ""; ServiceCard.Tags := [];
                 ServiceCard.Embedding := [] |} in
  bucketCount 33 (Go.runes (@ToLower Scenario.libs t)) = 16777217
  ∧ (¬ ∃ v, @queryEmbedding Scenario.libs t !! 33%nat = Some v
            ∧ Go.float_int_value v
              = Some (bucketCount 33 (Go.runes (@ToLower Scenario.libs t))))
  ∧ bucketCount 33 (Go.runes (@ToLower Scenario.libs (cardText card))) = 16777217
  ∧ (¬ ∃ v, @buildServiceEmbedding Scenario.libs card !! 33%nat = Some v
            ∧ Go.float_int_value v
              = Some (bucketCount 33 (Go.runes (@ToLower Scenario.libs (cardText card))))).
Proof.
  intros t card. unfold card, t. clear card t.
  assert (Hlen : ∃ n : nat, Z.to_nat 16777217 = n ∧ Z.of_nat n = 16777217).
  { eexists. split; [reflexivity|]. apply Z2Nat.id. lia. }
  destruct Hlen as (n & -> & Hn).
  assert (Hsat : ∀ text,
            bucketCount 33 (Go.runes (@ToLower Scenario.libs text)) = 16777217 →
            ¬ ∃ v, @simpleTextEmbedding (@ToLower Scenario.libs text) 64 !! 33%nat = Some v
                   ∧ Go.float_int_value v
                     = Some (bucketCount 33 (Go.runes (@ToLower Scenario.libs text)))).
  { intros text Hcount (v & Hv & Hval).
    rewrite (simpleTextEmbedding_lookup (@ToLower Scenario.libs text) 33) in Hv by lia.
    rewrite Hcount in Hv, Hval.
    change (Z.min 16777217 (2 ^ 24)) with 16777216 in Hv.
    assert (Hv' : v = Go.float32_of_Z 16777216) by congruence.
    rewrite Hv', (float_int_value_of_Z 16777216) in Hval by lia.
    discriminate. }
  assert (Hplain : ∀ tail, Forall (λ c, c < 65) (Go.bytes tail) →
            bucketCount 33 (Go.bytes tail) = 0 →
            bucketCount 33 (Go.runes (@ToLower Scenario.libs (Repeat "a" n +:+ tail)))
            = 16777217).
  { intros tail Htail H0.
    destruct (@runes_Repeat_a Scenario.libs n tail Htail) as (-> & _ & ->). lia. }
  assert (Ht : Repeat "a" n = Repeat "a" n +:+ "").
  { clear. induction n as [|n IH]; [done|].
    change (Repeat "a" (S n)) with (String.append "a" (Repeat "a" n)).
    rewrite IH at 1. reflexivity. }
  assert (Hc1 : bucketCount 33 (Go.runes (@ToLower Scenario.libs (Repeat "a" n)))
                = 16777217).
  { rewrite Ht. apply Hplain; [apply Forall_nil_2|reflexivity]. }
  assert (Hc2 : bucketCount 33
                  (Go.runes (@ToLower Scenario.libs (Repeat "a" n +:+ " " +:+ "")))
                = 16777217).
  { apply Hplain; [|reflexivity].
    apply Forall_cons. split; [reflexivity|apply Forall_nil_2]. }
  split; [exact Hc1|]. split; [exact (Hsat _ Hc1)|].
  split; [exact Hc2|]. exact (Hsat _ Hc2).
Qed.

(* ===================================================================== *)
(** * The stake verifier *)
(* ===================================================================== *)

(** C3. For every stake proof, peer and minimum stake, [checkStakeValidity]
    returns the outcome of the first step that applies of: proof absent —
    StakeMissing; amount below the minimum — StakeTooLow, with both
    numbers printed with two decimals (amount 5.0 against a minimum of
    10.0 gives exactly "stake too low: have 5.00 need 10.00"); staker
    non-empty and different from the peer's string — StakerMismatch; no
    public key for the peer — PubkeyMissing; otherwise SignatureInvalid
    or OK as the signature fails or passes verification against the
    SHA-256 digest of "tx_hash|amount|nonce|timestamp|chain_id", the
    amount printed with six decimals. *)
Theorem checkStakeValidity_first_failure `{Libs} (r : RegistryNode)
    (remote : peer.ID) (sp : option StakeProof.t) :
  outcomeOf (checkStakeValidity r remote sp)
  = Some (verifyStake_spec sp (peer_String remote) (minStake r)
            (host.Peerstore_PubKey (Host r) remote) verified)
  ∧ (∀ p, sp = Some p →
       Go.float64_lt (StakeProof.Amount p) (minStake r) = true →
       checkStakeValidity r remote sp
       = Some ("stake too low: have " +:+ Go.fmt_f 2 (StakeProof.Amount p)
               +:+ " need " +:+ Go.fmt_f 2 (minStake r)))
  ∧ (∀ p, sp = Some p →
       StakeProof.Amount p = Go.float64_of_Z 5 →
       minStake r = Go.float64_of_Z 10 →
       checkStakeValidity r remote sp = Some "stake too low: have 5.00 need 10.00")
  ∧ (∀ p, sp = Some p →
       checkStakeValidity r remote sp = None →
       ∃ pk, host.Peerstore_PubKey (Host r) remote = Some pk
             ∧ crypto.Verify pk
                 (sha256_Sum256
                    (StakeProof.TxHash p +:+ "|" +:+ Go.fmt_f 6 (StakeProof.Amount p)
                     +:+ "|" +:+ pretty (StakeProof.Nonce p)
                     +:+ "|" +:+ pretty (StakeProof.Timestamp p)
                     +:+ "|" +:+ StakeProof.ChainID p))
                 (StakeProof.Signature p) = (true, None)).
Proof.
  split; [|split; [|split]].
  - destruct sp as [p|]; [|reflexivity].
    unfold checkStakeValidity, verifyStake_spec.
    destruct (Go.float64_lt (StakeProof.Amount p) (minStake r)); [reflexivity|].
    destruct (decide (StakeProof.Staker p ≠ "")) as [Hs|Hs];
      destruct (decide (StakeProof.Staker p ≠ peer_String remote)) as [Hp|Hp].
    all: rewrite ?(bool_decide_eq_true_2 _ Hs), ?(bool_decide_eq_false_2 _ Hs),
           ?(bool_decide_eq_true_2 _ Hp), ?(bool_decide_eq_false_2 _ Hp).
    all: cbn [andb].
    1: { rewrite bool_decide_eq_true_2 by done. reflexivity. }
    all: rewrite bool_decide_eq_false_2 by tauto.
    all: destruct (host.Peerstore_PubKey (Host r) remote) as [pk|]; [|reflexivity].
    all: unfold verified, stakePayload, Go.fmt_d.
    all: destruct (crypto.Verify pk _ _) as [[|] [err|]]; reflexivity.
  - intros p -> Hlt. unfold checkStakeValidity. by rewrite Hlt.
  - intros p -> Ha Hm. unfold checkStakeValidity. rewrite Ha, Hm. reflexivity.
  - intros p -> Hok. unfold checkStakeValidity in Hok.
    destruct (Go.float64_lt _ _); [done|].
    destruct (_ && _); [done|].
    destruct (host.Peerstore_PubKey (Host r) remote) as [pk|]; [|done].
    exists pk. split; [done|].
    unfold stakePayload, Go.fmt_d in Hok.
    destruct (crypto.Verify pk _ _) as [[|] [err|]]; done.
Qed.

Lemma checkStakeValidity_first_failure_witness :
  let r := Scenario.empty in
  let low := Scenario.proof "tx1" 1 5 in
  let good := Scenario.proof "tx1" 1 10 in
  Go.float64_lt (StakeProof.Amount low) (minStake r) = true
  ∧ @checkStakeValidity Scenario.libs r "peerA" (Some low)
    = Some "stake too low: have 5.00 need 10.00"
  ∧ @checkStakeValidity Scenario.libs r "peerA" (Some good) = None
  ∧ ∃ pk, host.Peerstore_PubKey (Host r) "peerA" = Some pk
          ∧ crypto.Verify pk "tx1|10.000000|1|1700000000|prxs"
              (StakeProof.Signature good) = (true, None).
Proof.
  intros r low good.
  destruct (@checkStakeValidity_first_failure Scenario.libs r "peerA" (Some low))
    as (_ & Hmsg & Hlit & _).
  destruct (@checkStakeValidity_first_failure Scenario.libs r "peerA" (Some good))
    as (_ & _ & _ & Hsig).
  assert (Hlow : Go.float64_lt (StakeProof.Amount low) (minStake r) = true)
    by (vm_compute; reflexivity).
  assert (Hgood : @checkStakeValidity Scenario.libs r "peerA" (Some good) = None)
    by (vm_compute; reflexivity).
  split; [exact Hlow|]. split; [|split; [exact Hgood|]].
  - pose proof (Hmsg low eq_refl Hlow) as Hm.
    exact (Hlit low eq_refl eq_refl eq_refl).
  - exact (Hsig good eq_refl Hgood).
Defined.

(* ===================================================================== *)
(** * The register request *)
(* ===================================================================== *)

Section Register.
Context `{Libs}.

Lemma handleStream_register (r : RegistryNode) (remotePeer : peer.ID) (now : Z)
    (req : RegistryRequest.t) :
  RegistryRequest.Method req = "register" →
  handleStream r remotePeer now req
  = let '(r', resp, tr) :=
      if isHeartbeat (Registrations r !! remotePeer) req
      then handleHeartbeat r remotePeer now req
      else handleNewRegistration r remotePeer now req (Registrations r !! remotePeer) in
    (r', resp, [MuLock; MuUnlock] ++ tr).
Proof. intros Hm. unfold handleStream. by rewrite bool_decide_eq_true_2. Qed.

Lemma isHeartbeat_true (existing : option RegistrationRecord.t)
    (req : RegistryRequest.t) :
  isHeartbeat existing req = true ↔
  ∃ record eproof rproof,
    existing = Some record
    ∧ RegistrationRecord.StakeProof record = Some eproof
    ∧ RegistryRequest.StakeProof req = Some rproof
    ∧ StakeProof.TxHash eproof = StakeProof.TxHash rproof.
Proof.
  unfold isHeartbeat. split.
  - destruct existing as [record|]; [|done].
    destruct (RegistrationRecord.StakeProof record) as [eproof|] eqn:He; [|done].
    destruct (RegistryRequest.StakeProof req) as [rproof|] eqn:Hr; [|done].
    intros Ht%bool_decide_eq_true. by exists record, eproof, rproof.
  - intros (record & eproof & rproof & -> & -> & -> & Ht).
    by apply bool_decide_eq_true.
Qed.

(** C4. A register request from a peer that has a record, carrying a
    stake proof with the transaction hash of the stored one, is served as
    a heartbeat: the response is success, the record of the peer gets
    [now] as its last-seen time and the address of the request if it
    carries one, and nothing else changes: not the card, not the stake
    proof of the record, no other record, not the index nor the replay
    set. The refreshed record is mirrored to the durable store when one
    is configured. *)
Theorem heartbeat_refreshes_last_seen (r : RegistryNode) (remotePeer : peer.ID)
    (now : Z) (req : RegistryRequest.t) (existing : RegistrationRecord.t)
    (eproof rproof : StakeProof.t) :
  RegistryRequest.Method req = "register" →
  Registrations r !! remotePeer = Some existing →
  RegistrationRecord.StakeProof existing = Some eproof →
  RegistryRequest.StakeProof req = Some rproof →
  StakeProof.TxHash rproof = StakeProof.TxHash eproof →
  ∃ r' record',
    handleStream r remotePeer now req
    = (r', {| RegistryResponse.Success := true; RegistryResponse.Providers := [];
              RegistryResponse.Error := "" |},
       [MuLock; MuUnlock; MuLock]
       ++ storage_SaveRegistration (storage_ r) remotePeer (convertToStorageRecord record')
       ++ [MuUnlock])
    ∧ Registrations r' !! remotePeer = Some record'
    ∧ RegistrationRecord.LastSeen record' = now
    ∧ RegistrationRecord.AddrInfo record'
      = match RegistryRequest.ProviderInfo req with
        | Some info => info
        | None => RegistrationRecord.AddrInfo existing
        end
    ∧ RegistrationRecord.ServiceCard record' = RegistrationRecord.ServiceCard existing
    ∧ RegistrationRecord.StakeProof record' = RegistrationRecord.StakeProof existing
    ∧ (∀ pid, pid ≠ remotePeer → Registrations r' !! pid = Registrations r !! pid)
    ∧ ServiceIndex r' = ServiceIndex r
    ∧ seenStakeNonces r' = seenStakeNonces r
    ∧ Host r' = Host r ∧ minStake r' = minStake r
    ∧ qdrant r' = qdrant r ∧ storage_ r' = storage_ r.
Proof.
  intros Hm Hex He Hr Ht.
  rewrite handleStream_register by done.
  assert (Hhb : isHeartbeat (Registrations r !! remotePeer) req = true).
  { apply isHeartbeat_true. by exists existing, eproof, rproof. }
  rewrite Hhb. unfold handleHeartbeat. rewrite Hex.
  eexists _, _. split; [reflexivity|].
  cbn [Registrations with_Registrations ServiceIndex seenStakeNonces Host minStake
       qdrant storage_ RegistrationRecord.LastSeen RegistrationRecord.AddrInfo
       RegistrationRecord.ServiceCard RegistrationRecord.StakeProof].
  rewrite lookup_insert_eq.
  repeat split; try done.
  intros pid Hne. by rewrite lookup_insert_ne.
Qed.

End Register.

Lemma heartbeat_refreshes_last_seen_witness :
  let r := (@handleStream Scenario.libs Scenario.emptyStored "peerA" 0
              (Scenario.register "math" (Some (Scenario.proof "tx1" 1 10))
                 (Some (Scenario.addrOf "peerA")))).1.1 in
  let req := Scenario.register "math2" (Some (Scenario.proof "tx1" 1 10)) None in
  ∃ r' record',
    (@handleStream Scenario.libs r "peerA" 30 req).1.2
    = {| RegistryResponse.Success := true; RegistryResponse.Providers := [];
         RegistryResponse.Error := "" |}
    ∧ (@handleStream Scenario.libs r "peerA" 30 req).1.1 = r'
    ∧ Registrations r' !! "peerA" = Some record'
    ∧ RegistrationRecord.LastSeen record' = 30
    ∧ ServiceCard.Name (RegistrationRecord.ServiceCard record') = "math"
    ∧ ServiceIndex r' = ServiceIndex r.
Proof.
  intros r req.
  destruct (@heartbeat_refreshes_last_seen Scenario.libs r "peerA" 30 req
              {| RegistrationRecord.LastSeen := 0;
                 RegistrationRecord.ServiceCard := Scenario.card "math";
                 RegistrationRecord.StakeProof := Some (Scenario.proof "tx1" 1 10);
                 RegistrationRecord.AddrInfo := Scenario.addrOf "peerA" |}
              (Scenario.proof "tx1" 1 10) (Scenario.proof "tx1" 1 10)
              eq_refl ltac:(vm_compute; reflexivity) eq_refl eq_refl eq_refl)
    as (r' & record' & Hrun & Hlook & Hseen & _ & Hcard & _ & _ & Hidx & _).
  exists r', record'. rewrite Hrun. cbn [fst snd].
  rewrite Hcard. repeat split; done.
Defined.

(* ===================================================================== *)
(** * What an operation leaves alone *)
(* ===================================================================== *)

Section Frame.
Context `{Libs}.

Lemma addToIndex_frame (r : RegistryNode) (pid : peer.ID) (name : string) :
  Registrations (addToIndex r pid name) = Registrations r
  ∧ seenStakeNonces (addToIndex r pid name) = seenStakeNonces r
  ∧ config (addToIndex r pid name) = config r.
Proof. unfold addToIndex. by case_bool_decide. Qed.

Lemma removeFromIndex_frame (r : RegistryNode) (pid : peer.ID) (name : string) :
  Registrations (removeFromIndex r pid name) = Registrations r
  ∧ seenStakeNonces (removeFromIndex r pid name) = seenStakeNonces r
  ∧ config (removeFromIndex r pid name) = config r.
Proof. done. Qed.

Lemma gcVisit_frame (now : Z) (acc : RegistryNode * list Event)
    (entry : string * RegistrationRecord.t) :
  seenStakeNonces (gcVisit now acc entry).1 = seenStakeNonces acc.1
  ∧ config (gcVisit now acc entry).1 = config acc.1.
Proof.
  destruct acc as [r tr], entry as [pid record]. unfold gcVisit.
  by case_match.
Qed.

Lemma foldl_gcVisit_frame (now : Z) (entries : list (string * RegistrationRecord.t))
    (acc : RegistryNode * list Event) :
  seenStakeNonces (foldl (gcVisit now) acc entries).1 = seenStakeNonces acc.1
  ∧ config (foldl (gcVisit now) acc entries).1 = config acc.1.
Proof.
  revert acc. induction entries as [|e entries IH]; intros acc; [done|].
  cbn [foldl]. destruct (IH (gcVisit now acc e)) as [-> ->].
  apply gcVisit_frame.
Qed.

Lemma gcTickIn_frame (entries : list (string * RegistrationRecord.t)) (now : Z)
    (r : RegistryNode) :
  seenStakeNonces (gcTickIn entries now r).1 = seenStakeNonces r
  ∧ config (gcTickIn entries now r).1 = config r.
Proof.
  unfold gcTickIn.
  pose proof (foldl_gcVisit_frame now entries (r, [MuLock])) as Hf.
  by destruct (foldl (gcVisit now) (r, [MuLock]) entries).
Qed.

(** A new registration that gets past the stake check and finds its key
    claimed is refused and changes nothing. *)
Lemma handleNewRegistration_replay (r : RegistryNode) (remotePeer : peer.ID)
    (now : Z) (req : RegistryRequest.t) (existing : option RegistrationRecord.t)
    (proof : StakeProof.t) :
  RegistryRequest.StakeProof req = Some proof →
  checkStakeValidity r remotePeer (Some proof) = None →
  seen r (replayKey proof) = true →
  handleNewRegistration r remotePeer now req existing
  = (r, respFailure "stake proof already used (replay detected)",
     [StakeMuLock; StakeMuUnlock]).
Proof.
  intros Hp Hok Hseen. unfold handleNewRegistration.
  rewrite Hp, Hok. unfold seen in Hseen. by rewrite Hseen.
Qed.

(** A new registration that gets past the stake check and finds its key
    free claims the key and succeeds. *)
Lemma handleNewRegistration_claim (r : RegistryNode) (remotePeer : peer.ID)
    (now : Z) (req : RegistryRequest.t) (existing : option RegistrationRecord.t)
    (proof : StakeProof.t) :
  RegistryRequest.StakeProof req = Some proof →
  checkStakeValidity r remotePeer (Some proof) = None →
  seen r (replayKey proof) = false →
  ∃ r' tr,
    handleNewRegistration r remotePeer now req existing = (r', respSuccess [], tr)
    ∧ seenStakeNonces r' = <[replayKey proof := true]> (seenStakeNonces r)
    ∧ config r' = config r.
Proof.
  intros Hp Hok Hseen. unfold handleNewRegistration.
  rewrite Hp, Hok. unfold seen in Hseen. rewrite Hseen.
  set (r1 := with_seenStakeNonces r _).
  set (r2 := match existing with Some _ => _ | None => _ end).
  assert (H2 : seenStakeNonces r2 = seenStakeNonces r1 ∧ config r2 = config r1).
  { unfold r2. destruct existing as [ex|]; [|done]. by case_bool_decide. }
  destruct H2 as [H2s H2c].
  destruct (RegistryRequest.ProviderInfo req) as [info|].
  - eexists _, _. split; [reflexivity|].
    lazymatch goal with
    | |- context [addToIndex ?a ?b ?c] =>
      destruct (addToIndex_frame a b c) as (_ & -> & ->)
    end.
    split.
    + transitivity (seenStakeNonces r2); [done|]. by rewrite H2s.
    + transitivity (config r2); [done|]. by rewrite H2c.
  - eexists _, _. split; [reflexivity|]. split.
    + by rewrite H2s.
    + by rewrite H2c.
Qed.

Lemma handleStream_frame (r : RegistryNode) (remotePeer : peer.ID) (now : Z)
    (req : RegistryRequest.t) :
  config (handleStream r remotePeer now req).1.1 = config r
  ∧ (seenStakeNonces (handleStream r remotePeer now req).1.1 = seenStakeNonces r
     ∨ ∃ key, seenStakeNonces (handleStream r remotePeer now req).1.1
              = <[key := true]> (seenStakeNonces r)).
Proof.
  unfold handleStream. case_bool_decide as Hreg; [|by case_bool_decide; auto].
  destruct (isHeartbeat _ _).
  - unfold handleHeartbeat. destruct (Registrations r !! remotePeer); auto.
  - destruct (checkStakeValidity r remotePeer (RegistryRequest.StakeProof req))
      as [err|] eqn:Hok.
    { unfold handleNewRegistration. rewrite Hok. auto. }
    destruct (RegistryRequest.StakeProof req) as [proof|] eqn:Hp.
    2: { unfold handleNewRegistration. rewrite Hp, Hok. auto. }
    destruct (seen r (replayKey proof)) eqn:Hseen.
    + rewrite (handleNewRegistration_replay _ _ _ _ _ proof) by done. auto.
    + destruct (handleNewRegistration_claim r remotePeer now req
                  (Registrations r !! remotePeer) proof Hp Hok Hseen)
        as (r' & tr & -> & Hs & Hc).
      cbn [fst snd]. split; [done|]. right. by exists (replayKey proof).
Qed.

Lemma step_frame (r : RegistryNode) (op : Op) :
  config (step r op) = config r
  ∧ ∀ key, seen r key = true → seen (step r op) key = true.
Proof.
  destruct op as [remotePeer now req|now]; cbn [step].
  - destruct (handleStream_frame r remotePeer now req) as [Hc [Hs|[k Hs]]].
    + split; [done|]. unfold seen. by rewrite Hs.
    + split; [done|]. unfold seen. rewrite Hs. intros key Hk.
      destruct (decide (k = key)) as [->|Hne].
      * by rewrite lookup_insert_eq.
      * by rewrite lookup_insert_ne.
  - destruct (gcTickIn_frame (map_to_list (Registrations r)) now r) as [Hs Hc].
    unfold gcTick. split; [done|]. unfold seen. by rewrite Hs.
Qed.

Lemma run_frame (ops : list Op) (r : RegistryNode) :
  config (run r ops) = config r
  ∧ ∀ key, seen r key = true → seen (run r ops) key = true.
Proof.
  revert r. induction ops as [|op ops IH]; intros r; [done|].
  change (run r (op :: ops)) with (run (step r op) ops).
  destruct (IH (step r op)) as [Hc Hs].
  destruct (step_frame r op) as [Hc' Hs'].
  split; [by rewrite Hc|]. intros key Hk. apply Hs, Hs', Hk.
Qed.

End Frame.

(* ===================================================================== *)
(** * The replay guard *)
(* ===================================================================== *)

(** ** The key of a pair determines the pair *)

Lemma append_nil_l (s : string) : "" +:+ s = s.
Proof. reflexivity. Qed.

Lemma append_cons (c : Ascii.ascii) (a s : string) :
  String c a +:+ s = String c (a +:+ s).
Proof. reflexivity. Qed.

Lemma Contains_sep_app (c : Ascii.ascii) (b d : string) :
  Go.Contains (b +:+ String c d) (String c "") = true.
Proof.
  induction b as [|c' b IH].
  - rewrite append_nil_l. cbn [Go.Contains Go.HasPrefix].
    rewrite bool_decide_eq_true_2 by done. by destruct d.
  - rewrite append_cons. cbn [Go.Contains]. rewrite IH. apply orb_true_r.
Qed.

Lemma sep_split (c : Ascii.ascii) (a b d1 d2 : string) :
  Go.Contains d1 (String c "") = false → Go.Contains d2 (String c "") = false →
  a +:+ String c d1 = b +:+ String c d2 → a = b ∧ d1 = d2.
Proof.
  intros H1 H2. revert b. induction a as [|c1 a IH]; intros [|c2 b] Heq.
  - rewrite !append_nil_l in Heq. by injection Heq.
  - rewrite append_nil_l, append_cons in Heq. injection Heq as _ Heq.
    rewrite Heq, Contains_sep_app in H1. done.
  - rewrite append_nil_l, append_cons in Heq. injection Heq as _ Heq.
    rewrite <- Heq, Contains_sep_app in H2. done.
  - rewrite !append_cons in Heq. injection Heq as -> Heq.
    destruct (IH b Heq) as [-> ->]. done.
Qed.

Lemma pretty_N_go_no_bar (x : N) (s : string) :
  Go.Contains s "|" = false → Go.Contains (pretty_N_go x s) "|" = false.
Proof.
  revert s. induction (N.lt_wf_0 x) as [x _ IH]; intros s Hs.
  assert (x = 0 ∨ 0 < x)%N as [->|Hx] by lia.
  - by rewrite pretty_N_go_0.
  - rewrite pretty_N_go_step by done. apply IH.
    { by apply N.div_lt. }
    cbn [Go.Contains Go.HasPrefix]. rewrite Hs.
    unfold pretty_N_char. by repeat case_match.
Qed.

Lemma pretty_Z_no_bar (z : Z) : Go.Contains (pretty z) "|" = false.
Proof.
  assert (Hpos : ∀ p : positive, Go.Contains (pretty p) "|" = false).
  { intros p. unfold pretty, pretty_positive, pretty, pretty_N.
    rewrite decide_False by done. by apply pretty_N_go_no_bar. }
  destruct z as [|p|p]; [done|apply Hpos|].
  unfold pretty, pretty_Z.
  rewrite append_cons, append_nil_l.
  cbn [Go.Contains Go.HasPrefix].
  rewrite Hpos. rewrite bool_decide_eq_false_2 by done. done.
Qed.

Lemma replayKey_inj (p1 p2 : StakeProof.t) :
  replayKey p1 = replayKey p2 →
  StakeProof.TxHash p1 = StakeProof.TxHash p2
  ∧ StakeProof.Nonce p1 = StakeProof.Nonce p2.
Proof.
  unfold replayKey, Go.fmt_d. intros Heq.
  apply (sep_split (Ascii.Ascii false false true true true true true false))
    in Heq as [Ht Hn]; [|apply pretty_Z_no_bar..].
  split; [done|]. by apply (inj pretty).
Qed.

(** ** Once per pair *)

Section Replay.
Context `{Libs}.

Lemma handleStream_heartbeat_bypass (r : RegistryNode) (remotePeer : peer.ID)
    (now : Z) (req : RegistryRequest.t) :
  RegistryRequest.Method req = "register" →
  isHeartbeat (Registrations r !! remotePeer) req = true →
  RegistryResponse.Success (handleStream r remotePeer now req).1.2 = true
  ∧ seenStakeNonces (handleStream r remotePeer now req).1.1 = seenStakeNonces r.
Proof.
  intros Hm Hhb. rewrite handleStream_register by done. rewrite Hhb.
  apply isHeartbeat_true in Hhb as (record & _ & _ & Hex & _).
  unfold handleHeartbeat. by rewrite Hex.
Qed.

(** A new registration with a valid stake whose key is claimed: refused,
    nothing changes. *)
Lemma handleStream_replay (r : RegistryNode) (remotePeer : peer.ID) (now : Z)
    (req : RegistryRequest.t) (proof : StakeProof.t) :
  RegistryRequest.Method req = "register" →
  RegistryRequest.StakeProof req = Some proof →
  checkStakeValidity r remotePeer (Some proof) = None →
  isHeartbeat (Registrations r !! remotePeer) req = false →
  seen r (replayKey proof) = true →
  handleStream r remotePeer now req
  = (r, respFailure "stake proof already used (replay detected)",
     [MuLock; MuUnlock; StakeMuLock; StakeMuUnlock]).
Proof.
  intros Hm Hp Hok Hhb Hseen. rewrite handleStream_register by done.
  rewrite Hhb. by rewrite (handleNewRegistration_replay _ _ _ _ _ proof).
Qed.

(** C2. A register request that is not a heartbeat and whose stake proof
    passes the stake check succeeds if the pair (tx_hash, nonce) of the
    proof has not been claimed, and claims it under the key
    "tx_hash|nonce"; from then on every register request that is not a
    heartbeat, from any peer, whose valid proof has that pair, is answered
    "stake proof already used (replay detected)" and changes nothing,
    whatever happened in between. A request that finds its pair claimed
    is refused in the same way. Two pairs with the same key are the same
    pair. A heartbeat is answered success and does not touch the replay
    set, claimed pair or not. *)
Theorem stake_proof_accepted_once (r : RegistryNode) (remotePeer : peer.ID)
    (now : Z) (req : RegistryRequest.t) (proof : StakeProof.t) :
  RegistryRequest.Method req = "register" →
  RegistryRequest.StakeProof req = Some proof →
  checkStakeValidity r remotePeer (Some proof) = None →
  isHeartbeat (Registrations r !! remotePeer) req = false →
  (seen r (replayKey proof) = false →
     ∃ r' tr,
       handleStream r remotePeer now req
       = (r', {| RegistryResponse.Success := true; RegistryResponse.Providers := [];
                 RegistryResponse.Error := "" |}, tr)
       ∧ seenStakeNonces r'
         = <[StakeProof.TxHash proof +:+ "|" +:+ pretty (StakeProof.Nonce proof) := true]>
             (seenStakeNonces r)
       ∧ ∀ ops remotePeer2 now2 req2 proof2,
           RegistryRequest.Method req2 = "register" →
           RegistryRequest.StakeProof req2 = Some proof2 →
           StakeProof.TxHash proof2 = StakeProof.TxHash proof →
           StakeProof.Nonce proof2 = StakeProof.Nonce proof →
           checkStakeValidity (run r' ops) remotePeer2 (Some proof2) = None →
           isHeartbeat (Registrations (run r' ops) !! remotePeer2) req2 = false →
           handleStream (run r' ops) remotePeer2 now2 req2
           = (run r' ops,
              {| RegistryResponse.Success := false; RegistryResponse.Providers := [];
                 RegistryResponse.Error := "stake proof already used (replay detected)" |},
              [MuLock; MuUnlock; StakeMuLock; StakeMuUnlock]))
  ∧ (seen r (replayKey proof) = true →
       handleStream r remotePeer now req
       = (r, {| RegistryResponse.Success := false; RegistryResponse.Providers := [];
                RegistryResponse.Error := "stake proof already used (replay detected)" |},
          [MuLock; MuUnlock; StakeMuLock; StakeMuUnlock]))
  ∧ (∀ proof2, replayKey proof2 = replayKey proof →
       StakeProof.TxHash proof2 = StakeProof.TxHash proof
       ∧ StakeProof.Nonce proof2 = StakeProof.Nonce proof)
  ∧ (∀ r0 remotePeer0 now0 req0,
       RegistryRequest.Method req0 = "register" →
       isHeartbeat (Registrations r0 !! remotePeer0) req0 = true →
       RegistryResponse.Success (handleStream r0 remotePeer0 now0 req0).1.2 = true
       ∧ seenStakeNonces (handleStream r0 remotePeer0 now0 req0).1.1
         = seenStakeNonces r0).
Proof.
  intros Hm Hp Hok Hhb. split; [|split; [|split]].
  - intros Hfree.
    destruct (handleNewRegistration_claim r remotePeer now req
                (Registrations r !! remotePeer) proof Hp Hok Hfree)
      as (r' & tr & Hrun & Hs & Hc).
    exists r', ([MuLock; MuUnlock] ++ tr). split; [|split; [exact Hs|]].
    { rewrite handleStream_register by done. by rewrite Hhb, Hrun. }
    intros ops remotePeer2 now2 req2 proof2 Hm2 Hp2 Htx Hn Hok2 Hhb2.
    apply (handleStream_replay _ _ _ _ proof2); try done.
    apply run_frame. unfold seen. rewrite Hs.
    replace (replayKey proof2) with (replayKey proof)
      by (unfold replayKey; by rewrite Htx, Hn).
    by rewrite lookup_insert_eq.
  - intros Hseen. by apply (handleStream_replay _ _ _ _ proof).
  - intros proof2. apply replayKey_inj.
  - intros r0 remotePeer0 now0 req0. apply handleStream_heartbeat_bypass.
Qed.

(** C9. A new registration from a peer without a record that passes the
    stake check and the replay check but carries no provider_info is
    answered success, installs no record, and claims its pair all the
    same: as long as the peer has no record, its next register request
    with that pair — valid, and now with provider_info — is answered
    "stake proof already used (replay detected)" and installs nothing. *)
Theorem stake_consumed_without_record (r : RegistryNode) (remotePeer : peer.ID)
    (now : Z) (req : RegistryRequest.t) (proof : StakeProof.t) :
  RegistryRequest.Method req = "register" →
  RegistryRequest.StakeProof req = Some proof →
  RegistryRequest.ProviderInfo req = None →
  Registrations r !! remotePeer = None →
  checkStakeValidity r remotePeer (Some proof) = None →
  seen r (replayKey proof) = false →
  ∃ r' tr,
    handleStream r remotePeer now req
    = (r', {| RegistryResponse.Success := true; RegistryResponse.Providers := [];
              RegistryResponse.Error := "" |}, tr)
    ∧ Registrations r' = Registrations r
    ∧ ServiceIndex r' = ServiceIndex r
    ∧ seen r' (replayKey proof) = true
    ∧ ∀ ops now2 req2 proof2 info,
        Registrations (run r' ops) !! remotePeer = None →
        RegistryRequest.Method req2 = "register" →
        RegistryRequest.StakeProof req2 = Some proof2 →
        StakeProof.TxHash proof2 = StakeProof.TxHash proof →
        StakeProof.Nonce proof2 = StakeProof.Nonce proof →
        RegistryRequest.ProviderInfo req2 = Some info →
        checkStakeValidity (run r' ops) remotePeer (Some proof2) = None →
        handleStream (run r' ops) remotePeer now2 req2
        = (run r' ops,
           {| RegistryResponse.Success := false; RegistryResponse.Providers := [];
              RegistryResponse.Error := "stake proof already used (replay detected)" |},
           [MuLock; MuUnlock; StakeMuLock; StakeMuUnlock]).
Proof.
  intros Hm Hp Hinfo Hnone Hok Hfree.
  assert (Hrun : ∃ r' tr,
             handleStream r remotePeer now req = (r', respSuccess [], tr)
             ∧ Registrations r' = Registrations r
             ∧ ServiceIndex r' = ServiceIndex r
             ∧ seenStakeNonces r' = <[replayKey proof := true]> (seenStakeNonces r)).
  { rewrite handleStream_register by done. rewrite Hnone. cbn [isHeartbeat].
    unfold handleNewRegistration. rewrite Hp, Hok.
    unfold seen in Hfree. rewrite Hfree, Hinfo.
    eexists _, _. split; [reflexivity|]. done. }
  destruct Hrun as (r' & tr & Hrun & Hregs & Hidx & Hs).
  exists r', tr. split; [exact Hrun|]. split; [exact Hregs|]. split; [exact Hidx|].
  assert (Hseen : seen r' (replayKey proof) = true).
  { unfold seen. by rewrite Hs, lookup_insert_eq. }
  split; [exact Hseen|].
  intros ops now2 req2 proof2 info Hnone2 Hm2 Hp2 Htx Hn Hinfo2 Hok2.
  apply (handleStream_replay _ _ _ _ proof2); try done.
  - by rewrite Hnone2.
  - apply run_frame.
    replace (replayKey proof2) with (replayKey proof)
      by (unfold replayKey; by rewrite Htx, Hn).
    exact Hseen.
Qed.

End Replay.

Lemma stake_proof_accepted_once_witness :
  let proof := Scenario.proof "tx1" 1 10 in
  let req := Scenario.register "math" (Some proof) (Some (Scenario.addrOf "peerA")) in
  let r1 := (@handleStream Scenario.libs Scenario.empty "peerA" 0 req).1.1 in
  let r2 := @run Scenario.libs r1 [Tick (95 * Go.Second)] in
  RegistryResponse.Success (@handleStream Scenario.libs Scenario.empty "peerA" 0 req).1.2
  = true
  ∧ seenStakeNonces r1 = {[ "tx1|1" := true ]}
  ∧ Registrations r2 !! "peerA" = None
  ∧ (@handleStream Scenario.libs r2 "peerA" (100 * Go.Second) req).1.2
    = respFailure "stake proof already used (replay detected)".
Proof.
  intros proof req r1 r2.
  destruct (@stake_proof_accepted_once Scenario.libs Scenario.empty "peerA" 0 req proof
              eq_refl eq_refl ltac:(vm_compute; reflexivity)
              ltac:(vm_compute; reflexivity)) as (Hfirst & _).
  destruct (Hfirst ltac:(vm_compute; reflexivity)) as (r' & tr & Hrun & Hs & Hlater).
  assert (Hr' : r' = r1) by (unfold r1; by rewrite Hrun).
  subst r'.
  split; [by rewrite Hrun|]. split; [by rewrite Hs|].
  split; [vm_compute; reflexivity|].
  unfold r2.
  rewrite (Hlater [Tick (95 * Go.Second)] "peerA" (100 * Go.Second) req proof
             eq_refl eq_refl eq_refl eq_refl
             ltac:(vm_compute; reflexivity) ltac:(vm_compute; reflexivity)).
  reflexivity.
Defined.

Lemma stake_consumed_without_record_witness :
  let proof := Scenario.proof "tx1" 1 10 in
  let bare := Scenario.register "math" (Some proof) None in
  let full := Scenario.register "math" (Some proof) (Some (Scenario.addrOf "peerA")) in
  let r1 := (@handleStream Scenario.libs Scenario.empty "peerA" 0 bare).1.1 in
  (@handleStream Scenario.libs Scenario.empty "peerA" 0 bare).1.2 = respSuccess []
  ∧ Registrations r1 = ∅
  ∧ @handleStream Scenario.libs r1 "peerA" Go.Second full
    = (r1, respFailure "stake proof already used (replay detected)",
       [MuLock; MuUnlock; StakeMuLock; StakeMuUnlock]).
Proof.
  intros proof bare full r1.
  destruct (@stake_consumed_without_record Scenario.libs Scenario.empty "peerA" 0 bare
              proof eq_refl eq_refl eq_refl ltac:(vm_compute; reflexivity)
              ltac:(vm_compute; reflexivity) ltac:(vm_compute; reflexivity))
    as (r' & tr & Hrun & Hregs & Hidx & Hseen & Hlater).
  assert (Hr' : r' = r1) by (unfold r1; by rewrite Hrun).
  subst r'.
  split; [by rewrite Hrun|]. split; [by rewrite Hregs|].
  exact (Hlater [] Go.Second full proof (Scenario.addrOf "peerA")
           ltac:(vm_compute; reflexivity) eq_refl eq_refl eq_refl eq_refl eq_refl
           ltac:(vm_compute; reflexivity)).
Defined.

(* ===================================================================== *)
(** * The index helpers *)
(* ===================================================================== *)

Section Index.

Lemma listed_removeFromIndex (r : RegistryNode) (pid : peer.ID) (name n : string)
    (p : peer.ID) :
  listed (removeFromIndex r pid name) n p ↔ listed r n p ∧ ¬ (n = name ∧ p = pid).
Proof.
  unfold listed, removeFromIndex. cbn [ServiceIndex with_ServiceIndex].
  destruct (decide (name = n)) as [->|Hne].
  - rewrite lookup_insert_eq. split.
    + intros (l & [= <-] & Hin). apply list_elem_of_filter in Hin as [Hp Hin].
      split; [|naive_solver].
      destruct (ServiceIndex r !! n) as [l|]; [by exists l|by apply elem_of_nil in Hin].
    + intros [(l & Hl & Hin) Hnot]. eexists. split; [done|].
      rewrite Hl. apply list_elem_of_filter. naive_solver.
  - rewrite lookup_insert_ne by done. naive_solver.
Qed.

Lemma listed_addToIndex (r : RegistryNode) (pid : peer.ID) (name n : string)
    (p : peer.ID) :
  listed (addToIndex r pid name) n p ↔ listed r n p ∨ (n = name ∧ p = pid).
Proof.
  unfold listed, addToIndex. case_bool_decide as Hin.
  - split; [naive_solver|]. intros [?|[-> ->]]; [done|].
    destruct (ServiceIndex r !! name) as [l|]; [by exists l|by apply elem_of_nil in Hin].
  - cbn [ServiceIndex with_ServiceIndex].
    destruct (decide (name = n)) as [->|Hne].
    + rewrite lookup_insert_eq. split.
      * intros (l & [= <-] & Hp). apply elem_of_app in Hp as [Hp|Hp].
        -- left. destruct (ServiceIndex r !! n) as [l|]; [by exists l|by apply elem_of_nil in Hp].
        -- apply list_elem_of_singleton in Hp. naive_solver.
      * intros [(l & Hl & Hp)|[_ ->]]; (eexists; split; [done|]).
        -- rewrite Hl. apply elem_of_app. by left.
        -- apply elem_of_app. right. by apply list_elem_of_singleton.
    + rewrite lookup_insert_ne by done. naive_solver.
Qed.

Lemma IndexNoDup_removeFromIndex (r : RegistryNode) (pid : peer.ID) (name : string) :
  IndexNoDup r → IndexNoDup (removeFromIndex r pid name).
Proof.
  intros Hnd n l. unfold removeFromIndex. cbn [ServiceIndex with_ServiceIndex].
  destruct (decide (name = n)) as [->|Hne].
  - rewrite lookup_insert_eq. intros [= <-].
    apply NoDup_filter. destruct (ServiceIndex r !! n) as [l'|] eqn:Hl; [by eapply Hnd|].
    apply NoDup_nil_2.
  - rewrite lookup_insert_ne by done. apply Hnd.
Qed.

Lemma IndexNoDup_addToIndex (r : RegistryNode) (pid : peer.ID) (name : string) :
  IndexNoDup r → IndexNoDup (addToIndex r pid name).
Proof.
  intros Hnd n l. unfold addToIndex. case_bool_decide as Hin; [apply Hnd|].
  cbn [ServiceIndex with_ServiceIndex].
  destruct (decide (name = n)) as [->|Hne].
  - rewrite lookup_insert_eq. intros [= <-].
    apply NoDup_app. split; [|split].
    + destruct (ServiceIndex r !! n) as [l'|] eqn:Hl; [by eapply Hnd|apply NoDup_nil_2].
    + intros x Hx Hx'. apply list_elem_of_singleton in Hx'. by subst.
    + apply NoDup_singleton.
  - rewrite lookup_insert_ne by done. apply Hnd.
Qed.

Lemma filter_eq_absent (pid : string) (l : list string) :
  pid ∉ l → filter (λ id, id = pid) l = [].
Proof.
  induction l as [|x l IH]; [done|]. intros Hnin.
  apply not_elem_of_cons in Hnin as [Hne Hnin].
  rewrite filter_cons, decide_False by done. by apply IH.
Qed.

Lemma filter_eq_once (pid : string) (l : list string) :
  NoDup l → pid ∈ l → length (filter (λ id, id = pid) l) = 1%nat.
Proof.
  induction 1 as [|x l Hx Hnd IH]; intros Hin; [by apply elem_of_nil in Hin|].
  rewrite filter_cons. destruct (decide (x = pid)) as [->|Hne].
  - by rewrite filter_eq_absent.
  - apply elem_of_cons in Hin as [->|Hin]; [done|]. by apply IH.
Qed.

(** Invariant B in terms of [listed]. *)
Lemma InvariantB_listed (r : RegistryNode) :
  InvariantB r ↔
  ∀ n p, listed r n p →
    ∃ record, Registrations r !! p = Some record
              ∧ ServiceCard.Name (RegistrationRecord.ServiceCard record) = n.
Proof.
  unfold InvariantB, listed. split.
  - intros HB n p (l & Hl & Hp). by eapply HB.
  - intros HB n l p Hl Hp. apply HB. by exists l.
Qed.

(** Invariant A, given that the lists have no duplicates. *)
Lemma InvariantA_listed (r : RegistryNode) :
  IndexNoDup r →
  InvariantA r ↔
  ∀ pid record, Registrations r !! pid = Some record →
    listed r (ServiceCard.Name (RegistrationRecord.ServiceCard record)) pid.
Proof.
  intros Hnd. unfold InvariantA, listed. split.
  - intros HA pid record Hr. destruct (HA pid record Hr) as (l & Hl & Hp & _).
    by exists l.
  - intros HA pid record Hr. destruct (HA pid record Hr) as (l & Hl & Hp).
    exists l. split; [done|]. split; [done|].
    apply filter_eq_once; [by eapply Hnd|done].
Qed.

End Index.

(* ===================================================================== *)
(** * Invariants A and B along a run *)
(* ===================================================================== *)

Section Invariants.
Context `{Libs}.

Lemma IndexSound_empty (h : host.Host) (m : spec_float) (q : option QdrantClient)
    (s : option storage.RedisStorage) :
  IndexSound (newRegistryNode h m q s) ∧ InvariantA (newRegistryNode h m q s).
Proof.
  split; [split|].
  - intros n l pid Hl. cbn in Hl. by rewrite lookup_empty in Hl.
  - intros n l Hl. cbn in Hl. by rewrite lookup_empty in Hl.
  - intros pid record Hr. cbn in Hr. by rewrite lookup_empty in Hr.
Qed.

(** *** Heartbeat *)

Lemma handleHeartbeat_invariants (r : RegistryNode) (remotePeer : peer.ID) (now : Z)
    (req : RegistryRequest.t) :
  let r' := (handleHeartbeat r remotePeer now req).1.1 in
  (IndexSound r → IndexSound r') ∧ (InvariantA r → InvariantA r').
Proof.
  unfold handleHeartbeat.
  destruct (Registrations r !! remotePeer) as [entry|] eqn:He; [|done].
  cbn [fst]. split.
  - intros [HB Hnd]. split; [|exact Hnd].
    intros n l pid Hl Hin. cbn [ServiceIndex with_Registrations] in Hl.
    destruct (HB n l pid Hl Hin) as (record & Hr & Hn).
    cbn [Registrations with_Registrations].
    destruct (decide (remotePeer = pid)) as [->|Hne].
    + rewrite lookup_insert_eq. eexists. split; [done|].
      cbn [RegistrationRecord.ServiceCard]. congruence.
    + rewrite lookup_insert_ne by done. eauto.
  - intros HA pid record. cbn [Registrations with_Registrations ServiceIndex].
    destruct (decide (remotePeer = pid)) as [->|Hne].
    + rewrite lookup_insert_eq. intros [= <-].
      cbn [RegistrationRecord.ServiceCard]. by apply HA.
    + rewrite lookup_insert_ne by done. apply HA.
Qed.

(** *** New registration *)

Lemma handleNewRegistration_sound (r : RegistryNode) (remotePeer : peer.ID)
    (now : Z) (req : RegistryRequest.t) :
  IndexSound r →
  IndexSound (handleNewRegistration r remotePeer now req
                (Registrations r !! remotePeer)).1.1.
Proof.
  intros [HB Hnd]. unfold handleNewRegistration.
  destruct (checkStakeValidity _ _ _); [done|].
  destruct (RegistryRequest.StakeProof req) as [proof|]; [|done].
  destruct (default false _); [done|].
  set (r1 := with_seenStakeNonces r _).
  assert (HB1 : InvariantB r1) by exact HB.
  assert (Hnd1 : IndexNoDup r1) by exact Hnd.
  assert (Hregs1 : Registrations r1 = Registrations r) by done.
  clearbody r1.
  set (newName := ServiceCard.Name (RegistryRequest.Card req)).
  set (r2 := match Registrations r !! remotePeer with Some _ => _ | None => _ end).
  assert (H2 : Registrations r2 = Registrations r
               ∧ IndexNoDup r2
               ∧ (∀ n p, listed r2 n p → listed r1 n p)
               ∧ (∀ n, listed r2 n remotePeer → n = newName)).
  { unfold r2. destruct (Registrations r !! remotePeer) as [existing|] eqn:Hex.
    - case_bool_decide as Hname.
      + split; [done|]. split; [by apply IndexNoDup_removeFromIndex|]. split.
        * intros n p Hl. by apply listed_removeFromIndex in Hl as [Hl _].
        * intros n Hl. apply listed_removeFromIndex in Hl as [Hl Hnot].
          destruct (proj1 (InvariantB_listed r1) HB1 _ _ Hl) as (rec & Hr & Hn).
          rewrite Hregs1, Hex in Hr. injection Hr as <-. naive_solver.
      + split; [done|]. split; [done|]. split; [done|].
        intros n Hl.
        destruct (proj1 (InvariantB_listed r1) HB1 _ _ Hl) as (rec & Hr & Hn).
        rewrite Hregs1, Hex in Hr. injection Hr as <-.
        congruence.
    - split; [done|]. split; [done|]. split; [done|].
      intros n Hl.
      destruct (proj1 (InvariantB_listed r1) HB1 _ _ Hl) as (rec & Hr & Hn).
      rewrite Hregs1, Hex in Hr. done. }
  destruct H2 as (Hregs2 & Hnd2 & Hsub & Hself). clearbody r2.
  destruct (RegistryRequest.ProviderInfo req) as [info|]; cbn [fst].
  - split.
    + apply InvariantB_listed. intros n p Hl.
      apply listed_addToIndex in Hl.
      destruct (addToIndex_frame
                  (with_Registrations r2 (<[remotePeer:=
                     {| RegistrationRecord.LastSeen := now;
                        RegistrationRecord.ServiceCard := RegistryRequest.Card req;
                        RegistrationRecord.StakeProof := Some proof;
                        RegistrationRecord.AddrInfo := info |}]> (Registrations r2)))
                  remotePeer newName) as (-> & _ & _).
      cbn [Registrations with_Registrations].
      destruct (decide (remotePeer = p)) as [<-|Hne].
      * rewrite lookup_insert_eq. eexists. split; [done|].
        cbn [RegistrationRecord.ServiceCard].
        destruct Hl as [Hl|[-> _]]; [|done]. symmetry. by apply Hself.
      * rewrite lookup_insert_ne by done.
        destruct Hl as [Hl|[_ ->]]; [|done].
        rewrite Hregs2, <- Hregs1.
        apply (proj1 (InvariantB_listed r1) HB1), Hsub, Hl.
    + by apply IndexNoDup_addToIndex.
  - split; [|done]. apply InvariantB_listed. intros n p Hl.
    rewrite Hregs2, <- Hregs1.
    apply (proj1 (InvariantB_listed r1) HB1), Hsub, Hl.
Qed.

(** A new registration keeps Invariant A unless it is the one case in
    which the handler takes the peer out of the list of its old name and
    installs no record: a peer with a record registers another service
    name and sends no provider_info. *)
Lemma handleNewRegistration_complete (r : RegistryNode) (remotePeer : peer.ID)
    (now : Z) (req : RegistryRequest.t) :
  IndexSound r → InvariantA r →
  (RegistryRequest.ProviderInfo req = None →
   ∀ existing, Registrations r !! remotePeer = Some existing →
     ServiceCard.Name (RegistrationRecord.ServiceCard existing)
     = ServiceCard.Name (RegistryRequest.Card req)) →
  InvariantA (handleNewRegistration r remotePeer now req
                (Registrations r !! remotePeer)).1.1.
Proof.
  intros Hsound HA Hslip.
  pose proof (handleNewRegistration_sound r remotePeer now req Hsound) as [_ Hnd'].
  apply InvariantA_listed; [exact Hnd'|]. clear Hnd'.
  destruct Hsound as [HB Hnd].
  pose proof (proj1 (InvariantA_listed r Hnd) HA) as HAl.
  unfold handleNewRegistration.
  destruct (checkStakeValidity _ _ _); [done|].
  destruct (RegistryRequest.StakeProof req) as [proof|]; [|done].
  destruct (default false _); [done|].
  set (r1 := with_seenStakeNonces r _).
  assert (HA1 : ∀ pid record, Registrations r1 !! pid = Some record →
                  listed r1 (ServiceCard.Name (RegistrationRecord.ServiceCard record)) pid)
    by exact HAl.
  assert (Hregs1 : Registrations r1 = Registrations r) by done.
  clearbody r1.
  set (r2 := match Registrations r !! remotePeer with Some _ => _ | None => _ end).
  destruct (RegistryRequest.ProviderInfo req) as [info|]; cbn [fst].
  - assert (H2 : Registrations r2 = Registrations r
                 ∧ ∀ n p, p ≠ remotePeer → listed r1 n p → listed r2 n p).
    { unfold r2. destruct (Registrations r !! remotePeer) as [existing|]; [|done].
      case_bool_decide; [|done]. split; [done|].
      intros n p Hp Hl. apply listed_removeFromIndex. naive_solver. }
    destruct H2 as [Hregs2 Hkeep]. clearbody r2.
    intros pid record.
    lazymatch goal with
    | |- context [addToIndex ?a ?b ?c] =>
      destruct (addToIndex_frame a b c) as (-> & _ & _)
    end.
    cbn [Registrations with_Registrations]. intros Hr.
    apply listed_addToIndex.
    destruct (decide (remotePeer = pid)) as [<-|Hne].
    + rewrite lookup_insert_eq in Hr. injection Hr as <-. by right.
    + rewrite lookup_insert_ne in Hr by done. left.
      apply Hkeep; [done|]. apply HA1. by rewrite Hregs1, <- Hregs2.
  - assert (H2 : r2 = r1).
    { unfold r2. destruct (Registrations r !! remotePeer) as [existing|] eqn:Hex; [|done].
      rewrite bool_decide_eq_false_2; [done|]. intros Hne. apply Hne. by apply Hslip. }
    rewrite H2. exact HA1.
Qed.

(** *** Eviction *)

Lemma staleb_stale (now t : Z) : staleb now t = true ↔ stale now t.
Proof.
  unfold staleb, stale, Go.Time_Sub, Go.maxDuration, Go.minDuration, Go.Second.
  rewrite Z.ltb_lt. repeat case_match; rewrite ?Z.ltb_lt, ?Z.ltb_ge in *; lia.
Qed.

Lemma gcVisit_evict (now : Z) (r : RegistryNode) (tr : list Event) (pid : string)
    (record : RegistrationRecord.t) :
  staleb now (RegistrationRecord.LastSeen record) = true →
  gcVisit now (r, tr) (pid, record)
  = (removeFromIndex (with_Registrations r (delete pid (Registrations r))) pid
       (ServiceCard.Name (RegistrationRecord.ServiceCard record)),
     tr ++ storage_DeleteRegistration (storage_ r) pid
             (ServiceCard.Name (RegistrationRecord.ServiceCard record))).
Proof. unfold gcVisit, staleb. by intros ->. Qed.

Lemma gcVisit_keep (now : Z) (r : RegistryNode) (tr : list Event) (pid : string)
    (record : RegistrationRecord.t) :
  staleb now (RegistrationRecord.LastSeen record) = false →
  gcVisit now (r, tr) (pid, record) = (r, tr).
Proof. unfold gcVisit, staleb. by intros ->. Qed.

(** A visit never adds a record. *)
Lemma gcVisit_deleted_stays (now : Z) (entries : list (string * RegistrationRecord.t))
    (r : RegistryNode) (tr : list Event) (pid : string) :
  Registrations r !! pid = None →
  Registrations (foldl (gcVisit now) (r, tr) entries).1 !! pid = None.
Proof.
  revert r tr. induction entries as [|[pid0 rec0] entries IH]; intros r tr Hn; [done|].
  cbn [foldl].
  destruct (staleb now (RegistrationRecord.LastSeen rec0)) eqn:Hst.
  2: { rewrite gcVisit_keep by done. by apply IH. }
  rewrite gcVisit_evict by done.
  apply IH. cbn [Registrations removeFromIndex with_ServiceIndex with_Registrations].
  destruct (decide (pid0 = pid)) as [->|Hne].
  - apply lookup_delete_eq.
  - by rewrite lookup_delete_ne.
Qed.

Lemma foldl_gcVisit_state (now : Z) (entries : list (string * RegistrationRecord.t))
    (r : RegistryNode) (tr : list Event) :
  let r' := (foldl (gcVisit now) (r, tr) entries).1 in
  (∀ pid,
     (∃ record, (pid, record) ∈ entries ∧ evicts now (pid, record) = true) →
     Registrations r' !! pid = None)
  ∧ (∀ pid,
     (¬ ∃ record, (pid, record) ∈ entries ∧ evicts now (pid, record) = true) →
     Registrations r' !! pid = Registrations r !! pid)
  ∧ (∀ n p,
       listed r' n p ↔
       listed r n p
       ∧ ¬ ∃ record, (p, record) ∈ entries ∧ evicts now (p, record) = true
                     ∧ ServiceCard.Name (RegistrationRecord.ServiceCard record) = n)
  ∧ (IndexNoDup r → IndexNoDup r').
Proof.
  revert r tr. induction entries as [|[pid0 rec0] entries IH]; intros r tr r'.
  - split; [|split; [|split; [|done]]].
    + intros pid (record & Hin & _). by apply elem_of_nil in Hin.
    + done.
    + intros n p. split; [|naive_solver]. intros Hl. split; [done|].
      intros (record & Hin & _). by apply elem_of_nil in Hin.
  - unfold r'. clear r'. cbn [foldl].
    destruct (staleb now (RegistrationRecord.LastSeen rec0)) eqn:Hst.
    + rewrite gcVisit_evict by done.
      match goal with |- context [foldl _ (?a, ?b) entries] =>
        destruct (IH a b) as (Hnone & Hsame & Hlist & Hnd) end.
      split; [|split; [|split]].
      * intros pid (record & Hin & Hev).
        apply elem_of_cons in Hin as [[= -> ->]|Hin].
        -- apply gcVisit_deleted_stays.
           cbn [Registrations removeFromIndex with_ServiceIndex with_Registrations].
           apply lookup_delete_eq.
        -- apply Hnone. by exists record.
      * intros pid Hno.
        assert (Hne : pid0 ≠ pid).
        { intros ->. apply Hno. exists rec0. split; [apply elem_of_cons; by left|exact Hst]. }
        etrans; [apply Hsame|].
        -- intros (record & Hin & Hev). apply Hno. exists record. split; [|done].
           apply elem_of_cons. by right.
        -- cbn [Registrations removeFromIndex with_ServiceIndex with_Registrations].
           by rewrite lookup_delete_ne.
      * intros n p. etrans; [apply Hlist|]. clear Hnone Hsame Hlist Hnd.
        rewrite listed_removeFromIndex.
        change (listed (with_Registrations r (delete pid0 (Registrations r))) n p)
          with (listed r n p).
        split.
        -- intros [[Hl Hnot] Hno]. split; [done|].
           intros (record & Hin & Hev & Hn).
           apply elem_of_cons in Hin as [[= -> ->]|Hin]; [naive_solver|].
           apply Hno. by exists record.
        -- intros [Hl Hno]. split; [split; [done|]|].
           ++ intros [-> ->]. apply Hno. exists rec0. split; [|done].
              apply elem_of_cons. by left.
           ++ intros (record & Hin & Hev & Hn). apply Hno. exists record.
              split; [|done]. apply elem_of_cons. by right.
      * intros Hndr. apply Hnd. by apply IndexNoDup_removeFromIndex.
    + rewrite gcVisit_keep by done.
      destruct (IH r tr) as (Hnone & Hsame & Hlist & Hnd).
      split; [|split; [|split; [|exact Hnd]]].
      * intros pid (record & Hin & Hev). apply Hnone. exists record. split; [|done].
        apply elem_of_cons in Hin as [[= -> ->]|Hin]; [|done].
        unfold evicts in Hev. cbn in Hev. congruence.
      * intros pid Hno. apply Hsame. intros (record & Hin & Hev). apply Hno.
        exists record. split; [|done]. apply elem_of_cons. by right.
      * intros n p. rewrite Hlist. split.
        -- intros [Hl Hno]. split; [done|].
           intros (record & Hin & Hev & Hn).
           apply elem_of_cons in Hin as [[= -> ->]|Hin].
           ++ unfold evicts in Hev. cbn in Hev. congruence.
           ++ apply Hno. by exists record.
        -- intros [Hl Hno]. split; [done|].
           intros (record & Hin & Hev & Hn). apply Hno. exists record.
           split; [|done]. apply elem_of_cons. by right.
Qed.

Lemma gcTickIn_fst (entries : list (string * RegistrationRecord.t)) (now : Z)
    (r : RegistryNode) :
  (gcTickIn entries now r).1 = (foldl (gcVisit now) (r, [MuLock]) entries).1.
Proof. unfold gcTickIn. by destruct (foldl _ _ _). Qed.

(** The state after a tick, whatever the order in which the loop visits
    the records: the stale records are gone from the map, the peers of the
    stale records are gone from the list of their service name, and the
    rest is as before. *)
Lemma gcTickIn_state (entries : list (string * RegistrationRecord.t)) (now : Z)
    (r : RegistryNode) :
  entries ≡ₚ map_to_list (Registrations r) →
  let r' := (gcTickIn entries now r).1 in
  (∀ pid record,
     Registrations r' !! pid = Some record ↔
     Registrations r !! pid = Some record
     ∧ ¬ stale now (RegistrationRecord.LastSeen record))
  ∧ (∀ n p,
       listed r' n p ↔
       listed r n p
       ∧ ¬ ∃ record, Registrations r !! p = Some record
                     ∧ stale now (RegistrationRecord.LastSeen record)
                     ∧ ServiceCard.Name (RegistrationRecord.ServiceCard record) = n)
  ∧ (IndexNoDup r → IndexNoDup r').
Proof.
  intros Hperm r'. unfold r'. clear r'. rewrite gcTickIn_fst.
  destruct (foldl_gcVisit_state now entries r [MuLock]) as (Hnone & Hsame & Hlist & Hnd).
  assert (Hin : ∀ pid record, (pid, record) ∈ entries ↔ Registrations r !! pid = Some record).
  { intros pid record. rewrite Hperm. apply elem_of_map_to_list. }
  split; [|split; [|exact Hnd]].
  - intros pid record.
    destruct (Registrations r !! pid) as [rec|] eqn:Hr.
    + destruct (staleb now (RegistrationRecord.LastSeen rec)) eqn:Hst.
      * rewrite Hnone by (exists rec; split; [by apply Hin|exact Hst]).
        split; [done|]. intros [[= ->] Hns]. exfalso. by apply Hns, staleb_stale.
      * rewrite Hsame, Hr.
        -- split; [|by intros [? _]]. intros [= ->]. split; [done|].
           rewrite <- staleb_stale. by rewrite Hst.
        -- intros (record' & Hin' & Hev). apply Hin in Hin'.
           rewrite Hr in Hin'. injection Hin' as <-.
           unfold evicts in Hev. cbn in Hev. congruence.
    + rewrite Hsame, Hr; [naive_solver|].
      intros (record' & Hin' & _). apply Hin in Hin'. congruence.
  - intros n p. rewrite Hlist. apply and_iff_compat_l, not_iff_compat.
    split; intros (record & Hr & Hst & Hn); exists record.
    + split; [by apply Hin|]. split; [by apply staleb_stale|done].
    + split; [by apply Hin|]. split; [by apply staleb_stale|done].
Qed.

Lemma gcTickIn_invariants (entries : list (string * RegistrationRecord.t)) (now : Z)
    (r : RegistryNode) :
  entries ≡ₚ map_to_list (Registrations r) →
  (IndexSound r → IndexSound (gcTickIn entries now r).1)
  ∧ (IndexSound r → InvariantA r → InvariantA (gcTickIn entries now r).1).
Proof.
  intros Hperm.
  destruct (gcTickIn_state entries now r Hperm) as (Hregs & Hlist & Hnd).
  assert (Hsound : IndexSound r → IndexSound (gcTickIn entries now r).1).
  { intros [HB Hndr]. split; [|by apply Hnd].
    apply InvariantB_listed. intros n p Hl. apply Hlist in Hl as [Hl Hno].
    destruct (proj1 (InvariantB_listed r) HB _ _ Hl) as (record & Hr & Hn).
    exists record. split; [|done]. apply Hregs. split; [done|].
    intros Hst. apply Hno. by exists record. }
  split; [exact Hsound|].
  intros Hs HA. apply InvariantA_listed; [by apply Hsound|].
  destruct Hs as [HB Hndr].
  intros pid record Hr. apply Hregs in Hr as [Hr Hns].
  apply Hlist. split; [by apply (proj1 (InvariantA_listed r Hndr) HA)|].
  intros (record' & Hr' & Hst & _). congruence.
Qed.

(** *** Every operation *)

Lemma step_invariants (r : RegistryNode) (op : Op) :
  (IndexSound r → IndexSound (step r op))
  ∧ (IndexSound r → InvariantA r → ¬ dropsIndexEntry r op → InvariantA (step r op)).
Proof.
  destruct op as [remotePeer now req|now]; cbn [step].
  - unfold handleStream. case_bool_decide as Hreg; [|by case_bool_decide].
    destruct (isHeartbeat _ _) eqn:Hhb.
    + pose proof (handleHeartbeat_invariants r remotePeer now req) as [Hs HA].
      destruct (handleHeartbeat r remotePeer now req) as [[r' resp] tr].
      cbn [fst] in *. auto.
    + pose proof (handleNewRegistration_sound r remotePeer now req) as Hs.
      pose proof (handleNewRegistration_complete r remotePeer now req) as HA.
      destruct (handleNewRegistration r remotePeer now req _) as [[r' resp] tr].
      cbn [fst] in *. split; [exact Hs|].
      intros Hsound HAr Hslip. apply HA; [done..|].
      intros Hinfo existing Hex.
      destruct (decide (ServiceCard.Name (RegistrationRecord.ServiceCard existing)
                        = ServiceCard.Name (RegistryRequest.Card req))) as [|Hne]; [done|].
      exfalso. apply Hslip. cbn. eauto 10.
  - unfold gcTick.
    destruct (gcTickIn_invariants (map_to_list (Registrations r)) now r) as [Hs HA]; [done|].
    split; [exact Hs|]. intros ? ? _. by apply HA.
Qed.

(** Invariant B holds, and no list of the index names a peer twice, after
    every operation of every run from a sound state. *)
Lemma run_sound (ops : list Op) (r : RegistryNode) :
  IndexSound r → IndexSound (run r ops).
Proof.
  revert r. induction ops as [|op ops IH]; intros r Hs; [done|].
  change (run r (op :: ops)) with (run (step r op) ops).
  by apply IH, step_invariants.
Qed.

End Invariants.

(** Along a run from the empty registry in which no request is of the
    kind [dropsIndexEntry], Invariants A and B hold after every
    operation; Invariant B holds along every run. *)
Theorem invariants_along_run `{Libs} (h : host.Host) (m : spec_float)
    (q : option QdrantClient) (s : option storage.RedisStorage) (ops : list Op) :
  InvariantB (run (newRegistryNode h m q s) ops)
  ∧ ((∀ done op, done ++ [op] `prefix_of` ops →
        ¬ dropsIndexEntry (run (newRegistryNode h m q s) done) op) →
     InvariantA (run (newRegistryNode h m q s) ops)).
Proof.
  destruct (IndexSound_empty h m q s) as [Hs0 HA0].
  split; [by apply run_sound|].
  induction ops as [|op ops IH] using rev_ind; intros Hok; [exact HA0|].
  unfold run. rewrite foldl_app. cbn [foldl].
  apply step_invariants.
  - by apply run_sound.
  - apply IH. intros done op' Hpre. apply Hok.
    etrans; [exact Hpre|]. by apply prefix_app_r.
  - by apply Hok.
Qed.

(** C1 fails on the code. A peer registers "math" with provider_info and
    then, with a fresh stake proof, "math2" without provider_info: the
    handler removes the peer from the list of "math" and installs
    nothing, so the peer keeps its record for "math" and is listed
    nowhere. Invariant A is broken (Invariant B still holds). *)
Theorem bare_reregistration_breaks_invariant_A :
  let ops := [Request "peerA" 0
                (Scenario.register "math" (Some (Scenario.proof "tx1" 1 10))
                   (Some (Scenario.addrOf "peerA")));
              Request "peerA" Go.Second
                (Scenario.register "math2" (Some (Scenario.proof "tx2" 1 10)) None)] in
  let r := @run Scenario.libs Scenario.empty ops in
  (∃ record, Registrations r !! "peerA" = Some record
             ∧ ServiceCard.Name (RegistrationRecord.ServiceCard record) = "math")
  ∧ ServiceIndex r !! "math" = Some []
  ∧ ¬ InvariantA r
  ∧ InvariantB r.
Proof.
  intros ops r.
  assert (Hidx : ServiceIndex r !! "math" = Some []) by (vm_compute; reflexivity).
  assert (Hrec : ∃ record, Registrations r !! "peerA" = Some record
             ∧ ServiceCard.Name (RegistrationRecord.ServiceCard record) = "math").
  { eexists. split; vm_compute; reflexivity. }
  split; [exact Hrec|]. split; [exact Hidx|]. split.
  - intros HA. destruct Hrec as (record & Hr & Hn).
    destruct (HA "peerA" record Hr) as (l & Hl & Hin & _).
    rewrite Hn, Hidx in Hl. injection Hl as <-. by apply elem_of_nil in Hin.
  - apply (@invariants_along_run Scenario.libs).
Qed.

(* ===================================================================== *)
(** * Eviction *)
(* ===================================================================== *)

Section Eviction.
Context `{Libs}.

(** The deletes a tick sends to the durable store: one for each stale
    entry, in the order of the visits. *)
Lemma foldl_gcVisit_trace (now : Z) (entries : list (string * RegistrationRecord.t))
    (r : RegistryNode) (tr : list Event) :
  (foldl (gcVisit now) (r, tr) entries).2
  = tr ++ (entries ≫= λ e,
             if evicts now e
             then storage_DeleteRegistration (storage_ r) e.1
                    (ServiceCard.Name (RegistrationRecord.ServiceCard e.2))
             else []).
Proof.
  revert r tr. induction entries as [|[pid0 rec0] entries IH]; intros r tr.
  - cbn [foldl snd]. symmetry. apply app_nil_r.
  - cbn [foldl]. rewrite bind_cons.
    change (evicts now (pid0, rec0)) with (staleb now (RegistrationRecord.LastSeen rec0)).
    cbn [fst snd].
    destruct (staleb now (RegistrationRecord.LastSeen rec0)) eqn:Hst.
    + rewrite gcVisit_evict by done. rewrite IH, <- app_assoc. reflexivity.
    + rewrite gcVisit_keep by done. by rewrite IH.
Qed.

Lemma gcTickIn_snd (entries : list (string * RegistrationRecord.t)) (now : Z)
    (r : RegistryNode) :
  (gcTickIn entries now r).2
  = [MuLock]
    ++ (entries ≫= λ e,
          if evicts now e
          then storage_DeleteRegistration (storage_ r) e.1
                 (ServiceCard.Name (RegistrationRecord.ServiceCard e.2))
          else [])
    ++ [MuUnlock].
Proof.
  unfold gcTickIn.
  pose proof (foldl_gcVisit_trace now entries r [MuLock]) as Htr.
  destruct (foldl _ _ _) as [r' tr]. cbn [snd] in *. rewrite Htr.
  by rewrite <- app_assoc.
Qed.

(** Every record a request installs or refreshes is last seen [now]. *)
Lemma handleStream_lastSeen (r : RegistryNode) (remotePeer : peer.ID) (now : Z)
    (req : RegistryRequest.t) (pid : string) (record : RegistrationRecord.t) :
  Registrations (handleStream r remotePeer now req).1.1 !! pid = Some record →
  Registrations r !! pid = Some record ∨ RegistrationRecord.LastSeen record = now.
Proof.
  unfold handleStream. case_bool_decide as Hreg; [|case_bool_decide; by left].
  destruct (isHeartbeat _ _).
  - unfold handleHeartbeat. destruct (Registrations r !! remotePeer) as [entry|]; [|by left].
    cbn [fst Registrations with_Registrations].
    destruct (decide (remotePeer = pid)) as [->|Hne].
    + rewrite lookup_insert_eq. intros [= <-]. by right.
    + rewrite lookup_insert_ne by done. by left.
  - unfold handleNewRegistration.
    destruct (checkStakeValidity _ _ _); [by left|].
    destruct (RegistryRequest.StakeProof req) as [proof|]; [|by left].
    destruct (default false _); [by left|].
    set (r1 := with_seenStakeNonces r _).
    set (r2 := match Registrations r !! remotePeer with Some _ => _ | None => _ end).
    assert (H2 : Registrations r2 = Registrations r).
    { unfold r2. destruct (Registrations r !! remotePeer); [|done]. by case_bool_decide. }
    clearbody r2. destruct (RegistryRequest.ProviderInfo req) as [info|]; cbn [fst].
    + lazymatch goal with
      | |- context [addToIndex ?a ?b ?c] =>
        destruct (addToIndex_frame a b c) as (-> & _ & _)
      end.
      cbn [Registrations with_Registrations].
      destruct (decide (remotePeer = pid)) as [->|Hne].
      * rewrite lookup_insert_eq. intros [= <-]. by right.
      * rewrite lookup_insert_ne, H2 by done. by left.
    + rewrite H2. by left.
Qed.

(** [find] in a registry without records finds nobody. *)
Lemma findIn_no_records (r : RegistryNode) (query : string)
    (entries : list (string * list string)) :
  Registrations r = ∅ → findIn r query entries = [].
Proof.
  intros Hempty. unfold findIn.
  assert (Hpeers : ∀ pids, findPeers r [] pids = []).
  { intros pids. unfold findPeers. rewrite Hempty.
    induction pids as [|p pids IH]; [done|].
    cbn [foldl]. by rewrite lookup_empty. }
  induction entries as [|[name pids] entries IH]; [done|].
  cbn [foldl]. destruct (Go.Contains _ _); [|exact IH]. by rewrite Hpeers.
Qed.

End Eviction.

(** C5. A tick of the eviction loop, in whatever order it visits the
    records, removes exactly the records last seen more than 90 seconds
    before [now]: every record of age at most 90 seconds is kept, with
    its index entries; the peer of a removed record is taken out of the
    list of its service name (and, the index being sound, is then listed
    nowhere), and a delete for it is sent to the durable store when one
    is configured. The loop ticks every 10 seconds. So a peer that
    registers at time 0 in an empty registry and sends nothing more is
    gone after the tick at 95 s, and a find with the empty query then
    answers success with no provider. *)
Theorem eviction_tick_removes_stale `{Libs} (r : RegistryNode) (now : Z)
    (entries : list (string * RegistrationRecord.t)) :
  entries ≡ₚ map_to_list (Registrations r) →
  let r' := (gcTickIn entries now r).1 in
  let tr := (gcTickIn entries now r).2 in
  (∀ pid record,
     Registrations r' !! pid = Some record ↔
     Registrations r !! pid = Some record
     ∧ now - RegistrationRecord.LastSeen record ≤ 90 * Go.Second)
  ∧ (∀ pid record,
       Registrations r !! pid = Some record →
       90 * Go.Second < now - RegistrationRecord.LastSeen record →
       Registrations r' !! pid = None
       ∧ ¬ listed r' (ServiceCard.Name (RegistrationRecord.ServiceCard record)) pid
       ∧ (InvariantB r → ∀ n, ¬ listed r' n pid)
       ∧ (∀ st, storage_ r = Some st →
            RedisDelete pid (ServiceCard.Name (RegistrationRecord.ServiceCard record)) ∈ tr))
  ∧ (∀ n pid record,
       Registrations r !! pid = Some record →
       now - RegistrationRecord.LastSeen record ≤ 90 * Go.Second →
       (listed r' n pid ↔ listed r n pid))
  ∧ (∀ t, staleb now t = true ↔ 90 * Go.Second < now - t)
  ∧ gcInterval = 10 * Go.Second
  ∧ (∀ h m q s remotePeer req client now2 findReq,
       RegistryRequest.Method findReq = "find" →
       RegistryRequest.Query findReq = "" →
       let r1 := (handleStream (newRegistryNode h m q s) remotePeer 0 req).1.1 in
       let r2 := (gcTick (95 * Go.Second) r1).1 in
       Registrations r2 !! remotePeer = None
       ∧ (handleStream r2 client now2 findReq).1
         = (r2, {| RegistryResponse.Success := true; RegistryResponse.Providers := [];
                   RegistryResponse.Error := "" |})).
Proof.
  intros Hperm r' tr.
  destruct (gcTickIn_state entries now r Hperm) as (Hregs & Hlist & _).
  fold r' in Hregs, Hlist.
  split; [|split; [|split; [|split; [|split]]]].
  - intros pid record. rewrite Hregs. unfold stale. by rewrite Z.nlt_ge.
  - intros pid record Hr Hst.
    assert (Hnone : Registrations r' !! pid = None).
    { destruct (Registrations r' !! pid) as [record'|] eqn:Hr'; [|done].
      apply Hregs in Hr' as [Hr' Hns]. rewrite Hr in Hr'. injection Hr' as <-.
      by destruct Hns. }
    split; [exact Hnone|]. split; [|split].
    + intros Hl. apply Hlist in Hl as [_ Hno]. apply Hno. by exists record.
    + intros HB n Hl. apply Hlist in Hl as [Hl Hno].
      destruct (proj1 (InvariantB_listed r) HB n pid Hl) as (record' & Hr' & Hn).
      apply Hno. exists record'. rewrite Hr in Hr'. injection Hr' as <-. done.
    + intros st Hst'. unfold tr. rewrite gcTickIn_snd, Hst'.
      apply elem_of_app. right. apply elem_of_app. left.
      apply list_elem_of_bind. exists (pid, record). split.
      * unfold evicts. cbn [fst snd].
        rewrite (proj2 (staleb_stale now _) Hst). apply list_elem_of_singleton. done.
      * rewrite Hperm. by apply elem_of_map_to_list.
  - intros n pid record Hr Hfresh. rewrite Hlist. split; [by intros [? _]|].
    intros Hl. split; [done|]. intros (record' & Hr' & Hst & _).
    rewrite Hr in Hr'. injection Hr' as <-. unfold stale in Hst. lia.
  - intros t. apply staleb_stale.
  - reflexivity.
  - intros h m q s remotePeer req client now2 findReq Hm Hq r1 r2.
    assert (Hempty : Registrations r2 = ∅).
    { apply map_eq. intros pid. rewrite lookup_empty.
      destruct (Registrations r2 !! pid) as [record|] eqn:Hr2; [|done].
      exfalso.
      destruct (gcTickIn_state (map_to_list (Registrations r1)) (95 * Go.Second) r1
                  ltac:(done)) as (Hregs2 & _).
      apply Hregs2 in Hr2 as [Hr1 Hns].
      apply handleStream_lastSeen in Hr1 as [Hr0|Hls].
      - cbn in Hr0. by rewrite lookup_empty in Hr0.
      - apply Hns. unfold stale, Go.Second. rewrite Hls. lia. }
    split; [by rewrite Hempty, lookup_empty|].
    unfold handleStream. rewrite Hm, Hq.
    rewrite bool_decide_eq_false_2 by done. rewrite bool_decide_eq_true_2 by done.
    cbn [fst]. f_equal. unfold respSuccess. f_equal. by apply findIn_no_records.
Qed.

Lemma eviction_tick_removes_stale_witness :
  let r := (@handleStream Scenario.libs Scenario.emptyStored "peerA" 0
              (Scenario.register "math" (Some (Scenario.proof "tx1" 1 10))
                 (Some (Scenario.addrOf "peerA")))).1.1 in
  let now := 95 * Go.Second in
  is_Some (Registrations r !! "peerA")
  ∧ Registrations (gcTick now r).1 !! "peerA" = None
  ∧ (∀ n, ¬ listed (gcTick now r).1 n "peerA")
  ∧ RedisDelete "peerA" "math" ∈ (gcTick now r).2
  ∧ (@handleStream Scenario.libs (gcTick now r).1 "client" now (Scenario.find "")).1.2
    = respSuccess [].
Proof.
  intros r now.
  set (record := {| RegistrationRecord.LastSeen := 0;
                    RegistrationRecord.ServiceCard := Scenario.card "math";
                    RegistrationRecord.StakeProof := Some (Scenario.proof "tx1" 1 10);
                    RegistrationRecord.AddrInfo := Scenario.addrOf "peerA" |}).
  assert (Hr : Registrations r !! "peerA" = Some record) by (vm_compute; reflexivity).
  assert (HB : InvariantB r).
  { apply (@invariants_along_run Scenario.libs _ _ _ _
             [Request "peerA" 0
                (Scenario.register "math" (Some (Scenario.proof "tx1" 1 10))
                   (Some (Scenario.addrOf "peerA")))]). }
  destruct (@eviction_tick_removes_stale Scenario.libs r now
              (map_to_list (Registrations r)) ltac:(reflexivity))
    as (_ & Hgone & _ & _ & _ & Hscenario).
  destruct (Hgone "peerA" record Hr ltac:(vm_compute; reflexivity))
    as (Hnone & _ & Hnowhere & Hdelete).
  split; [by rewrite Hr|]. split; [exact Hnone|].
  split; [exact (Hnowhere HB)|].
  split; [exact (Hdelete _ eq_refl)|].
  destruct (Hscenario Scenario.h (Go.float64_of_Z 10)
              (Some {| BaseURL := "http://localhost:6333"; Collection := "prxs_services" |})
              (Some {| storage.ttl := 120 * Go.Second |}) "peerA"
              (Scenario.register "math" (Some (Scenario.proof "tx1" 1 10))
                 (Some (Scenario.addrOf "peerA")))
              "client" now (Scenario.find "") eq_refl eq_refl) as [_ Hfind].
  exact (f_equal snd Hfind).
Defined.

(* ===================================================================== *)
(** * Find *)
(* ===================================================================== *)

Section Find.
Context `{Libs}.

Lemma findPeers_bind (r : RegistryNode) (results : list peer.AddrInfo.t)
    (peerIDs : list string) :
  findPeers r results peerIDs = results ++ (peerIDs ≫= providerOf r).
Proof.
  unfold findPeers. revert results.
  induction peerIDs as [|pid peerIDs IH]; intros results.
  - cbn [foldl]. symmetry. apply app_nil_r.
  - cbn [foldl]. rewrite IH, bind_cons. unfold providerOf at 2.
    destruct (Registrations r !! pid); [|done]. by rewrite <- app_assoc.
Qed.

Lemma findIn_bind (r : RegistryNode) (query : string)
    (entries : list (string * list string)) :
  findIn r query entries = matchingPairs query entries ≫= λ np, providerOf r np.2.
Proof.
  unfold findIn, matchingPairs.
  assert (Hgen : ∀ results,
    foldl (λ results '(name, peerIDs),
             if Go.Contains (ToLower name) query
             then findPeers r results peerIDs else results) results entries
    = results ++ ((entries ≫= λ '(name, peerIDs),
                     if Go.Contains (ToLower name) query
                     then (λ pid, (name, pid)) <$> peerIDs else [])
                  ≫= λ np, providerOf r np.2)).
  { induction entries as [|[name pids] entries IH]; intros results.
    - cbn [foldl]. symmetry. apply app_nil_r.
    - cbn [foldl]. rewrite IH, bind_cons, bind_app.
      destruct (Go.Contains (ToLower name) query).
      + rewrite findPeers_bind, <- app_assoc. f_equal. f_equal.
        clear. induction pids as [|p pids IHp]; [done|].
        rewrite fmap_cons, !bind_cons. cbn [snd]. by rewrite IHp.
      + done. }
  apply (Hgen []).
Qed.

Lemma elem_of_matchingPairs (query : string) (entries : list (string * list string))
    (n p : string) :
  (n, p) ∈ matchingPairs query entries ↔
  Go.Contains (ToLower n) query = true ∧ ∃ pids, (n, pids) ∈ entries ∧ p ∈ pids.
Proof.
  unfold matchingPairs. rewrite list_elem_of_bind. split.
  - intros ([name pids] & Hin & Hent).
    destruct (Go.Contains (ToLower name) query) eqn:Hc; [|by apply elem_of_nil in Hin].
    apply list_elem_of_fmap in Hin as (pid & [= -> ->] & Hpid). eauto.
  - intros (Hc & pids & Hent & Hp). exists (n, pids). split; [|done].
    rewrite Hc. apply list_elem_of_fmap. eauto.
Qed.

(** In a state that satisfies Invariants A and B and whose index lists
    have no duplicates, [find] returns, in some order, exactly the
    addresses of the records whose lowered service name contains the
    lowered query — in whatever order the loop visits the index. *)
Lemma find_exact_when_invariants_hold (r : RegistryNode) (query : string)
    (entries : list (string * list string)) :
  entries ≡ₚ map_to_list (ServiceIndex r) →
  IndexSound r → InvariantA r →
  findIn r (ToLower query) entries ≡ₚ matchingProviders r query.
Proof.
  intros Hperm [HB Hnd] HA.
  pose proof (proj1 (InvariantA_listed r Hnd) HA) as HAl.
  pose proof (proj1 (InvariantB_listed r) HB) as HBl.
  assert (Hent : ∀ n pids, (n, pids) ∈ entries ↔ ServiceIndex r !! n = Some pids).
  { intros n pids. rewrite Hperm. apply elem_of_map_to_list. }
  rewrite findIn_bind. unfold matchingProviders.
  set (Q := λ kv : string * RegistrationRecord.t,
              Go.Contains (ToLower (ServiceCard.Name (RegistrationRecord.ServiceCard kv.2)))
                          (ToLower query) = true).
  set (T := filter Q (map_to_list (Registrations r))).
  set (g := λ kv : string * RegistrationRecord.t,
              (ServiceCard.Name (RegistrationRecord.ServiceCard kv.2), kv.1)).
  assert (HT : ∀ kv, kv ∈ T → Registrations r !! kv.1 = Some kv.2).
  { intros [p rec] Hin. apply list_elem_of_filter in Hin as [_ Hin].
    by apply elem_of_map_to_list in Hin. }
  trans ((g <$> T) ≫= λ np, providerOf r np.2).
  - apply bind_Permutation. apply NoDup_Permutation.
    + unfold matchingPairs. apply NoDup_bind.
      * intros [n1 l1] [n2 l2] [n p] Hin1 Hin2 Hy1 Hy2.
        destruct (Go.Contains (ToLower n1) _); [|by apply elem_of_nil in Hy1].
        destruct (Go.Contains (ToLower n2) _); [|by apply elem_of_nil in Hy2].
        apply list_elem_of_fmap in Hy1 as (? & [= -> ->] & _).
        apply list_elem_of_fmap in Hy2 as (? & [= -> _] & _).
        apply Hent in Hin1, Hin2. congruence.
      * intros [n l] Hin. destruct (Go.Contains _ _); [|apply NoDup_nil_2].
        apply NoDup_fmap_2; [by intros ?? [= ->]|].
        apply (Hnd n). by apply Hent.
      * rewrite Hperm. apply NoDup_map_to_list.
    + apply NoDup_fmap_2_strong; [|apply NoDup_filter, NoDup_map_to_list].
      intros [p1 rec1] [p2 rec2] Hin1 Hin2 [= Hn ->].
      apply HT in Hin1, Hin2. cbn in Hin1, Hin2. congruence.
    + intros [n p]. rewrite elem_of_matchingPairs, list_elem_of_fmap. split.
      * intros (Hc & pids & Hin & Hp).
        destruct (HBl n p) as (rec & Hr & Hn); [exists pids; by rewrite <- Hent|].
        exists (p, rec). split; [unfold g; cbn; by rewrite Hn|].
        apply list_elem_of_filter. split; [unfold Q; cbn; by rewrite Hn|].
        by apply elem_of_map_to_list.
      * intros ([p' rec] & [= -> ->] & Hin).
        pose proof (HT _ Hin) as Hr. cbn in Hr.
        apply list_elem_of_filter in Hin as [Hq _]. split; [exact Hq|].
        destruct (HAl _ _ Hr) as (pids & Hl & Hp). exists pids.
        split; [by apply Hent|done].
  - apply reflexive_eq.
    clearbody T. clear -HT. induction T as [|[p rec] T IH]; [done|].
    rewrite !fmap_cons, bind_cons. cbn [snd fst g].
    pose proof (HT (p, rec) ltac:(apply elem_of_cons; by left)) as Hp. cbn in Hp.
    unfold providerOf at 1. rewrite Hp.
    cbn [app]. f_equal. apply IH. intros kv Hkv. apply HT, elem_of_cons. by right.
Qed.

End Find.

(** C6 fails on the code in the state in which Invariant A is broken: a
    peer registers "math" with provider_info and then, with a fresh stake
    proof, "math2" without provider_info. The peer has a record for
    "math" but is listed nowhere, so a find with the empty query (or with
    "math") returns no provider, where the claim has the address of the
    peer. *)
Theorem find_misses_unlisted_record :
  let ops := [Request "peerA" 0
                (Scenario.register "math" (Some (Scenario.proof "tx1" 1 10))
                   (Some (Scenario.addrOf "peerA")));
              Request "peerA" Go.Second
                (Scenario.register "math2" (Some (Scenario.proof "tx2" 1 10)) None)] in
  let r := @run Scenario.libs Scenario.empty ops in
  @matchingProviders Scenario.libs r "" = [Scenario.addrOf "peerA"]
  ∧ (@handleStream Scenario.libs r "client" (2 * Go.Second) (Scenario.find "")).1.2
    = respSuccess []
  ∧ (@handleStream Scenario.libs r "client" (2 * Go.Second) (Scenario.find "math")).1.2
    = respSuccess [].
Proof. vm_compute. done. Qed.

(* ===================================================================== *)
(** * Restore *)
(* ===================================================================== *)

Section Restore.
Context `{Libs}.

Lemma restoreKey_restored (db : storage.RedisView) (now : Z)
    (registrations : gmap string storage.RegistrationRecord.t) (key : string) :
  restoreKey db now registrations key
  = match restored db now key with
    | Some (pid, record) => <[pid := record]> registrations
    | None => registrations
    end.
Proof.
  unfold restoreKey, restored, staleb.
  by repeat case_match.
Qed.

Lemma restored_holds (db : storage.RedisView) (now : Z) (key pid : string)
    (record : storage.RegistrationRecord.t) :
  restored db now key = Some (pid, record) ↔
  holds db key pid record
  ∧ ¬ stale now (storage.RegistrationRecord.LastSeen record).
Proof.
  unfold restored, holds. rewrite <- staleb_stale. split.
  - intros Hr. destruct (storage.get db key) as [data|] eqn:Hg; [|done].
    destruct (json_Unmarshal data) as [rec|] eqn:Hu; [|done].
    destruct (staleb now _) eqn:Hst; [done|].
    destruct (peer_Decode _) as [p|] eqn:Hd; [|done].
    injection Hr as -> ->. split; [by exists data|]. by rewrite Hst.
  - intros [(data & -> & -> & ->) Hst].
    by destruct (staleb now _).
Qed.

(** The map the loop over the scanned keys builds. *)
Lemma foldl_restoreKey (db : storage.RedisView) (now : Z) (keys : list string)
    (pid : string) :
  let records := foldl (restoreKey db now) ∅ keys in
  (∀ record, records !! pid = Some record →
     ∃ key, key ∈ keys ∧ restored db now key = Some (pid, record))
  ∧ (∀ key record, key ∈ keys → restored db now key = Some (pid, record) →
       is_Some (records !! pid)).
Proof.
  induction keys as [|key keys IH] using rev_ind; intros records.
  - split; [done|]. intros key record Hin. by apply elem_of_nil in Hin.
  - unfold records. rewrite foldl_app. cbn [foldl]. rewrite restoreKey_restored.
    destruct IH as [IH1 IH2].
    destruct (restored db now key) as [[p rec]|] eqn:Hkey.
    + destruct (decide (p = pid)) as [->|Hne].
      * rewrite lookup_insert_eq. split.
        -- intros record [= <-]. exists key. split; [|done].
           apply elem_of_app. right. by apply list_elem_of_singleton.
        -- eauto.
      * rewrite lookup_insert_ne by done. split.
        -- intros record Hr. destruct (IH1 record Hr) as (key' & Hin & Hk).
           exists key'. split; [|done]. apply elem_of_app. by left.
        -- intros key' record Hin Hk. apply elem_of_app in Hin as [Hin|Hin].
           ++ by eapply IH2.
           ++ apply list_elem_of_singleton in Hin as ->. congruence.
    + split.
      * intros record Hr. destruct (IH1 record Hr) as (key' & Hin & Hk).
        exists key'. split; [|done]. apply elem_of_app. by left.
      * intros key' record Hin Hk. apply elem_of_app in Hin as [Hin|Hin].
        -- by eapply IH2.
        -- apply list_elem_of_singleton in Hin as ->. congruence.
Qed.

Lemma restoreVisit_frame (r : RegistryNode)
    (entry : string * storage.RegistrationRecord.t) :
  Registrations (restoreVisit r entry)
  = <[entry.1 := convertFromStorageRecord entry.2]> (Registrations r)
  ∧ (IndexNoDup r → IndexNoDup (restoreVisit r entry))
  ∧ ∀ n p, listed (restoreVisit r entry) n p ↔
           listed r n p
           ∨ (n = ServiceCard.Name (storage.RegistrationRecord.ServiceCard entry.2)
              ∧ p = entry.1).
Proof.
  destruct entry as [pid srec]. unfold restoreVisit. cbn [fst snd].
  lazymatch goal with
  | |- context [addToIndex ?a ?b ?c] =>
    destruct (addToIndex_frame a b c) as (-> & _ & _)
  end.
  split; [done|]. split.
  - intros Hnd. by apply IndexNoDup_addToIndex.
  - intros n p. by rewrite listed_addToIndex.
Qed.

(** The state the loop over the restored records builds. *)
Lemma foldl_restoreVisit (l : list (string * storage.RegistrationRecord.t))
    (r : RegistryNode) :
  NoDup l.*1 →
  let r' := foldl restoreVisit r l in
  (∀ pid record,
     Registrations r' !! pid = Some record ↔
     (∃ srec, (pid, srec) ∈ l ∧ record = convertFromStorageRecord srec)
     ∨ ((pid ∉ l.*1) ∧ Registrations r !! pid = Some record))
  ∧ (IndexNoDup r → IndexNoDup r')
  ∧ (∀ n p, listed r' n p ↔
            listed r n p
            ∨ ∃ srec, (p, srec) ∈ l
                      ∧ n = ServiceCard.Name (storage.RegistrationRecord.ServiceCard srec)).
Proof.
  revert r. induction l as [|[pid0 srec0] l IH]; intros r Hnd r'.
  - split; [|split; [done|]].
    + intros pid record. split; [intros Hr; right; split; [apply not_elem_of_nil|done]|].
      intros [(srec & Hin & _)|[_ Hr]]; [by apply elem_of_nil in Hin|done].
    + intros n p. split; [by left|]. intros [Hl|(srec & Hin & _)]; [done|].
      by apply elem_of_nil in Hin.
  - rewrite fmap_cons in Hnd. apply NoDup_cons in Hnd as [Hnin Hnd].
    unfold r'. cbn [foldl].
    destruct (IH (restoreVisit r (pid0, srec0)) Hnd) as (Hregs & Hndi & Hlist).
    destruct (restoreVisit_frame r (pid0, srec0)) as (Hr1 & Hnd1 & Hl1).
    cbn [fst snd] in Hr1, Hl1.
    split; [|split].
    + intros pid record. rewrite Hregs, Hr1. split.
      * intros [(srec & Hin & ->)|[Hnot Hr]].
        -- left. exists srec. split; [|done]. apply elem_of_cons. by right.
        -- destruct (decide (pid0 = pid)) as [->|Hne].
           ++ rewrite lookup_insert_eq in Hr. injection Hr as <-.
              left. exists srec0. split; [|done]. apply elem_of_cons. by left.
           ++ rewrite lookup_insert_ne in Hr by done. right. split; [|done].
              rewrite fmap_cons. apply not_elem_of_cons. by split.
      * intros [(srec & Hin & ->)|[Hnot Hr]].
        -- apply elem_of_cons in Hin as [[= -> ->]|Hin].
           ++ right. split; [done|]. by rewrite lookup_insert_eq.
           ++ left. by exists srec.
        -- rewrite fmap_cons in Hnot. apply not_elem_of_cons in Hnot as [Hne Hnot].
           right. split; [done|]. by rewrite lookup_insert_ne.
    + intros Hndr. by apply Hndi, Hnd1.
    + intros n p. rewrite Hlist, Hl1. split.
      * intros [[Hl|[-> ->]]|(srec & Hin & ->)].
        -- by left.
        -- right. exists srec0. split; [|done]. apply elem_of_cons. by left.
        -- right. exists srec. split; [|done]. apply elem_of_cons. by right.
      * intros [Hl|(srec & Hin & ->)]; [by left; left|].
        apply elem_of_cons in Hin as [[= -> ->]|Hin].
        -- left. by right.
        -- right. by exists srec.
Qed.

(** The state after the restore at startup, in terms of the map
    [RestoreAllRegistrations] returned. *)
Lemma restoreStateFromRedis_state (h : host.Host) (m : spec_float)
    (q : option QdrantClient) (st : storage.RedisStorage) (db : storage.RedisView)
    (now : Z) :
  storage.scan_err db = None →
  let records := foldl (restoreKey db now) ∅ (storage.scan_keys db) in
  let r' := (restoreStateFromRedis (newRegistryNode h m q (Some st)) db now).1.1 in
  (restoreStateFromRedis (newRegistryNode h m q (Some st)) db now).1.2 = None
  ∧ (∀ pid record,
       Registrations r' !! pid = Some record ↔
       ∃ srec, records !! pid = Some srec ∧ record = convertFromStorageRecord srec)
  ∧ IndexNoDup r'
  ∧ (∀ n p, listed r' n p ↔
            ∃ srec, records !! p = Some srec
                    ∧ n = ServiceCard.Name (storage.RegistrationRecord.ServiceCard srec)).
Proof.
  intros Herr records r'. unfold r'. clear r'.
  unfold restoreStateFromRedis, storage_RestoreAllRegistrations.
  cbn [storage_ newRegistryNode]. rewrite Herr. fold records.
  destruct (IndexSound_empty h m q (Some st)) as [[_ Hnd0] _].
  case_bool_decide as Hsize; cbn [fst snd].
  - apply map_size_empty_iff in Hsize. rewrite Hsize.
    split; [done|]. split; [|split; [exact Hnd0|]].
    + intros pid record. cbn [Registrations newRegistryNode].
      rewrite lookup_empty. split; [done|]. intros (srec & Hs & _).
      by rewrite lookup_empty in Hs.
    + intros n p. split.
      * intros (l & Hl & _). cbn in Hl. by rewrite lookup_empty in Hl.
      * intros (srec & Hs & _). by rewrite lookup_empty in Hs.
  - destruct (foldl_restoreVisit (map_to_list records) (newRegistryNode h m q (Some st))
                (NoDup_fst_map_to_list records)) as (Hregs & Hnd & Hlist).
    split; [done|]. split; [|split; [by apply Hnd|]].
    + intros pid record. rewrite Hregs. split.
      * intros [(srec & Hin & ->)|[_ Hr]].
        -- exists srec. split; [|done]. by apply elem_of_map_to_list.
        -- cbn in Hr. by rewrite lookup_empty in Hr.
      * intros (srec & Hs & ->). left. exists srec. split; [|done].
        by apply elem_of_map_to_list.
    + intros n p. rewrite Hlist. split.
      * intros [(l & Hl & _)|(srec & Hin & ->)].
        -- cbn in Hl. by rewrite lookup_empty in Hl.
        -- exists srec. split; [|done]. by apply elem_of_map_to_list.
      * intros (srec & Hs & ->). right. exists srec. split; [|done].
        by apply elem_of_map_to_list.
Qed.

End Restore.

(** C7. At startup with a durable store configured (and a scan that ends
    without an error), the restore installs, for every peer, a stored
    record of that peer that is at most 90 seconds old, and lists the
    peer under the service name of that record; it installs nothing
    else, so no record older than 90 seconds is in the restored state.
    When the scanned keys hold one record of a peer, that record is
    installed if it is at most 90 seconds old and skipped if it is
    older. Invariants A and B hold in the restored state. *)
Theorem restore_installs_fresh_records `{Libs} (h : host.Host) (m : spec_float)
    (q : option QdrantClient) (st : storage.RedisStorage) (db : storage.RedisView)
    (now : Z) :
  storage.scan_err db = None →
  let r' := (restoreStateFromRedis (newRegistryNode h m q (Some st)) db now).1.1 in
  (restoreStateFromRedis (newRegistryNode h m q (Some st)) db now).1.2 = None
  ∧ (∀ pid record,
       Registrations r' !! pid = Some record →
       now - RegistrationRecord.LastSeen record ≤ 90 * Go.Second
       ∧ listed r' (ServiceCard.Name (RegistrationRecord.ServiceCard record)) pid
       ∧ ∃ key srec, key ∈ storage.scan_keys db ∧ holds db key pid srec
                     ∧ record = convertFromStorageRecord srec)
  ∧ (∀ key pid srec,
       key ∈ storage.scan_keys db → holds db key pid srec →
       (∀ key' srec', key' ∈ storage.scan_keys db → holds db key' pid srec' →
          srec' = srec) →
       (90 * Go.Second < now - storage.RegistrationRecord.LastSeen srec →
          Registrations r' !! pid = None)
       ∧ (now - storage.RegistrationRecord.LastSeen srec ≤ 90 * Go.Second →
            Registrations r' !! pid = Some (convertFromStorageRecord srec)
            ∧ listed r' (ServiceCard.Name (storage.RegistrationRecord.ServiceCard srec)) pid))
  ∧ InvariantA r' ∧ InvariantB r'.
Proof.
  intros Herr r'.
  destruct (restoreStateFromRedis_state h m q st db now Herr)
    as (Hok & Hregs & Hnd & Hlist).
  fold r' in Hregs, Hnd, Hlist.
  set (records := foldl (restoreKey db now) ∅ (storage.scan_keys db)) in *.
  assert (Hfrom : ∀ pid srec, records !! pid = Some srec →
            ∃ key, key ∈ storage.scan_keys db ∧ holds db key pid srec
                   ∧ ¬ stale now (storage.RegistrationRecord.LastSeen srec)).
  { intros pid srec Hs.
    destruct (foldl_restoreKey db now (storage.scan_keys db) pid) as [H1 _].
    destruct (H1 srec Hs) as (key & Hin & Hk).
    apply restored_holds in Hk as [Hh Hns]. eauto. }
  split; [exact Hok|]. split; [|split; [|split]].
  - intros pid record Hr. apply Hregs in Hr as (srec & Hs & ->).
    destruct (Hfrom pid srec Hs) as (key & Hin & Hh & Hns).
    split; [unfold stale in Hns; cbn; lia|]. split; [|eauto].
    apply Hlist. by exists srec.
  - intros key pid srec Hin Hh Huniq. split.
    + intros Hst. destruct (Registrations r' !! pid) as [record|] eqn:Hr; [|done].
      apply Hregs in Hr as (srec' & Hs & ->).
      destruct (Hfrom pid srec' Hs) as (key' & Hin' & Hh' & Hns).
      rewrite (Huniq key' srec' Hin' Hh') in Hns. by destruct Hns.
    + intros Hfresh.
      destruct (foldl_restoreKey db now (storage.scan_keys db) pid) as [_ H2].
      destruct (H2 key srec Hin) as [srec' Hs].
      { apply restored_holds. split; [done|]. unfold stale. lia. }
      fold records in Hs.
      destruct (Hfrom pid srec' Hs) as (key' & Hin' & Hh' & _).
      rewrite (Huniq key' srec' Hin' Hh') in Hs.
      split; [apply Hregs; by exists srec|]. apply Hlist. by exists srec.
  - apply InvariantA_listed; [exact Hnd|].
    intros pid record Hr. apply Hregs in Hr as (srec & Hs & ->).
    apply Hlist. by exists srec.
  - apply InvariantB_listed. intros n p Hl. apply Hlist in Hl as (srec & Hs & ->).
    exists (convertFromStorageRecord srec). split; [|done]. apply Hregs. by exists srec.
Qed.

(** The scenario S6: at time 100 s the store holds a record of peerA last
    seen at 70 s and a record of peerB last seen at -20 s. *)
Lemma restore_installs_fresh_records_witness :
  let db := {| storage.scan_keys := ["registration:peerA"; "registration:peerB"];
               storage.scan_err := None;
               storage.get := λ key,
                 if bool_decide (key = "registration:peerA") then Some "record-of-peerA"
                 else if bool_decide (key = "registration:peerB") then Some "record-of-peerB"
                 else None |} in
  let now := 100 * Go.Second in
  let r' := (@restoreStateFromRedis Scenario.libs
               (newRegistryNode Scenario.h (Go.float64_of_Z 10) None
                  (Some {| storage.ttl := 120 * Go.Second |})) db now).1.1 in
  storage.scan_err db = None
  ∧ Registrations r' !! "peerA"
    = Some (convertFromStorageRecord (Scenario.stored (70 * Go.Second) "peerA" "math"))
  ∧ listed r' "math" "peerA"
  ∧ Registrations r' !! "peerB" = None
  ∧ InvariantA r' ∧ InvariantB r'.
Proof.
  intros db now r'.
  destruct (@restore_installs_fresh_records Scenario.libs Scenario.h (Go.float64_of_Z 10)
              None {| storage.ttl := 120 * Go.Second |} db now eq_refl)
    as (_ & _ & Hkeys & HA & HB).
  fold r' in Hkeys, HA, HB.
  assert (Hone : ∀ pid key srec,
            (key = "registration:peerA" ∧ pid = "peerA"
             ∧ srec = Scenario.stored (70 * Go.Second) "peerA" "math")
            ∨ (key = "registration:peerB" ∧ pid = "peerB"
               ∧ srec = Scenario.stored (-20 * Go.Second) "peerB" "echo") →
            ∀ key' srec', key' ∈ storage.scan_keys db →
              @holds Scenario.libs db key' pid srec' → srec' = srec).
  { intros pid key srec Hcase key' srec' Hin (data & Hg & Hu & Hd).
    cbn [storage.scan_keys db] in Hin.
    apply elem_of_cons in Hin as [->|Hin].
    - vm_compute in Hg. injection Hg as <-. vm_compute in Hu, Hd.
      destruct Hcase as [(_ & -> & ->)|(_ & -> & _)]; [by injection Hu|done].
    - apply list_elem_of_singleton in Hin as ->.
      vm_compute in Hg. injection Hg as <-. vm_compute in Hu, Hd.
      destruct Hcase as [(_ & -> & _)|(_ & -> & ->)]; [done|by injection Hu]. }
  destruct (Hkeys "registration:peerA" "peerA"
              (Scenario.stored (70 * Go.Second) "peerA" "math"))
    as [_ Hfresh].
  { apply elem_of_cons. by left. }
  { exists "record-of-peerA". by vm_compute. }
  { apply (Hone "peerA" "registration:peerA"). left. done. }
  destruct (Hkeys "registration:peerB" "peerB"
              (Scenario.stored (-20 * Go.Second) "peerB" "echo"))
    as [Hstale _].
  { apply elem_of_cons. right. apply elem_of_cons. by left. }
  { exists "record-of-peerB". by vm_compute. }
  { apply (Hone "peerB" "registration:peerB"). right. done. }
  destruct Hfresh as [Hr Hl]; [vm_compute; discriminate|].
  split; [reflexivity|]. split; [exact Hr|]. split; [exact Hl|].
  split; [apply Hstale; vm_compute; reflexivity|].
  split; [exact HA|exact HB].
Defined.

(* ===================================================================== *)
(** * External calls and the state mutex *)
(* ===================================================================== *)

Section Calls.
Context `{Libs}.

Lemma storage_SaveRegistration_cases (s : option storage.RedisStorage) (pid : string)
    (record : storage.RegistrationRecord.t) :
  storage_SaveRegistration s pid record = []
  ∨ storage_SaveRegistration s pid record = [RedisSave pid record].
Proof. destruct s; auto. Qed.

(** The trace of the branch "new registration": nothing, or the replay
    check alone, or the replay check followed by the critical section —
    with at most one save in it — and at most one upsert after it. *)
Lemma handleNewRegistration_trace (r : RegistryNode) (remotePeer : peer.ID) (now : Z)
    (req : RegistryRequest.t) (existing : option RegistrationRecord.t) :
  let tr := (handleNewRegistration r remotePeer now req existing).2 in
  tr = [] ∨ tr = [StakeMuLock; StakeMuUnlock]
  ∨ ∃ saved indexed,
      tr = [StakeMuLock; StakeMuUnlock; MuLock] ++ saved ++ [MuUnlock] ++ indexed
      ∧ (saved = [] ∨ ∃ pid record, saved = [RedisSave pid record])
      ∧ (indexed = [] ∨ ∃ id vector, indexed = [QdrantUpsert id vector]).
Proof.
  unfold handleNewRegistration.
  destruct (checkStakeValidity _ _ _); [by left|].
  destruct (RegistryRequest.StakeProof req) as [proof|]; [|by left].
  destruct (default false _); [right; by left|].
  right. right.
  match goal with
  | |- context [let '(r, saved) := ?body in _] => destruct body as [r' saved] eqn:Hbody
  end.
  cbn [snd]. exists saved. eexists. split; [reflexivity|]. split.
  - destruct (RegistryRequest.ProviderInfo req) as [info|].
    + injection Hbody as _ <-.
      lazymatch goal with
      | |- context [storage_SaveRegistration ?a ?b ?c] =>
        destruct (storage_SaveRegistration_cases a b c) as [->| ->];
          [by left|right; by eexists _, _]
      end.
    + injection Hbody as _ <-. by left.
  - destruct (qdrant r'); [|by left].
    destruct (0 <? length _)%nat; [right; by eexists _, _|by left].
Qed.

Lemma handleStream_calls (r : RegistryNode) (remotePeer : peer.ID) (now : Z)
    (req : RegistryRequest.t) :
  callsWhen isIndexCall false false (handleStream r remotePeer now req).2 = true
  ∧ callsWhen isStoreWrite true false (handleStream r remotePeer now req).2 = true.
Proof.
  unfold handleStream. case_bool_decide as Hreg; [|by case_bool_decide].
  destruct (isHeartbeat _ _).
  - unfold handleHeartbeat. destruct (Registrations r !! remotePeer) as [entry|]; [|done].
    cbn [snd]. by destruct (storage_ r).
  - pose proof (handleNewRegistration_trace r remotePeer now req
                  (Registrations r !! remotePeer)) as Htr.
    destruct (handleNewRegistration _ _ _ _ _) as [[r' resp] tr]. cbn [snd] in *.
    destruct Htr as [->|[->|(saved & indexed & -> & Hs & Hi)]]; [done..|].
    destruct Hs as [->|(p & rec & ->)]; destruct Hi as [->|(id & v & ->)]; done.
Qed.

(** The deletes of a tick are all sent between the lock and the unlock. *)
Lemma gcTickIn_calls (entries : list (string * RegistrationRecord.t)) (now : Z)
    (r : RegistryNode) :
  callsWhen isIndexCall false false (gcTickIn entries now r).2 = true
  ∧ callsWhen isStoreWrite true false (gcTickIn entries now r).2 = true.
Proof.
  rewrite gcTickIn_snd. cbn [app callsWhen isIndexCall isStoreWrite andb].
  induction entries as [|[pid record] entries IH]; [done|].
  rewrite bind_cons. destruct (evicts now (pid, record)); [|exact IH].
  destruct (storage_ r); [|exact IH]. exact IH.
Qed.

End Calls.

(** C10 (as amended). Vector-index calls are made with the state mutex
    released. Durable-store writes are made with the state mutex held:
    the save of the heartbeat path, the save of the new-registration
    path and the deletes of the eviction loop all fall between the lock
    and the unlock of [r.mu]. The read of the restore is made before the
    mutex is taken. *)
Theorem store_calls_inside_index_calls_outside_mutex `{Libs} (r : RegistryNode) :
  (∀ op,
     callsWhen isIndexCall false false (stepTrace r op) = true
     ∧ callsWhen isStoreWrite true false (stepTrace r op) = true)
  ∧ (∀ entries now,
       callsWhen isIndexCall false false (gcTickIn entries now r).2 = true
       ∧ callsWhen isStoreWrite true false (gcTickIn entries now r).2 = true)
  ∧ (∀ db now,
       callsWhen isExternalCall false false (restoreStateFromRedis r db now).2 = true).
Proof.
  split; [|split].
  - intros [remotePeer now req|now]; cbn [stepTrace].
    + apply handleStream_calls.
    + apply gcTickIn_calls.
  - intros entries now. apply gcTickIn_calls.
  - intros db now. unfold restoreStateFromRedis.
    destruct (storage_ r); [|done].
    destruct (storage_RestoreAllRegistrations _ _ _) as [records [err|]]; [done|].
    by case_bool_decide.
Qed.

(** C10 as stated fails with a durable store configured: the save of a
    new registration, the save of a heartbeat and the delete of an
    eviction are each made while the state mutex is held. *)
Lemma store_calls_made_under_mutex :
  let register := Request "peerA" 0
                    (Scenario.register "math" (Some (Scenario.proof "tx1" 1 10))
                       (Some (Scenario.addrOf "peerA"))) in
  let heartbeat := Request "peerA" (30 * Go.Second)
                     (Scenario.register "math" (Some (Scenario.proof "tx1" 1 10)) None) in
  let r1 := @step Scenario.libs Scenario.emptyStored register in
  callsWhen isExternalCall false false
    (@stepTrace Scenario.libs Scenario.emptyStored register) = false
  ∧ callsWhen isExternalCall false false (@stepTrace Scenario.libs r1 heartbeat) = false
  ∧ callsWhen isExternalCall false false
      (@stepTrace Scenario.libs r1 (Tick (95 * Go.Second))) = false
  ∧ ∃ record,
      @stepTrace Scenario.libs r1 heartbeat
      = [MuLock; MuUnlock; MuLock; RedisSave "peerA" record; MuUnlock].
Proof.
  intros register heartbeat r1.
  split; [vm_compute; reflexivity|].
  split; [vm_compute; reflexivity|].
  split; [vm_compute; reflexivity|].
  eexists. vm_compute. reflexivity.
Qed.

(* ===================================================================== *)
(** * The index helpers, and what every request and tick keeps *)
(* ===================================================================== *)

(** X1. [addToIndex] and [removeFromIndex] are insertion into and
    deletion from the relation "the index lists peer [p] under name [n]":
    after [addToIndex] the pair is listed, after [removeFromIndex] it is
    not, and no other pair is affected. [addToIndex] changes nothing when
    the pair is listed already, so it never introduces a duplicate;
    [removeFromIndex] leaves a list under the name even if there was none.
    Neither touches the records or the replay set. *)
Theorem index_helpers_insert_delete (r : RegistryNode) (pid : peer.ID) (name : string) :
  listed (addToIndex r pid name) name pid
  ∧ (∀ n p, listed (addToIndex r pid name) n p ↔ listed r n p ∨ (n = name ∧ p = pid))
  ∧ (listed r name pid → addToIndex r pid name = r)
  ∧ (IndexNoDup r → IndexNoDup (addToIndex r pid name))
  ∧ ¬ listed (removeFromIndex r pid name) name pid
  ∧ (∀ n p, listed (removeFromIndex r pid name) n p ↔ listed r n p ∧ ¬ (n = name ∧ p = pid))
  ∧ is_Some (ServiceIndex (removeFromIndex r pid name) !! name)
  ∧ (∀ n p, listed (removeFromIndex (addToIndex r pid name) pid name) n p
            ↔ listed r n p ∧ ¬ (n = name ∧ p = pid))
  ∧ Registrations (addToIndex r pid name) = Registrations r
  ∧ Registrations (removeFromIndex r pid name) = Registrations r
  ∧ seenStakeNonces (addToIndex r pid name) = seenStakeNonces r
  ∧ seenStakeNonces (removeFromIndex r pid name) = seenStakeNonces r.
Proof.
  assert (Hadd := listed_addToIndex r pid name).
  assert (Hrem := listed_removeFromIndex r pid name).
  split; [apply Hadd; by right|].
  split; [exact Hadd|].
  split.
  { intros (l & Hl & Hin). unfold addToIndex. rewrite Hl. simpl.
    by rewrite bool_decide_eq_true_2. }
  split; [apply IndexNoDup_addToIndex|].
  split; [intros Hl; apply Hrem in Hl; naive_solver|].
  split; [exact Hrem|].
  split.
  { unfold removeFromIndex. simpl. rewrite lookup_insert_eq. by eexists. }
  split.
  { intros n p. rewrite listed_removeFromIndex, Hadd. naive_solver. }
  destruct (addToIndex_frame r pid name) as (? & ? & _).
  destruct (removeFromIndex_frame r pid name) as (? & ? & _).
  done.
Qed.

Section CoreExtras.
Context `{Libs}.

Lemma removeFromIndex_dom (r : RegistryNode) (pid : peer.ID) (name : string) :
  dom (ServiceIndex r) ⊆ dom (ServiceIndex (removeFromIndex r pid name)).
Proof. unfold removeFromIndex. simpl. rewrite dom_insert_L. set_solver. Qed.

Lemma addToIndex_dom (r : RegistryNode) (pid : peer.ID) (name : string) :
  dom (ServiceIndex r) ⊆ dom (ServiceIndex (addToIndex r pid name)).
Proof.
  unfold addToIndex. case_bool_decide; [done|]. simpl. rewrite dom_insert_L. set_solver.
Qed.

Lemma foldl_gcVisit_dom (now : Z) (entries : list (string * RegistrationRecord.t))
    (acc : RegistryNode * list Event) :
  dom (ServiceIndex acc.1) ⊆ dom (ServiceIndex (foldl (gcVisit now) acc entries).1).
Proof.
  revert acc. induction entries as [|[pid record] entries IH]; intros [r tr]; [done|].
  cbn [foldl]. etrans; [|apply IH].
  destruct (staleb now (RegistrationRecord.LastSeen record)) eqn:Hs.
  - rewrite gcVisit_evict by done. simpl.
    apply (removeFromIndex_dom (with_Registrations r (delete pid (Registrations r)))).
  - by rewrite gcVisit_keep.
Qed.

Lemma handleStream_dom (r : RegistryNode) (remotePeer : peer.ID) (now : Z)
    (req : RegistryRequest.t) :
  dom (ServiceIndex r) ⊆ dom (ServiceIndex (handleStream r remotePeer now req).1.1).
Proof.
  unfold handleStream. case_bool_decide; [|by case_bool_decide].
  destruct (isHeartbeat _ req).
  - unfold handleHeartbeat. by destruct (Registrations r !! remotePeer).
  - unfold handleNewRegistration.
    destruct (checkStakeValidity _ _ _); [done|].
    destruct (RegistryRequest.StakeProof req) as [proof|]; [|done].
    destruct (default false _); [done|].
    set (r1 := with_seenStakeNonces r _).
    set (r2 := match Registrations r !! remotePeer with
               | Some existing => _ | None => r1 end).
    assert (dom (ServiceIndex r) ⊆ dom (ServiceIndex r2)) as H2.
    { subst r2. destruct (Registrations r !! remotePeer); [|done].
      case_bool_decide; [|done]. apply (removeFromIndex_dom r1). }
    destruct (RegistryRequest.ProviderInfo req); simpl; [|done].
    etrans; [exact H2|]. apply (addToIndex_dom (with_Registrations r2 _)).
Qed.

Lemma step_dom (r : RegistryNode) (op : Op) :
  dom (ServiceIndex r) ⊆ dom (ServiceIndex (step r op)).
Proof.
  destruct op as [remotePeer now req|now]; simpl.
  - apply handleStream_dom.
  - unfold gcTick. rewrite gcTickIn_fst. apply (foldl_gcVisit_dom now _ (r, [MuLock])).
Qed.

Lemma foldl_gcVisit_keeps_key (now : Z) (pid : string) (record : RegistrationRecord.t)
    (entries : list (string * RegistrationRecord.t)) (acc : RegistryNode * list Event) :
  staleb now (RegistrationRecord.LastSeen record) = true →
  (pid, record) ∈ entries
  ∨ ServiceCard.Name (RegistrationRecord.ServiceCard record) ∈ dom (ServiceIndex acc.1) →
  ServiceCard.Name (RegistrationRecord.ServiceCard record)
  ∈ dom (ServiceIndex (foldl (gcVisit now) acc entries).1).
Proof.
  intros Hs. revert acc.
  induction entries as [|[p rec] entries IH]; intros [r0 tr0] Hin.
  - destruct Hin as [Hin|Hin]; [by apply elem_of_nil in Hin|done].
  - cbn [foldl]. apply IH. destruct Hin as [Hin|Hin].
    + apply elem_of_cons in Hin as [Heq|Hin]; [|by left].
      injection Heq as <- <-. right.
      rewrite gcVisit_evict by done.
      unfold removeFromIndex. simpl. rewrite dom_insert_L. set_solver.
    + right.
      assert (Hd := foldl_gcVisit_dom now [(p, rec)] (r0, tr0)).
      cbn [foldl] in Hd. set_solver.
Qed.

(** X2. No operation ever removes a key of [ServiceIndex]: along every
    run the set of names the index has a list for only grows. A name
    whose provider is evicted keeps its list, without that provider. *)
Theorem index_keys_never_removed (r : RegistryNode) (ops : list Op) :
  dom (ServiceIndex r) ⊆ dom (ServiceIndex (run r ops))
  ∧ ∀ now pid record,
      Registrations r !! pid = Some record →
      90 * Go.Second < now - RegistrationRecord.LastSeen record →
      Registrations (step r (Tick now)) !! pid = None
      ∧ ∃ l, ServiceIndex (step r (Tick now))
               !! ServiceCard.Name (RegistrationRecord.ServiceCard record) = Some l
             ∧ pid ∉ l.
Proof.
  split.
  - revert r. induction ops as [|op ops IH]; intros r; [done|].
    simpl. etrans; [apply (step_dom r op)|apply IH].
  - intros now pid record Hr Hold. simpl. unfold gcTick.
    destruct (gcTickIn_state (map_to_list (Registrations r)) now r) as (Hreg & Hl & _);
      [done|].
    assert (Registrations (gcTickIn (map_to_list (Registrations r)) now r).1 !! pid = None)
      as Hnone.
    { destruct (Registrations (gcTickIn (map_to_list (Registrations r)) now r).1 !! pid)
        as [record'|] eqn:E; [|done].
      apply Hreg in E as [E Hfresh]. rewrite Hr in E. injection E as <-.
      unfold stale in Hfresh. lia. }
    split; [exact Hnone|].
    set (r' := (gcTickIn (map_to_list (Registrations r)) now r).1) in *.
    set (n := ServiceCard.Name (RegistrationRecord.ServiceCard record)).
    assert (is_Some (ServiceIndex r' !! n)) as [l El].
    { apply elem_of_dom. subst r' n. rewrite gcTickIn_fst.
      apply (foldl_gcVisit_keeps_key now pid).
      - apply staleb_stale. unfold stale. lia.
      - left. by apply elem_of_map_to_list. }
    exists l. split; [done|].
    intros Hin.
    assert (listed r' n pid) as Hlisted by (by exists l).
    apply Hl in Hlisted as [_ Hno]. apply Hno. exists record.
    split; [done|]. split; [unfold stale; lia|done].
Qed.

End CoreExtras.

Section RequestExtras.
Context `{Libs}.

(** X3. A request that is answered with [success = false] changes
    nothing: the node after it is the node before it, whatever the
    method, and no call to the durable store or to the vector index is
    made on the way. *)
Theorem failed_request_changes_nothing (r : RegistryNode) (remotePeer : peer.ID)
    (now : Z) (req : RegistryRequest.t) :
  RegistryResponse.Success (handleStream r remotePeer now req).1.2 = false →
  (handleStream r remotePeer now req).1.1 = r
  ∧ Forall (λ e, isExternalCall e = false) (handleStream r remotePeer now req).2.
Proof.
  unfold handleStream. case_bool_decide.
  - destruct (isHeartbeat _ req).
    + unfold handleHeartbeat. destruct (Registrations r !! remotePeer); simpl; [done|].
      intros _. split; [done|]. repeat constructor.
    + unfold handleNewRegistration.
      destruct (checkStakeValidity _ _ _).
      { simpl. intros _. split; [done|]. repeat constructor. }
      destruct (RegistryRequest.StakeProof req) as [proof|].
      2:{ simpl. intros _. split; [done|]. repeat constructor. }
      destruct (default false _).
      { simpl. intros _. split; [done|]. repeat constructor. }
      destruct (RegistryRequest.ProviderInfo req); simpl; done.
  - case_bool_decide; simpl; [done|]. intros _. split; [done|]. constructor.
Qed.

Lemma handleStream_other (r : RegistryNode) (remotePeer : peer.ID)
    (now : Z) (req : RegistryRequest.t) (other : peer.ID) :
  other ≠ remotePeer →
  Registrations (handleStream r remotePeer now req).1.1 !! other = Registrations r !! other
  ∧ ∀ n, listed (handleStream r remotePeer now req).1.1 n other ↔ listed r n other.
Proof.
  intros Hne. unfold handleStream. case_bool_decide; [|by case_bool_decide].
  destruct (isHeartbeat _ req).
  - unfold handleHeartbeat. destruct (Registrations r !! remotePeer); simpl; [|done].
    split; [by rewrite lookup_insert_ne|done].
  - unfold handleNewRegistration.
    destruct (checkStakeValidity _ _ _); [done|].
    destruct (RegistryRequest.StakeProof req) as [proof|]; [|done].
    destruct (default false _); [done|].
    set (r1 := with_seenStakeNonces r _).
    set (r2 := match Registrations r !! remotePeer with
               | Some existing => _ | None => r1 end).
    assert (Registrations r2 = Registrations r
            ∧ ∀ n, listed r2 n other ↔ listed r n other) as [HR2 HL2].
    { subst r2. destruct (Registrations r !! remotePeer); [|done].
      case_bool_decide; [|done]. split.
      - apply (removeFromIndex_frame r1).
      - intros n. rewrite listed_removeFromIndex. unfold listed. simpl. naive_solver. }
    destruct (RegistryRequest.ProviderInfo req); simpl; [|by rewrite HR2].
    split.
    + destruct (addToIndex_frame (with_Registrations r2
                  (<[remotePeer := {| RegistrationRecord.LastSeen := now;
                       RegistrationRecord.ServiceCard := RegistryRequest.Card req;
                       RegistrationRecord.StakeProof := Some proof;
                       RegistrationRecord.AddrInfo := t |}]> (Registrations r2)))
                  remotePeer (ServiceCard.Name (RegistryRequest.Card req))) as (-> & _).
      simpl. rewrite lookup_insert_ne by done. by rewrite HR2.
    + intros n. rewrite listed_addToIndex. rewrite <- HL2. unfold listed. simpl.
      naive_solver.
Qed.

(** X4. A request is served on behalf of the peer at the other end of
    the stream, and touches that peer only: the record of every other
    peer, and the names every other peer is listed under, are after the
    request what they were before it. *)
Theorem request_touches_only_its_peer (r : RegistryNode) (remotePeer : peer.ID)
    (now : Z) (req : RegistryRequest.t) (other : peer.ID) :
  other ≠ remotePeer →
  Registrations (handleStream r remotePeer now req).1.1 !! other = Registrations r !! other
  ∧ ∀ n, listed (handleStream r remotePeer now req).1.1 n other ↔ listed r n other.
Proof. apply handleStream_other. Qed.

Lemma gcTickIn_backends (entries : list (string * RegistrationRecord.t)) (now : Z)
    (r : RegistryNode) :
  Forall (λ e, (isStoreCall e = true → is_Some (storage_ r))
               ∧ (isIndexCall e = true → is_Some (qdrant r)))
         (gcTickIn entries now r).2.
Proof.
  rewrite gcTickIn_snd. apply Forall_app. split; [repeat constructor; done|].
  apply Forall_app. split; [|repeat constructor; done].
  apply Forall_forall. intros e He. apply list_elem_of_bind in He as (entry & He & _).
  destruct (evicts now entry); [|by apply elem_of_nil in He].
  unfold storage_DeleteRegistration in He. destruct (storage_ r); [|by apply elem_of_nil in He].
  apply list_elem_of_singleton in He as ->. simpl. split; [by eexists|done].
Qed.

Lemma handleStream_backends (r : RegistryNode) (remotePeer : peer.ID) (now : Z)
    (req : RegistryRequest.t) :
  Forall (λ e, (isStoreCall e = true → is_Some (storage_ r))
               ∧ (isIndexCall e = true → is_Some (qdrant r)))
         (handleStream r remotePeer now req).2.
Proof.
  unfold handleStream. case_bool_decide.
  2:{ case_bool_decide; simpl; repeat constructor; done. }
  destruct (isHeartbeat _ req).
  - unfold handleHeartbeat. destruct (Registrations r !! remotePeer); simpl.
    + unfold storage_SaveRegistration. destruct (storage_ r); simpl;
        repeat constructor; try done; by eexists.
    + repeat constructor; done.
  - unfold handleNewRegistration.
    destruct (checkStakeValidity _ _ _); [simpl; repeat constructor; done|].
    destruct (RegistryRequest.StakeProof req) as [proof|];
      [|simpl; repeat constructor; done].
    destruct (default false _); [simpl; repeat constructor; done|].
    set (r1 := with_seenStakeNonces r _).
    set (r2 := match Registrations r !! remotePeer with
               | Some existing => _ | None => r1 end).
    assert (config r2 = config r) as Hc.
    { subst r2. destruct (Registrations r !! remotePeer); [|done].
      case_bool_decide; [|done]. apply (removeFromIndex_frame r1). }
    unfold config in Hc. injection Hc as _ _ Hq Hs.
    destruct (RegistryRequest.ProviderInfo req) as [info|]; simpl.
    + set (r3 := addToIndex _ _ _).
      assert (config r3 = config r2) as Hc3.
      { subst r3. etrans; [apply addToIndex_frame|]. done. }
      unfold config in Hc3. injection Hc3 as _ _ Hq3 Hs3.
      rewrite Hq3, Hs3, Hq, Hs.
      unfold storage_SaveRegistration.
      destruct (storage_ r), (qdrant r); simpl; repeat constructor; try done;
        try (by eexists); case_match; repeat constructor; try done; by eexists.
    + rewrite Hq. destruct (qdrant r); simpl; repeat constructor; try done;
        case_match; repeat constructor; try done; by eexists.
Qed.

(** X5. A backend is called only when it is configured: in every run,
    an operation sends a save, a delete or a restore to the durable store
    only if the node holds a storage, and an upsert to the vector index
    only if it holds a Qdrant client. With neither, the trace of every
    operation is made of lock and unlock events only. *)
Theorem backends_called_only_when_configured (r : RegistryNode) (ops : list Op)
    (op : Op) :
  Forall (λ e, (isStoreCall e = true → is_Some (storage_ r))
               ∧ (isIndexCall e = true → is_Some (qdrant r)))
         (stepTrace (run r ops) op).
Proof.
  destruct (run_frame ops r) as [Hc _]. unfold config in Hc.
  injection Hc as _ _ Hq Hs. rewrite <- Hq, <- Hs.
  destruct op as [remotePeer now req|now]; simpl.
  - apply handleStream_backends.
  - apply gcTickIn_backends.
Qed.

(** X6. A tick at which no record is more than 90 seconds old changes
    nothing and sends nothing to the durable store, in whatever order it
    visits the records. So the eviction is idempotent: a second tick at
    the same instant finds nothing left to do. *)
Theorem tick_without_stale_record_is_noop (r : RegistryNode) (now : Z) :
  (∀ entries,
     entries ≡ₚ map_to_list (Registrations r) →
     (∀ pid record, Registrations r !! pid = Some record →
                    now - RegistrationRecord.LastSeen record ≤ 90 * Go.Second) →
     gcTickIn entries now r = (r, [MuLock; MuUnlock]))
  ∧ gcTick now (gcTick now r).1 = ((gcTick now r).1, [MuLock; MuUnlock]).
Proof.
  assert (∀ r entries,
     entries ≡ₚ map_to_list (Registrations r) →
     (∀ pid record, Registrations r !! pid = Some record →
                    now - RegistrationRecord.LastSeen record ≤ 90 * Go.Second) →
     gcTickIn entries now r = (r, [MuLock; MuUnlock])) as Hnoop.
  { clear r. intros r entries Hp Hfresh. unfold gcTickIn.
    assert (∀ acc, foldl (gcVisit now) acc entries = acc) as ->; [|done].
    assert (∀ pid record, (pid, record) ∈ entries →
              staleb now (RegistrationRecord.LastSeen record) = false) as Hall.
    { intros pid record Hin. rewrite Hp in Hin. apply elem_of_map_to_list in Hin.
      apply Hfresh in Hin. apply not_true_is_false. rewrite staleb_stale.
      unfold stale. lia. }
    clear Hp. induction entries as [|[pid record] entries IH]; intros [r0 tr0]; [done|].
    cbn [foldl]. rewrite gcVisit_keep by (apply (Hall pid); left).
    apply IH. intros p rec Hin. apply (Hall p). by right. }
  split; [apply Hnoop|].
  unfold gcTick at 1. apply Hnoop; [done|].
  intros pid record Hr.
  destruct (gcTickIn_state (map_to_list (Registrations r)) now r) as (Hreg & _); [done|].
  apply Hreg in Hr as [_ Hfresh]. unfold stale in Hfresh. lia.
Qed.

Lemma checkStakeValidity_config (r1 r2 : RegistryNode) (remote : peer.ID)
    (proof : option StakeProof.t) :
  config r1 = config r2 →
  checkStakeValidity r1 remote proof = checkStakeValidity r2 remote proof.
Proof.
  unfold config. intros Hc. injection Hc as Hh Hm _ _.
  unfold checkStakeValidity. by rewrite Hh, Hm.
Qed.

(** Where the record of the peer of a request comes from. *)
Lemma handleStream_record (r : RegistryNode) (remotePeer : peer.ID) (now : Z)
    (req : RegistryRequest.t) (record : RegistrationRecord.t) :
  Registrations (handleStream r remotePeer now req).1.1 !! remotePeer = Some record →
  Registrations r !! remotePeer = Some record
  ∨ (∃ existing, Registrations r !! remotePeer = Some existing
                 ∧ RegistrationRecord.StakeProof record
                   = RegistrationRecord.StakeProof existing)
  ∨ (∃ proof, RegistrationRecord.StakeProof record = Some proof
              ∧ RegistryRequest.StakeProof req = Some proof
              ∧ checkStakeValidity r remotePeer (Some proof) = None
              ∧ seen (handleStream r remotePeer now req).1.1 (replayKey proof) = true).
Proof.
  unfold handleStream. case_bool_decide; [|case_bool_decide; by left].
  destruct (isHeartbeat _ req).
  - unfold handleHeartbeat. destruct (Registrations r !! remotePeer) as [existing|] eqn:E;
      simpl; [|congruence].
    rewrite lookup_insert_eq. intros [= <-]. right. left. by exists existing.
  - unfold handleNewRegistration.
    destruct (checkStakeValidity _ _ _) eqn:Hv; [by left|].
    destruct (RegistryRequest.StakeProof req) as [proof|]; [|by left].
    destruct (default false _); [by left|].
    set (r1 := with_seenStakeNonces r _).
    set (r2 := match Registrations r !! remotePeer with
               | Some existing => _ | None => r1 end).
    assert (Registrations r2 = Registrations r
            ∧ seenStakeNonces r2 = seenStakeNonces r1) as [HR2 HS2].
    { subst r2. destruct (Registrations r !! remotePeer); [|done].
      case_bool_decide; [|done].
      destruct (removeFromIndex_frame r1 remotePeer
                  (ServiceCard.Name (RegistrationRecord.ServiceCard t))) as (? & ? & _).
      done. }
    destruct (RegistryRequest.ProviderInfo req) as [info|]; simpl.
    2:{ rewrite HR2. by left. }
    set (rec := {| RegistrationRecord.LastSeen := now;
                   RegistrationRecord.ServiceCard := RegistryRequest.Card req;
                   RegistrationRecord.StakeProof := Some proof;
                   RegistrationRecord.AddrInfo := info |}).
    set (r3 := addToIndex _ _ _).
    assert (Registrations r3 = <[remotePeer := rec]> (Registrations r2)
            ∧ seenStakeNonces r3 = seenStakeNonces r2) as [HR3 HS3].
    { subst r3.
      destruct (addToIndex_frame (with_Registrations r2 (<[remotePeer := rec]> (Registrations r2)))
                  remotePeer (ServiceCard.Name (RegistryRequest.Card req))) as (? & ? & _).
      done. }
    rewrite HR3, lookup_insert_eq. intros [= <-]. right. right.
    exists proof. simpl. split; [done|]. split; [done|]. split; [done|].
    unfold seen. rewrite HS3, HS2. subst r1. simpl. by rewrite lookup_insert_eq.
Qed.

Lemma step_verified (r : RegistryNode) (op : Op) :
  (∀ pid record, Registrations r !! pid = Some record →
     ∃ proof, RegistrationRecord.StakeProof record = Some proof
              ∧ checkStakeValidity r pid (Some proof) = None
              ∧ seen r (replayKey proof) = true) →
  ∀ pid record, Registrations (step r op) !! pid = Some record →
     ∃ proof, RegistrationRecord.StakeProof record = Some proof
              ∧ checkStakeValidity (step r op) pid (Some proof) = None
              ∧ seen (step r op) (replayKey proof) = true.
Proof.
  intros Hinv pid record Hr.
  destruct (step_frame r op) as [Hc Hseen].
  assert (∀ proof,
            RegistrationRecord.StakeProof record = Some proof
            ∧ checkStakeValidity r pid (Some proof) = None
            ∧ seen (step r op) (replayKey proof) = true →
            RegistrationRecord.StakeProof record = Some proof
            ∧ checkStakeValidity (step r op) pid (Some proof) = None
            ∧ seen (step r op) (replayKey proof) = true) as Hmove.
  { intros proof (? & ? & ?). split; [done|]. split; [|done].
    by rewrite (checkStakeValidity_config _ r). }
  assert (Registrations r !! pid = Some record →
          ∃ proof, RegistrationRecord.StakeProof record = Some proof
              ∧ checkStakeValidity (step r op) pid (Some proof) = None
              ∧ seen (step r op) (replayKey proof) = true) as Hold.
  { intros Hr0. destruct (Hinv _ _ Hr0) as (proof & ? & ? & ?).
    exists proof. apply Hmove. split; [done|]. split; [done|]. by apply Hseen. }
  destruct op as [remotePeer now req|now]; simpl in Hr.
  - destruct (decide (pid = remotePeer)) as [->|Hne].
    + apply handleStream_record in Hr as [Hr|[(existing & He & Hp)|(proof & Hp & _ & Hv & Hs)]].
      * by apply Hold.
      * destruct (Hinv _ _ He) as (proof & Hp' & Hv & Hs).
        exists proof. apply Hmove. split; [by rewrite Hp|]. split; [done|].
        by apply Hseen.
      * exists proof. apply Hmove. done.
    + apply Hold. by rewrite <- (proj1 (handleStream_other r remotePeer now req pid Hne)).
  - apply Hold. unfold gcTick in Hr.
    destruct (gcTickIn_state (map_to_list (Registrations r)) now r) as (Hreg & _); [done|].
    by apply Hreg in Hr as [Hr _].
Qed.

(** X7. Every record of a registry that started empty carries a stake
    proof that [checkStakeValidity] accepts for the peer of the record,
    and whose (tx_hash, nonce) pair is in the replay set: a record is
    only ever created by a register request that passed the check, and
    heartbeats and ticks never change the proof of a record. *)
Theorem records_carry_verified_stake (h : host.Host) (m : spec_float)
    (q : option QdrantClient) (s : option storage.RedisStorage) (ops : list Op)
    (pid : peer.ID) (record : RegistrationRecord.t) :
  Registrations (run (newRegistryNode h m q s) ops) !! pid = Some record →
  ∃ proof,
    RegistrationRecord.StakeProof record = Some proof
    ∧ checkStakeValidity (run (newRegistryNode h m q s) ops) pid (Some proof) = None
    ∧ seen (run (newRegistryNode h m q s) ops) (replayKey proof) = true.
Proof.
  revert pid record.
  assert (∀ r,
    (∀ pid record, Registrations r !! pid = Some record →
       ∃ proof, RegistrationRecord.StakeProof record = Some proof
                ∧ checkStakeValidity r pid (Some proof) = None
                ∧ seen r (replayKey proof) = true) →
    ∀ pid record, Registrations (run r ops) !! pid = Some record →
       ∃ proof, RegistrationRecord.StakeProof record = Some proof
                ∧ checkStakeValidity (run r ops) pid (Some proof) = None
                ∧ seen (run r ops) (replayKey proof) = true) as Hrun.
  { induction ops as [|op ops IH]; intros r Hinv; [exact Hinv|].
    simpl. apply IH. by apply step_verified. }
  apply Hrun. intros pid record Hr. simpl in Hr. by rewrite lookup_empty in Hr.
Qed.

(** X8. In a registry that started empty and has served no register
    request of the kind that drops an index entry (a new stake proof,
    another service name, no provider_info, from a registered peer), a
    find request is answered with exactly the addresses of the records
    whose lowered service name contains the lowered query, each once, and
    leaves the node as it is. *)
Theorem find_exact_along_runs (h : host.Host) (m : spec_float)
    (q : option QdrantClient) (s : option storage.RedisStorage) (ops : list Op)
    (client : peer.ID) (now : Z) (req : RegistryRequest.t) :
  (∀ done op, done ++ [op] `prefix_of` ops →
     ¬ dropsIndexEntry (run (newRegistryNode h m q s) done) op) →
  RegistryRequest.Method req = "find" →
  ∃ providers,
    handleStream (run (newRegistryNode h m q s) ops) client now req
    = (run (newRegistryNode h m q s) ops, respSuccess providers, [MuLock; MuUnlock])
    ∧ providers ≡ₚ matchingProviders (run (newRegistryNode h m q s) ops)
                     (RegistryRequest.Query req).
Proof.
  intros Hclean Hm.
  destruct (invariants_along_run h m q s ops) as [_ HA]. specialize (HA Hclean).
  assert (IndexSound (run (newRegistryNode h m q s) ops)) as Hsound.
  { apply run_sound. apply IndexSound_empty. }
  unfold handleStream. rewrite Hm.
  rewrite bool_decide_eq_false_2 by done. rewrite bool_decide_eq_true_2 by done.
  eexists. split; [reflexivity|].
  by apply find_exact_when_invariants_hold.
Qed.

(** X9. In a registry that started empty the index is sound after every
    run, whatever the requests: a peer listed under a name has a record
    with that service name, and no list names a peer twice. *)
Theorem index_sound_along_runs (h : host.Host) (m : spec_float)
    (q : option QdrantClient) (s : option storage.RedisStorage) (ops : list Op) :
  (∀ n pid, listed (run (newRegistryNode h m q s) ops) n pid →
     ∃ record, Registrations (run (newRegistryNode h m q s) ops) !! pid = Some record
               ∧ ServiceCard.Name (RegistrationRecord.ServiceCard record) = n)
  ∧ ∀ n l, ServiceIndex (run (newRegistryNode h m q s) ops) !! n = Some l → NoDup l.
Proof.
  assert (IndexSound (run (newRegistryNode h m q s) ops)) as [HB HN].
  { apply run_sound. apply IndexSound_empty. }
  split; [by apply InvariantB_listed|exact HN].
Qed.

End RequestExtras.

Lemma failed_request_changes_nothing_witness :
  let req := Scenario.register "math" (Some (Scenario.proof "tx1" 1 5))
               (Some (Scenario.addrOf "peerA")) in
  RegistryResponse.Error (@handleStream Scenario.libs Scenario.empty "peerA" 0 req).1.2
  = "stake too low: have 5.00 need 10.00"
  ∧ (@handleStream Scenario.libs Scenario.empty "peerA" 0 req).1.1 = Scenario.empty.
Proof.
  intros req.
  assert (RegistryResponse.Success
            (@handleStream Scenario.libs Scenario.empty "peerA" 0 req).1.2 = false) as Hf
    by (vm_compute; reflexivity).
  split; [vm_compute; reflexivity|].
  exact (proj1 (@failed_request_changes_nothing Scenario.libs _ _ _ _ Hf)).
Defined.

Lemma request_touches_only_its_peer_witness :
  let r := (@handleStream Scenario.libs Scenario.empty "peerA" 0
              (Scenario.register "math" (Some (Scenario.proof "tx1" 1 10))
                 (Some (Scenario.addrOf "peerA")))).1.1 in
  let req := Scenario.register "math" (Some (Scenario.proof "tx2" 1 10))
               (Some (Scenario.addrOf "peerB")) in
  is_Some (Registrations (@handleStream Scenario.libs r "peerB" Go.Second req).1.1 !! "peerB")
  ∧ Registrations (@handleStream Scenario.libs r "peerB" Go.Second req).1.1 !! "peerA"
    = Registrations r !! "peerA".
Proof.
  intros r req. split; [vm_compute; by eexists|].
  assert ("peerA" ≠ "peerB") as Hne by discriminate.
  exact (proj1 (@request_touches_only_its_peer Scenario.libs r "peerB" Go.Second req
                  "peerA" Hne)).
Defined.

Lemma records_carry_verified_stake_witness :
  let ops := [Request "peerA" 0
                (Scenario.register "math" (Some (Scenario.proof "tx1" 1 10))
                   (Some (Scenario.addrOf "peerA")))] in
  let r := @run Scenario.libs Scenario.empty ops in
  ∃ record proof,
    Registrations r !! "peerA" = Some record
    ∧ RegistrationRecord.StakeProof record = Some proof
    ∧ @checkStakeValidity Scenario.libs r "peerA" (Some proof) = None
    ∧ seen r (replayKey proof) = true.
Proof.
  intros ops r.
  destruct (Registrations r !! "peerA") as [record|] eqn:Hr;
    [|vm_compute in Hr; discriminate].
  destruct (@records_carry_verified_stake Scenario.libs Scenario.h (Go.float64_of_Z 10)
              None None ops "peerA" record Hr) as (proof & Hp & Hv & Hs).
  by exists record, proof.
Defined.

Lemma find_exact_along_runs_witness :
  let ops := [Request "peerA" 0
                (Scenario.register "math" (Some (Scenario.proof "tx1" 1 10))
                   (Some (Scenario.addrOf "peerA")))] in
  let r := @run Scenario.libs Scenario.empty ops in
  ∃ providers,
    (@handleStream Scenario.libs r "client" Go.Second (Scenario.find "MA")).1.2
    = respSuccess providers
    ∧ providers ≡ₚ [Scenario.addrOf "peerA"].
Proof.
  intros ops r.
  assert (∀ done op, done ++ [op] `prefix_of` ops →
            ¬ dropsIndexEntry
                (@run Scenario.libs (newRegistryNode Scenario.h (Go.float64_of_Z 10) None None)
                   done) op) as Hclean.
  { intros done op [rest Hp] Hd.
    destruct done as [|op0 done].
    - injection Hp as <- _. simpl in Hd. destruct Hd as (_ & _ & Hi & _). discriminate.
    - injection Hp as _ Hp. by destruct done. }
  destruct (@find_exact_along_runs Scenario.libs Scenario.h (Go.float64_of_Z 10) None None
              ops "client" Go.Second (Scenario.find "MA") Hclean eq_refl)
    as (providers & Heq & Hperm).
  exists providers. split.
  - change (@run Scenario.libs (newRegistryNode Scenario.h (Go.float64_of_Z 10) None None) ops)
      with r in Heq. by rewrite Heq.
  - etrans; [exact Hperm|]. vm_compute. done.
Defined.

(* ===================================================================== *)
(** * The REST handlers *)
(* ===================================================================== *)

Lemma filter_fmap_list {A B} (f : A → B) (P : B → Prop) `{∀ x, Decision (P x)}
    (l : list A) :
  filter P (f <$> l) = f <$> filter (λ x, P (f x)) l.
Proof.
  induction l as [|x l IH]; [done|].
  rewrite fmap_cons, !filter_cons. case_decide; [by rewrite fmap_cons, IH|done].
Qed.

Section RestExtras.
Context `{Libs} `{ApiLibs}.

Lemma servicesVisit_lookup (view : gmap string (list peer.AddrInfo.t))
    (reg : RegistrationRecord.t) (name : string) :
  servicesVisit view reg !! name
  = if decide (ServiceCard.Name (RegistrationRecord.ServiceCard reg) = name)
    then Some (default [] (view !! name) ++ [RegistrationRecord.AddrInfo reg])
    else view !! name.
Proof.
  unfold servicesVisit. case_decide as Hn.
  - subst name. by rewrite lookup_insert_eq.
  - by rewrite lookup_insert_ne.
Qed.

Lemma foldl_servicesVisit (regs : list RegistrationRecord.t)
    (view : gmap string (list peer.AddrInfo.t)) (name : string) :
  default [] (foldl servicesVisit view regs !! name)
  = default [] (view !! name)
    ++ (RegistrationRecord.AddrInfo <$>
        filter (λ reg, ServiceCard.Name (RegistrationRecord.ServiceCard reg) = name) regs)
  ∧ (is_Some (foldl servicesVisit view regs !! name) ↔
     is_Some (view !! name)
     ∨ ∃ reg, reg ∈ regs ∧ ServiceCard.Name (RegistrationRecord.ServiceCard reg) = name).
Proof.
  revert view. induction regs as [|reg regs IH]; intros view.
  - cbn [foldl]. rewrite filter_nil, fmap_nil, app_nil_r. split; [done|].
    split; [by left|]. intros [?|(? & Hin & _)]; [done|by apply elem_of_nil in Hin].
  - cbn [foldl]. destruct (IH (servicesVisit view reg)) as [IH1 IH2].
    rewrite IH1, IH2, servicesVisit_lookup, filter_cons.
    case_decide as Hn.
    + split.
      * rewrite fmap_cons. cbn -[filter]. by rewrite <- app_assoc.
      * split; [intros _; right; exists reg; split; [by left|done]|].
        intros _. left. by eexists.
    + split; [done|]. split.
      * intros [?|(reg' & Hin & Hn')]; [by left|]. right. exists reg'. split; [by right|done].
      * intros [?|(reg' & Hin & Hn')]; [by left|]. right. exists reg'. split; [|done].
        apply elem_of_cons in Hin as [->|Hin]; [done|done].
Qed.

(** X10. [getAllServices] groups the records by service name, whatever
    the order in which it goes through [r.Registrations]: the view has an
    entry exactly for the names that some record carries, the entry of a
    name holds the addresses of all the records with that name, each
    once, and [count] is the number of entries. The view is read off the
    records, not off the index, so it does not depend on the state of
    [ServiceIndex]. *)
Theorem getAllServices_groups_records (r : RegistryNode)
    (entries : list (string * RegistrationRecord.t)) :
  entries ≡ₚ map_to_list (Registrations r) →
  ∃ view,
    getAllServicesIn entries = (http.StatusOK, api.Services view (Z.of_nat (size view)))
    ∧ (∀ name, default [] (view !! name) ≡ₚ providersNamed r name)
    ∧ (∀ name, is_Some (view !! name) ↔
               ∃ pid record, Registrations r !! pid = Some record
                 ∧ ServiceCard.Name (RegistrationRecord.ServiceCard record) = name)
    ∧ (∀ name l, view !! name = Some l → l ≠ []).
Proof.
  intros Hperm. eexists. split; [reflexivity|].
  assert (∀ name, default [] (foldl servicesVisit ∅ entries.*2 !! name)
                  ≡ₚ providersNamed r name) as Hl.
  { intros name. destruct (foldl_servicesVisit entries.*2 ∅ name) as [-> _].
    rewrite lookup_empty. cbn [default app]. unfold providersNamed.
    rewrite <- Hperm. rewrite filter_fmap_list, <- list_fmap_compose. done. }
  assert (∀ name, is_Some (foldl servicesVisit ∅ entries.*2 !! name) ↔
               ∃ pid record, Registrations r !! pid = Some record
                 ∧ ServiceCard.Name (RegistrationRecord.ServiceCard record) = name) as Hs.
  { intros name. destruct (foldl_servicesVisit entries.*2 ∅ name) as [_ ->].
    rewrite lookup_empty. split.
    - intros [[? ?]|(reg & Hin & Hn)]; [done|].
      apply list_elem_of_fmap in Hin as ([pid record] & -> & Hin).
      rewrite Hperm in Hin. apply elem_of_map_to_list in Hin. by exists pid, record.
    - intros (pid & record & Hr & Hn). right. exists record. split; [|done].
      apply list_elem_of_fmap. exists (pid, record). split; [done|].
      rewrite Hperm. by apply elem_of_map_to_list. }
  split; [exact Hl|]. split; [exact Hs|].
  intros name l Hv ->.
  destruct (proj1 (Hs name)) as (pid & record & Hr & Hn); [by eexists|].
  specialize (Hl name). rewrite Hv in Hl. cbn [default] in Hl.
  symmetry in Hl. apply Permutation_nil_r in Hl. unfold providersNamed in Hl.
  apply fmap_nil_inv in Hl.
  assert ((pid, record) ∈ filter
            (λ kv : string * RegistrationRecord.t,
               ServiceCard.Name (RegistrationRecord.ServiceCard kv.2) = name)
            (map_to_list (Registrations r))) as Hin.
  { apply list_elem_of_filter. split; [done|]. by apply elem_of_map_to_list. }
  rewrite Hl in Hin. by apply elem_of_nil in Hin.
Qed.

Lemma servicesFullVisit_providers (view : gmap string api.ServiceView)
    (reg : RegistrationRecord.t) :
  api.providers <$> servicesFullVisit view reg
  = servicesVisit (api.providers <$> view) reg.
Proof.
  unfold servicesFullVisit, servicesVisit. rewrite fmap_insert, lookup_fmap.
  by destruct (view !! _).
Qed.

Lemma foldl_servicesFullVisit (regs : list RegistrationRecord.t)
    (view : gmap string api.ServiceView) :
  api.providers <$> foldl servicesFullVisit view regs
  = foldl servicesVisit (api.providers <$> view) regs
  ∧ ∀ name entry, foldl servicesFullVisit view regs !! name = Some entry →
      (∃ entry0, view !! name = Some entry0 ∧ api.card entry = api.card entry0)
      ∨ (view !! name = None
         ∧ ∃ reg, reg ∈ regs
                  ∧ ServiceCard.Name (RegistrationRecord.ServiceCard reg) = name
                  ∧ api.card entry = RegistrationRecord.ServiceCard reg).
Proof.
  revert view. induction regs as [|reg regs IH]; intros view.
  - cbn [foldl]. split; [done|]. intros name entry Hv. left. by exists entry.
  - cbn [foldl]. destruct (IH (servicesFullVisit view reg)) as [IH1 IH2].
    split; [by rewrite IH1, servicesFullVisit_providers|].
    intros name entry Hv. apply IH2 in Hv.
    unfold servicesFullVisit in Hv.
    destruct (decide (ServiceCard.Name (RegistrationRecord.ServiceCard reg) = name))
      as [Hn|Hn].
    + subst name. rewrite lookup_insert_eq in Hv.
      destruct Hv as [(entry0 & [= <-] & Hc)|[? _]]; [|done].
      cbn [api.card] in Hc.
      destruct (view !! _) as [e|] eqn:E.
      * left. by exists e.
      * right. split; [done|]. exists reg. split; [by left|]. done.
    + rewrite lookup_insert_ne in Hv by done.
      destruct Hv as [?|(Hnone & reg' & Hin & Hn' & Hc)]; [by left|].
      right. split; [done|]. exists reg'. split; [by right|done].
Qed.

(** X11. [getAllServicesFull] lists the providers as [getAllServices]
    does: visiting the records in the same order, the two views have the
    same names and, under each name, the same addresses in the same
    order. The card shown for a name is the card of one of the records
    with that name (the first one visited); when providers registered
    different cards under one name, the others are not shown. *)
Theorem getAllServicesFull_agrees_with_getAllServices (r : RegistryNode)
    (entries : list (string * RegistrationRecord.t)) :
  entries ≡ₚ map_to_list (Registrations r) →
  ∃ full view,
    getAllServicesFullIn entries
    = (http.StatusOK, api.ServicesFull full (Z.of_nat (size full)))
    ∧ getAllServicesIn entries = (http.StatusOK, api.Services view (Z.of_nat (size view)))
    ∧ api.providers <$> full = view
    ∧ size full = size view
    ∧ ∀ name entry, full !! name = Some entry →
        ∃ pid record, Registrations r !! pid = Some record
          ∧ ServiceCard.Name (RegistrationRecord.ServiceCard record) = name
          ∧ api.card entry = RegistrationRecord.ServiceCard record.
Proof.
  intros Hperm. eexists _, _. split; [reflexivity|]. split; [reflexivity|].
  destruct (foldl_servicesFullVisit entries.*2 ∅) as [Hp Hc].
  rewrite fmap_empty in Hp.
  split; [exact Hp|]. split; [by rewrite <- Hp, map_size_fmap|].
  intros name entry Hv. apply Hc in Hv as [(? & Hv & _)|(_ & reg & Hin & Hn & Hcard)].
  - by rewrite lookup_empty in Hv.
  - apply list_elem_of_fmap in Hin as ([pid record] & -> & Hin).
    rewrite Hperm in Hin. apply elem_of_map_to_list in Hin. by exists pid, record.
Qed.

Lemma searchPeers_lookup (r : RegistryNode) (name : string)
    (peerIDs : list string) (results : gmap string (list peer.AddrInfo.t)) (n : string) :
  searchPeers r name results peerIDs !! n
  = if decide (n = name)
    then match peerIDs ≫= providerOf r with
         | [] => results !! n
         | l => Some (default [] (results !! n) ++ l)
         end
    else results !! n.
Proof.
  unfold searchPeers. revert results.
  induction peerIDs as [|pid peerIDs IH]; intros results.
  - cbn [foldl]. by case_decide.
  - cbn [foldl]. rewrite IH, bind_cons. unfold providerOf at 2.
    destruct (Registrations r !! pid) as [reg|]; [|done].
    case_decide as Hn; [|by rewrite lookup_insert_ne].
    subst n. rewrite lookup_insert_eq. cbn -[mbind].
    destruct (peerIDs ≫= providerOf r); [done|].
    by rewrite <- app_assoc.
Qed.

Lemma searchIn_lookup (r : RegistryNode) (queryLower : string)
    (entries : list (string * list string))
    (results : gmap string (list peer.AddrInfo.t)) (n : string) :
  NoDup entries.*1 →
  foldl (λ results '(name, peerIDs),
           if Go.Contains (ToLower name) queryLower
           then searchPeers r name results peerIDs
           else results) results entries !! n
  = match (list_to_map entries : gmap string (list string)) !! n with
    | Some peerIDs =>
      if Go.Contains (ToLower n) queryLower
      then match peerIDs ≫= providerOf r with
           | [] => results !! n
           | l => Some (default [] (results !! n) ++ l)
           end
      else results !! n
    | None => results !! n
    end.
Proof.
  revert results. induction entries as [|[name pids] entries IH]; intros results Hnd.
  - cbn [foldl]. by rewrite list_to_map_nil, lookup_empty.
  - cbn [foldl]. rewrite fmap_cons in Hnd. apply NoDup_cons in Hnd as [Hnotin Hnd].
    rewrite IH by done. rewrite list_to_map_cons.
    destruct (decide (n = name)) as [->|Hne].
    + rewrite lookup_insert_eq.
      rewrite (not_elem_of_list_to_map_1 entries name) by done.
      destruct (Go.Contains (ToLower name) queryLower); [|done].
      rewrite searchPeers_lookup. by rewrite decide_True.
    + rewrite lookup_insert_ne by done.
      assert ((if Go.Contains (ToLower name) queryLower
               then searchPeers r name results pids else results) !! n = results !! n)
        as ->; [|done].
      destruct (Go.Contains (ToLower name) queryLower); [|done].
      rewrite searchPeers_lookup. by rewrite decide_False.
Qed.

Lemma findIn_entries (r : RegistryNode) (query : string)
    (entries : list (string * list string)) :
  findIn r query entries
  = entries ≫= λ '(name, peerIDs),
      if Go.Contains (ToLower name) query then peerIDs ≫= providerOf r else [].
Proof.
  unfold findIn.
  assert (∀ results,
    foldl (λ results '(name, peerIDs),
             if Go.Contains (ToLower name) query
             then findPeers r results peerIDs else results) results entries
    = results ++ (entries ≫= λ '(name, peerIDs),
                    if Go.Contains (ToLower name) query
                    then peerIDs ≫= providerOf r else [])) as Hgen.
  { induction entries as [|[name pids] entries IH]; intros results.
    - cbn [foldl]. symmetry. apply app_nil_r.
    - cbn [foldl]. rewrite IH, bind_cons.
      destruct (Go.Contains (ToLower name) query); [|done].
      by rewrite findPeers_bind, <- app_assoc. }
  apply (Hgen []).
Qed.

(** X12. [searchServices] refuses an empty query with status 400 (the
    stream's find treats it as "every service"). For any other query it
    answers 200 with one entry for every name of the index whose lowered
    form contains the lowered query and under which some listed peer has
    a record: the addresses of those peers, in the order of the list. The
    addresses are, all together, those the stream's find returns for the
    same query; names with nothing to show are left out, and [count] is
    the number of entries. *)
Theorem searchServices_lists_matching_names (r : RegistryNode)
    (entries : list (string * list string)) (query : string) :
  entries ≡ₚ map_to_list (ServiceIndex r) →
  query ≠ "" →
  searchServicesIn entries r ""
  = (http.StatusBadRequest, api.Error "query parameter 'q' is required")
  ∧ ∃ results,
      searchServicesIn entries r query
      = (http.StatusOK, api.Search query results (Z.of_nat (size results)))
      ∧ (∀ name l,
           results !! name = Some l ↔
           l ≠ [] ∧ Go.Contains (ToLower name) (ToLower query) = true
           ∧ ∃ peerIDs, ServiceIndex r !! name = Some peerIDs
                        ∧ l = findPeers r [] peerIDs)
      ∧ findIn r (ToLower query) entries ≡ₚ mjoin (map_to_list results).*2.
Proof.
  intros Hperm Hq. split; [done|].
  unfold searchServicesIn. rewrite bool_decide_eq_false_2 by done.
  eexists. split; [reflexivity|].
  assert (NoDup entries.*1) as Hnd.
  { rewrite Hperm. apply NoDup_fst_map_to_list. }
  assert ((list_to_map entries : gmap string (list string)) = ServiceIndex r) as Hmap.
  { rewrite <- (list_to_map_to_list (ServiceIndex r)).
    by apply list_to_map_proper. }
  assert (∀ name l,
           searchIn r (ToLower query) entries !! name = Some l ↔
           l ≠ [] ∧ Go.Contains (ToLower name) (ToLower query) = true
           ∧ ∃ peerIDs, ServiceIndex r !! name = Some peerIDs
                        ∧ l = findPeers r [] peerIDs) as Hchar.
  { intros name l. unfold searchIn. rewrite searchIn_lookup by done.
    rewrite Hmap, lookup_empty.
    destruct (ServiceIndex r !! name) as [peerIDs|]; [|naive_solver].
    destruct (Go.Contains (ToLower name) (ToLower query)); [|naive_solver].
    assert (∀ pids, findPeers r [] pids = pids ≫= providerOf r) as Hfp
      by (intros; by rewrite findPeers_bind).
    destruct (peerIDs ≫= providerOf r) as [|a l'] eqn:E.
    - split; [done|]. intros (Hl & _ & ? & [= <-] & ->). by rewrite Hfp, E in Hl.
    - cbn -[mbind]. split.
      + intros [= <-]. split; [done|]. split; [done|]. exists peerIDs.
        by rewrite Hfp, E.
      + intros (_ & _ & ? & [= <-] & ->). by rewrite Hfp, E. }
  split; [exact Hchar|].
  rewrite findIn_entries.
  set (g := λ e : string * list string,
              if Go.Contains (ToLower e.1) (ToLower query)
              then match e.2 ≫= providerOf r with
                   | [] => None
                   | l => Some (e.1, l)
                   end
              else None).
  assert (omap g entries ≡ₚ map_to_list (searchIn r (ToLower query) entries)) as Hom.
  { apply NoDup_Permutation.
    - apply (NoDup_fmap_1 fst).
      eapply sublist_NoDup; [exact Hnd|].
      clear. induction entries as [|[name pids] entries IH]; [done|].
      change (omap g ((name, pids) :: entries))
        with (match g (name, pids) with
              | Some y => y :: omap g entries
              | None => omap g entries
              end).
      rewrite fmap_cons. unfold g at 1. cbn [fst snd].
      destruct (Go.Contains (ToLower name) (ToLower query)); [|by apply sublist_cons].
      destruct (pids ≫= providerOf r); [by apply sublist_cons|].
      rewrite fmap_cons. by apply sublist_skip.
    - apply NoDup_map_to_list.
    - intros [name l]. rewrite elem_of_map_to_list, Hchar, list_elem_of_omap. split.
      + intros ([n pids] & Hin & Hg). unfold g in Hg. cbn [fst snd] in Hg.
        destruct (Go.Contains (ToLower n) (ToLower query)) eqn:Hc; [|done].
        destruct (pids ≫= providerOf r) as [|a l'] eqn:E; [done|].
        injection Hg as <- <-. split; [done|]. split; [done|].
        exists pids. rewrite Hperm in Hin. apply elem_of_map_to_list in Hin.
        split; [done|]. by rewrite findPeers_bind, E.
      + intros (Hl & Hc & pids & Hi & ->). exists (name, pids). split.
        * rewrite Hperm. by apply elem_of_map_to_list.
        * unfold g. cbn [fst snd]. rewrite Hc. rewrite findPeers_bind in Hl |- *.
          cbn [app] in Hl |- *. by destruct (pids ≫= providerOf r). }
  rewrite <- Hom. apply reflexive_eq.
  clear. induction entries as [|[name pids] entries IH]; [done|].
  change (omap g ((name, pids) :: entries))
    with (match g (name, pids) with
          | Some y => y :: omap g entries
          | None => omap g entries
          end).
  rewrite bind_cons, IH. unfold g at 2. cbn [fst snd].
  destruct (Go.Contains (ToLower name) (ToLower query)); [|done].
  by destruct (pids ≫= providerOf r).
Qed.

(** X13. [getServiceByName] looks the name up as it is given (no
    lowering, no partial match). In a state that satisfies Invariants A
    and B it answers 404 exactly when no record carries that service
    name, and otherwise 200 with the addresses of all the records with
    that name, each once, and their number as [count]. *)
Theorem getServiceByName_exact (r : RegistryNode) (serviceName : string) :
  IndexSound r → InvariantA r →
  (providersNamed r serviceName = [] →
   getServiceByName r serviceName
   = (http.StatusNotFound, api.Error ("service '" +:+ serviceName +:+ "' not found")))
  ∧ (providersNamed r serviceName ≠ [] →
     ∃ providers,
       getServiceByName r serviceName
       = (http.StatusOK,
          api.Service serviceName providers
            (Z.of_nat (length (providersNamed r serviceName))))
       ∧ providers ≡ₚ providersNamed r serviceName).
Proof.
  intros [HB Hnd] HA.
  pose proof (proj1 (InvariantA_listed r Hnd) HA) as HAl.
  pose proof (proj1 (InvariantB_listed r) HB) as HBl.
  set (T := filter (λ kv : string * RegistrationRecord.t,
                      ServiceCard.Name (RegistrationRecord.ServiceCard kv.2) = serviceName)
                   (map_to_list (Registrations r))).
  set (providers := match ServiceIndex r !! serviceName with
                    | Some peerIDs => findPeers r [] peerIDs
                    | None => []
                    end).
  assert (HT : ∀ kv, kv ∈ T →
            Registrations r !! kv.1 = Some kv.2
            ∧ ServiceCard.Name (RegistrationRecord.ServiceCard kv.2) = serviceName).
  { intros [p rec] Hin. apply list_elem_of_filter in Hin as [Hn Hin].
    by apply elem_of_map_to_list in Hin. }
  assert (providers ≡ₚ providersNamed r serviceName) as Hperm.
  { trans (T.*1 ≫= providerOf r).
    - assert (providers = default [] (ServiceIndex r !! serviceName) ≫= providerOf r) as ->.
      { subst providers. destruct (ServiceIndex r !! serviceName); [|done].
        by rewrite findPeers_bind. }
      apply bind_Permutation. apply NoDup_Permutation.
      + destruct (ServiceIndex r !! serviceName) as [l|] eqn:E; [|apply NoDup_nil_2].
        by apply (Hnd serviceName).
      + eapply sublist_NoDup; [apply (NoDup_fst_map_to_list (Registrations r))|].
        apply fmap_sublist. apply sublist_filter.
      + intros p. rewrite list_elem_of_fmap. split.
        * intros Hin. destruct (HBl serviceName p) as (rec & Hr & Hn).
          { destruct (ServiceIndex r !! serviceName) as [l|] eqn:E;
              [by exists l|by apply elem_of_nil in Hin]. }
          exists (p, rec). split; [done|]. apply list_elem_of_filter.
          split; [done|]. by apply elem_of_map_to_list.
        * intros ([p' rec] & -> & Hin). apply HT in Hin as [Hr Hn]. cbn in Hr, Hn.
          destruct (HAl _ _ Hr) as (l & Hl & Hin). rewrite Hn in Hl. by rewrite Hl.
    - apply reflexive_eq. unfold providersNamed. fold T.
      clearbody T. clear -HT. induction T as [|[p rec] T IH]; [done|].
      rewrite !fmap_cons, bind_cons. cbn [fst snd].
      destruct (HT (p, rec) ltac:(apply elem_of_cons; by left)) as [Hp _]. cbn in Hp.
      unfold providerOf at 1. rewrite Hp. cbn [app]. f_equal.
      apply IH. intros kv Hkv. apply HT, elem_of_cons. by right. }
  unfold getServiceByName. fold providers. split.
  - intros Hnil. rewrite Hnil in Hperm. apply Permutation_nil_r in Hperm.
    rewrite Hperm. done.
  - intros Hne. rewrite bool_decide_eq_false_2.
    + exists providers. split; [|done]. by rewrite (Permutation_length Hperm).
    + intros Hlen. apply Hne. apply nil_length_inv in Hlen. rewrite Hlen in Hperm.
      symmetry in Hperm. by apply Permutation_nil_r in Hperm.
Qed.

Lemma semanticVisit_cases (r : RegistryNode) (acc : list api.Result)
    (hit : qdrantSearchResult) :
  (semanticVisit r acc hit = acc
   ∧ ∀ pid reg,
       GoLib.stringAt (Payload hit) "service_name" ≠ "" →
       GoLib.stringAt (Payload hit) "peer_id" ≠ "" →
       peer_Decode (GoLib.stringAt (Payload hit) "peer_id") = Some pid →
       Registrations r !! pid = Some reg →
       ServiceCard.Name (RegistrationRecord.ServiceCard reg)
       ≠ GoLib.stringAt (Payload hit) "service_name")
  ∨ (∃ pid reg,
       GoLib.stringAt (Payload hit) "service_name" ≠ ""
       ∧ GoLib.stringAt (Payload hit) "peer_id" ≠ ""
       ∧ peer_Decode (GoLib.stringAt (Payload hit) "peer_id") = Some pid
       ∧ Registrations r !! pid = Some reg
       ∧ ServiceCard.Name (RegistrationRecord.ServiceCard reg)
         = GoLib.stringAt (Payload hit) "service_name"
       ∧ semanticVisit r acc hit
         = acc ++ [{| api.ServiceName := GoLib.stringAt (Payload hit) "service_name";
                      api.ResultScore := Score hit;
                      api.Card := RegistrationRecord.ServiceCard reg;
                      api.Providers := [RegistrationRecord.AddrInfo reg] |}]).
Proof.
  unfold semanticVisit.
  case_bool_decide as Hs; [left; split; [done|]; intros; done|].
  case_bool_decide as Hp; cbn [orb]; [left; split; [done|]; intros; done|].
  destruct (peer_Decode _) as [pid|] eqn:Hd; [|left; split; [done|]; intros; done].
  destruct (Registrations r !! pid) as [reg|] eqn:Hr.
  2:{ left. split; [done|]. intros pid' reg' _ _ [= <-]. by rewrite Hr. }
  case_bool_decide as Hn.
  - left. split; [done|]. intros pid' reg' _ _ [= <-]. rewrite Hr. by intros [= <-].
  - right. by exists pid, reg.
Qed.

Lemma foldl_semanticVisit (r : RegistryNode) (hits : list qdrantSearchResult)
    (acc : list api.Result) :
  ∃ added,
    foldl (semanticVisit r) acc hits = acc ++ added
    ∧ Forall (λ res, ∃ pid reg,
                Registrations r !! pid = Some reg
                ∧ ServiceCard.Name (RegistrationRecord.ServiceCard reg) = api.ServiceName res
                ∧ api.Card res = RegistrationRecord.ServiceCard reg
                ∧ api.Providers res = [RegistrationRecord.AddrInfo reg]) added
    ∧ ((λ res, (api.ServiceName res, api.ResultScore res)) <$> added)
      `sublist_of`
      ((λ hit, (GoLib.stringAt (Payload hit) "service_name", Score hit)) <$> hits)
    ∧ ∀ hit pid reg,
        hit ∈ hits →
        GoLib.stringAt (Payload hit) "service_name" ≠ "" →
        GoLib.stringAt (Payload hit) "peer_id" ≠ "" →
        peer_Decode (GoLib.stringAt (Payload hit) "peer_id") = Some pid →
        Registrations r !! pid = Some reg →
        ServiceCard.Name (RegistrationRecord.ServiceCard reg)
        = GoLib.stringAt (Payload hit) "service_name" →
        {| api.ServiceName := GoLib.stringAt (Payload hit) "service_name";
           api.ResultScore := Score hit;
           api.Card := RegistrationRecord.ServiceCard reg;
           api.Providers := [RegistrationRecord.AddrInfo reg] |} ∈ added.
Proof.
  revert acc. induction hits as [|hit hits IH]; intros acc.
  - exists []. cbn [foldl]. rewrite app_nil_r. split; [done|]. split; [constructor|].
    split; [done|]. intros ??? Hin. by apply elem_of_nil in Hin.
  - cbn [foldl]. destruct (IH (semanticVisit r acc hit)) as (added & -> & Hall & Hsub & Hcomp).
    destruct (semanticVisit_cases r acc hit)
      as [[-> Hdead]|(pid & reg & Hs & Hp & Hd & Hr & Hn & ->)].
    + exists added. split; [done|]. split; [done|].
      split; [rewrite fmap_cons; by apply sublist_cons|].
      intros hit' pid reg Hin Hs Hp Hd Hr Hn.
      apply elem_of_cons in Hin as [->|Hin]; [|by eapply Hcomp].
      by destruct (Hdead pid reg).
    + eexists (_ :: added). split; [by rewrite <- app_assoc|].
      split; [constructor; [by exists pid, reg|done]|].
      split; [rewrite !fmap_cons; by apply sublist_skip|].
      intros hit' pid' reg' Hin Hs' Hp' Hd' Hr' Hn'.
      apply elem_of_cons in Hin as [->|Hin]; [|right; by eapply Hcomp].
      rewrite Hd in Hd'. injection Hd' as <-. rewrite Hr in Hr'. injection Hr' as <-.
      by left.
Qed.

(** X14. A semantic search answers with hits of the vector index only as
    far as they are still true of the registry: every result names a
    peer that is registered now, under the service name the hit carries,
    and shows the card and the address of that record; hits without a
    service name or a peer id, with a peer id that does not decode, for
    a peer that is gone or that now offers another service, are dropped.
    No hit that is still true is dropped; the results keep the order and
    the scores of the hits, and [count] is their number. *)
Theorem semantic_search_results_are_registered (r : RegistryNode)
    (Search : list spec_float → Z → list qdrantSearchResult * error)
    (q : string) (k : option string) (qc : QdrantClient)
    (hits : list qdrantSearchResult) :
  qdrant r = Some qc →
  strings_TrimSpace q ≠ "" →
  Search (queryEmbedding q) (semanticLimit k) = (hits, None) →
  ∃ results,
    semanticSearchServices r Search q k
    = (http.StatusOK, api.Semantic q results (Z.of_nat (length results)),
       [(queryEmbedding q, semanticLimit k)])
    ∧ Forall (λ res, ∃ pid reg,
                Registrations r !! pid = Some reg
                ∧ ServiceCard.Name (RegistrationRecord.ServiceCard reg) = api.ServiceName res
                ∧ api.Card res = RegistrationRecord.ServiceCard reg
                ∧ api.Providers res = [RegistrationRecord.AddrInfo reg]) results
    ∧ ((λ res, (api.ServiceName res, api.ResultScore res)) <$> results)
      `sublist_of`
      ((λ hit, (GoLib.stringAt (Payload hit) "service_name", Score hit)) <$> hits)
    ∧ ∀ hit pid reg,
        hit ∈ hits →
        GoLib.stringAt (Payload hit) "service_name" ≠ "" →
        GoLib.stringAt (Payload hit) "peer_id" ≠ "" →
        peer_Decode (GoLib.stringAt (Payload hit) "peer_id") = Some pid →
        Registrations r !! pid = Some reg →
        ServiceCard.Name (RegistrationRecord.ServiceCard reg)
        = GoLib.stringAt (Payload hit) "service_name" →
        {| api.ServiceName := GoLib.stringAt (Payload hit) "service_name";
           api.ResultScore := Score hit;
           api.Card := RegistrationRecord.ServiceCard reg;
           api.Providers := [RegistrationRecord.AddrInfo reg] |} ∈ results.
Proof.
  intros Hq Hne Hsearch. unfold semanticSearchServices.
  rewrite Hq, bool_decide_eq_false_2 by done. rewrite Hsearch.
  destruct (foldl_semanticVisit r hits []) as (added & -> & Hall & Hsub & Hcomp).
  exists added. done.
Qed.

(** X15. [semanticSearchServices] calls the vector index at most once,
    and only when a Qdrant client is configured and the query is not
    blank; the vector it sends is the embedding of the lowered query
    (the function that embeds the cards at registration), of dimension
    64, and the limit it sends is positive: the parameter [k] when it
    parses to a positive number, 5 when it is absent, does not parse or
    is not positive. Without a client, or with a blank query, the answer
    is 400; when the search fails it is 500. *)
Theorem semantic_search_calls_the_index_once (r : RegistryNode)
    (Search : list spec_float → Z → list qdrantSearchResult * error)
    (q : string) (k : option string) :
  let '(status, body, calls) := semanticSearchServices r Search q k in
  (calls = [] ∨ calls = [(simpleTextEmbedding (ToLower q) 64, semanticLimit k)])
  ∧ 0 < semanticLimit k
  ∧ length (simpleTextEmbedding (ToLower q) 64) = 64%nat
  ∧ (calls ≠ [] → is_Some (qdrant r) ∧ strings_TrimSpace q ≠ "")
  ∧ (calls = [] → status = http.StatusBadRequest)
  ∧ (qdrant r = None →
     body = api.Error "semantic search is not enabled (no Qdrant configured)")
  ∧ (∀ err, (Search (simpleTextEmbedding (ToLower q) 64) (semanticLimit k)).2 = Some err →
            calls ≠ [] →
            status = http.StatusInternalServerError
            ∧ body = api.Error ("qdrant search failed: " +:+ err))
  ∧ (semanticLimit k = 5 ∨ strconv_Atoi (default "5" k) = (semanticLimit k, None)).
Proof.
  assert (0 < semanticLimit k) as Hpos.
  { unfold semanticLimit. destruct (strconv_Atoi _) as [n err].
    case_bool_decide; cbn [orb]; [lia|]. destruct (n <=? 0) eqn:E; lia. }
  assert (length (simpleTextEmbedding (ToLower q) 64) = 64%nat) as Hlen.
  { unfold simpleTextEmbedding. cbn [Z.leb Z.compare].
    rewrite foldl_embedRune_length. by rewrite length_replicate. }
  assert (semanticLimit k = 5
          ∨ strconv_Atoi (default "5" k) = (semanticLimit k, None)) as Hk.
  { unfold semanticLimit. destruct (strconv_Atoi (default "5" k)) as [n err] eqn:E.
    case_bool_decide as He; cbn [orb]; [by left|]. destruct (n <=? 0); [by left|].
    right. by subst err. }
  unfold semanticSearchServices.
  destruct (qdrant r) as [qc|] eqn:Hq.
  2:{ split; [by left|]. done. }
  case_bool_decide as Ht.
  { split; [by left|]. repeat split; try done. }
  change (queryEmbedding q) with (simpleTextEmbedding (ToLower q) 64).
  destruct (Search _ _) as [hits [err|]] eqn:Hs.
  - split; [by right|]. repeat split; try done; try by eexists.
    cbn [snd] in *. congruence.
  - split; [by right|]. repeat split; try done; try by eexists.
Qed.

Lemma append_eq_empty (a b : string) : a +:+ b = "" → a = "" ∧ b = "".
Proof. destruct a; [by rewrite append_nil_l|]. by rewrite append_cons. Qed.

Lemma bootstrapFrom_cases (hostID : peer.ID) (hostAddrs : list ma.Multiaddr) :
  (∃ pre addr post,
     hostAddrs = pre ++ addr :: post
     ∧ bootstrapCandidate addr
     ∧ Forall (λ a, ¬ bootstrapCandidate a) pre
     ∧ bootstrapFrom hostID hostAddrs
       = "/ip4/127.0.0.1/udp/" +:+ bootstrapPort addr +:+ "/quic-v1/p2p/" +:+
         peer_String hostID)
  ∨ (Forall (λ a, ¬ bootstrapCandidate a) hostAddrs
     ∧ bootstrapFrom hostID hostAddrs = "").
Proof.
  induction hostAddrs as [|addr rest IH].
  - right. split; [constructor|done].
  - assert (bootstrapCandidate addr
            ∧ bootstrapFrom hostID (addr :: rest)
              = "/ip4/127.0.0.1/udp/" +:+ bootstrapPort addr +:+ "/quic-v1/p2p/" +:+
                peer_String hostID
            ∨ ¬ bootstrapCandidate addr
              ∧ bootstrapFrom hostID (addr :: rest) = bootstrapFrom hostID rest) as Hcase.
    { cbn [bootstrapFrom]. unfold bootstrapCandidate, bootstrapPort.
      destruct (ma.Protocols addr) as [|code protocols]; [right; by split; [intros [? _]|]|].
      cbn [head]. destruct (code =? ma.P_IP4) eqn:Hc.
      2:{ right. split; [|done]. intros [[= ->] _]. done. }
      apply Z.eqb_eq in Hc. subst code.
      destruct (ma.ValueForProtocol addr ma.P_UDP) as [port [err|]].
      - case_bool_decide as Hp; [left; by split|right; split; [|done]].
        intros [_ Hport]. by apply Hport, dec_stable.
      - case_bool_decide as Hp; [left; by split|right; split; [|done]].
        intros [_ Hport]. by apply Hport, dec_stable. }
    destruct Hcase as [[Hc ->]|[Hc ->]].
    + left. exists [], addr, rest. split; [done|]. split; [done|]. split; [constructor|done].
    + destruct IH as [(pre & a & post & -> & Ha & Hpre & ->)|[Hall ->]].
      * left. exists (addr :: pre), a, post. split; [done|]. split; [done|].
        split; [by constructor|done].
      * right. split; [by constructor|done].
Qed.

(** X16. [getRegistryInfo] lists every address of the host with
    [/p2p/<peer id>] appended. The bootstrap address is built from the
    first IPv4 address of the host that has a UDP port or, failing that,
    a TCP port: [/ip4/127.0.0.1/udp/<port>/quic-v1/p2p/<peer id>], with
    that port whichever of the two it is; when the host has no such
    address it is the first of the listed addresses. It is empty only
    when the host has no address at all. *)
Theorem getRegistryInfo_bootstrap (hostID : peer.ID) (hostAddrs : list ma.Multiaddr) :
  ∃ bootstrap,
    getRegistryInfo hostID hostAddrs
    = (http.StatusOK,
       api.Info (peer_String hostID)
         ((λ addr, ma.String addr +:+ "/p2p/" +:+ peer_String hostID) <$> hostAddrs)
         bootstrap)
    ∧ (bootstrap = "" ↔ hostAddrs = [])
    ∧ ((∃ pre addr post,
          hostAddrs = pre ++ addr :: post
          ∧ bootstrapCandidate addr
          ∧ Forall (λ a, ¬ bootstrapCandidate a) pre
          ∧ bootstrap = "/ip4/127.0.0.1/udp/" +:+ bootstrapPort addr +:+
                        "/quic-v1/p2p/" +:+ peer_String hostID)
       ∨ (Forall (λ a, ¬ bootstrapCandidate a) hostAddrs
          ∧ bootstrap
            = default "" (head ((λ addr, ma.String addr +:+ "/p2p/" +:+ peer_String hostID)
                                  <$> hostAddrs)))).
Proof.
  unfold getRegistryInfo. eexists. split; [reflexivity|].
  destruct (bootstrapFrom_cases hostID hostAddrs)
    as [(pre & a & post & Heq & Ha & Hpre & Hb)|[Hall Hb]]; rewrite Hb.
  - rewrite bool_decide_eq_false_2 by (intros Hn; by apply append_eq_empty in Hn as [? _]).
    cbn [andb]. split.
    + split; [intros Hn; by apply append_eq_empty in Hn as [? _]|].
      intros ->. by destruct pre.
    + left. by exists pre, a, post.
  - rewrite bool_decide_eq_true_2 by done. cbn [andb]. rewrite length_fmap.
    destruct hostAddrs as [|addr rest]; cbn [length Nat.ltb Nat.leb fmap list_fmap head default].
    + split; [done|]. right. by split.
    + split.
      * split; [|done]. intros Hn. apply append_eq_empty in Hn as [_ Hn].
        by apply append_eq_empty in Hn as [? _].
      * right. by split.
Qed.

End RestExtras.

(* ===================================================================== *)
(** * The Qdrant client *)
(* ===================================================================== *)

Lemma append_inv_head (a x y : string) : a +:+ x = a +:+ y → x = y.
Proof.
  induction a as [|c a IH]; [by rewrite !append_nil_l|].
  rewrite !append_cons. intros [= Heq]. by apply IH.
Qed.

Lemma append_length (a b : string) :
  String.length (a +:+ b) = (String.length a + String.length b)%nat.
Proof.
  induction a as [|c a IH]; [by rewrite append_nil_l|].
  rewrite append_cons. cbn [String.length]. by rewrite IH.
Qed.

Lemma append_ne_self (a b : string) : b ≠ "" → a +:+ b ≠ a.
Proof.
  intros Hb Heq. apply (f_equal String.length) in Heq. rewrite append_length in Heq.
  destruct b; [done|]. cbn [String.length] in Heq. lia.
Qed.

Lemma trimRightByte_spec (s : string) (c : Ascii.ascii) :
  GoLib.HasSuffix (GoLib.trimRightByte s c) (String c "") = false
  ∧ ∃ n, s = GoLib.trimRightByte s c +:+ Repeat (String c "") n.
Proof.
  induction s as [|a s [IH1 [n IH2]]].
  - split; [done|]. by exists 0%nat.
  - cbn [GoLib.trimRightByte].
    destruct (GoLib.trimRightByte s c) as [|b t] eqn:E.
    + case_bool_decide as Ha.
      * subst a. split; [done|]. exists (S n). cbn [Repeat].
        rewrite append_nil_l in IH2 |- *. rewrite append_cons, append_nil_l. by f_equal.
      * split.
        -- cbn [GoLib.HasSuffix]. rewrite bool_decide_eq_false_2 by congruence.
           by rewrite bool_decide_eq_false_2.
        -- exists n. rewrite append_cons. f_equal. by rewrite append_nil_l in IH2 |- *.
    + split.
      * cbn [GoLib.HasSuffix]. rewrite bool_decide_eq_false_2; [exact IH1|].
        intros Heq. discriminate Heq.
      * exists n. rewrite append_cons. by f_equal.
Qed.

Section QdrantExtras.
Context `{Libs} `{ApiLibs}.

(** X17. [NewQdrantClient] drops every ["/"] the base URL ends with, and
    nothing else: the client's base URL does not end with ["/"], the
    given URL is that base followed by slashes only, and a URL given with
    one more slash at its end yields the same client. The client starts
    with no vector size, so its first call creates the collection. *)
Theorem NewQdrantClient_trims_trailing_slashes (baseURL collection : string) :
  GoLib.HasSuffix (Qdrant.BaseURL (NewQdrantClient baseURL collection)) "/" = false
  ∧ (∃ n, baseURL = Qdrant.BaseURL (NewQdrantClient baseURL collection) +:+ Repeat "/" n)
  ∧ NewQdrantClient (baseURL +:+ "/") collection = NewQdrantClient baseURL collection
  ∧ Qdrant.Collection (NewQdrantClient baseURL collection) = collection
  ∧ Qdrant.VectorSize (NewQdrantClient baseURL collection) = 0.
Proof.
  destruct (trimRightByte_spec baseURL GoLib.slash) as [Hs Hn].
  split; [exact Hs|]. split; [exact Hn|]. split; [|done].
  unfold NewQdrantClient. f_equal.
  clear. induction baseURL as [|a s IH]; [done|].
  rewrite append_cons. cbn [GoLib.trimRightByte]. by rewrite IH.
Qed.

Lemma ensureCollection_spec (Do : http.Request → http.Response * error)
    (c : Qdrant.Client) (dim : Z) :
  ∃ c' err sent,
    ensureCollection Do (Some c) dim = (Some c', err, sent)
    ∧ Qdrant.BaseURL c' = Qdrant.BaseURL c
    ∧ Qdrant.Collection c' = Qdrant.Collection c
    ∧ (Qdrant.VectorSize c ≠ 0 → c' = c ∧ err = None ∧ sent = [])
    ∧ (err = None → Qdrant.VectorSize c = 0 → Qdrant.VectorSize c' = dim)
    ∧ (err = None → Qdrant.VectorSize c ≠ 0 → Qdrant.VectorSize c' ≠ 0)
    ∧ (err ≠ None → c' = c)
    ∧ Forall (λ req, isCreate c req = true) sent
    ∧ (length sent ≤ 1)%nat.
Proof.
  unfold ensureCollection. case_bool_decide as Hv.
  { exists c, None, []. repeat split; try done. cbn [length]. lia. }
  assert (Hv0 : Qdrant.VectorSize c = 0) by (by destruct (decide (Qdrant.VectorSize c = 0))).
  destruct (http_NewRequest _ _ _) as [err|].
  { exists c, (Some err), []. repeat split; try done. cbn [length]. lia. }
  set (req := {| http.Method := http.MethodPut; http.URL := _; http.Body := _;
                 http.ContentType := _ |}).
  assert (isCreate c req = true) as Hreq.
  { unfold isCreate, createURL. cbn. by rewrite !bool_decide_eq_true_2. }
  destruct (Do req) as [resp [err|]].
  { exists c, (Some err), [req]. repeat split; try done. by repeat constructor. }
  destruct (bool_decide _ && bool_decide _ && bool_decide _).
  - eexists c, _, [req]. split; [reflexivity|]. repeat split; try done.
    by repeat constructor.
  - eexists _, None, [req]. split; [reflexivity|]. repeat split; try done.
    by repeat constructor.
Qed.

Lemma points_not_create (c : Qdrant.Client) (method body : string) (suffix : string) :
  suffix ≠ "" →
  isCreate c {| http.Method := method;
                http.URL := Qdrant.BaseURL c +:+ "/collections/" +:+ Qdrant.Collection c
                            +:+ suffix;
                http.Body := body; http.ContentType := "application/json" |} = false.
Proof.
  intros Hs. unfold isCreate, createURL. cbn [http.URL].
  rewrite (bool_decide_eq_false_2 (_ +:+ _ = _)); [apply andb_false_r|].
  intros Heq. apply append_inv_head, append_inv_head in Heq.
  by apply append_ne_self in Heq.
Qed.

Lemma UpsertService_spec (Do : http.Request → http.Response * error)
    (c : Qdrant.Client) (id : string) (vector : list spec_float)
    (payload : list (string * GoLib.Any)) :
  ∃ c' err sent,
    UpsertService Do (Some c) id vector payload = (Some c', err, sent)
    ∧ Qdrant.BaseURL c' = Qdrant.BaseURL c
    ∧ Qdrant.Collection c' = Qdrant.Collection c
    ∧ (Qdrant.VectorSize c ≠ 0 →
       c' = c ∧ Forall (λ req, isCreate c req = false) sent).
Proof.
  unfold UpsertService. case_bool_decide.
  { exists c, None, []. by repeat split. }
  destruct (ensureCollection_spec Do c (Z.of_nat (length vector)))
    as (c1 & err1 & sent1 & -> & Hb & Hc & Hkeep & _).
  destruct err1 as [err1|].
  { exists c1, (Some err1), sent1. repeat split; try done; by destruct (Hkeep H2) as (-> & _ & ->). }
  assert (Qdrant.VectorSize c ≠ 0 →
          c1 = c ∧ ∀ req, Forall (λ req, isCreate c req = false) (sent1 ++ [req])
                           ↔ isCreate c req = false) as Hk.
  { intros Hv. destruct (Hkeep Hv) as (-> & _ & ->). split; [done|].
    intros req. cbn [app]. rewrite Forall_singleton. done. }
  destruct (http_NewRequest _ _ _) as [err|].
  { exists c1, (Some err), sent1. repeat split; try done; by destruct (Hkeep H2) as (-> & _ & ->). }
  set (req := {| http.Method := http.MethodPut; http.URL := _; http.Body := _;
                 http.ContentType := _ |}).
  assert (isCreate c req = false) as Hreq.
  { subst req. rewrite Hb, Hc. by apply points_not_create. }
  destruct (Do req) as [resp [err|]].
  { exists c1, (Some err), (sent1 ++ [req]). repeat split; try done.
    - by apply Hk. - by apply Hk. }
  destruct (bool_decide _ && bool_decide _).
  - eexists c1, _, (sent1 ++ [req]). split; [reflexivity|]. repeat split; try done.
    + by apply Hk. + by apply Hk.
  - eexists c1, None, (sent1 ++ [req]). split; [reflexivity|]. repeat split; try done.
    + by apply Hk. + by apply Hk.
Qed.

Lemma Search_spec (Do : http.Request → http.Response * error)
    (c : Qdrant.Client) (vector : list spec_float) (limit : Z) :
  ∃ c' res sent,
    Search Do (Some c) vector limit = (Some c', res, sent)
    ∧ Qdrant.BaseURL c' = Qdrant.BaseURL c
    ∧ Qdrant.Collection c' = Qdrant.Collection c
    ∧ (Qdrant.VectorSize c ≠ 0 →
       c' = c ∧ Forall (λ req, isCreate c req = false) sent).
Proof.
  unfold Search. case_bool_decide.
  { exists c, ([], Some "empty query vector"), []. by repeat split. }
  destruct (ensureCollection_spec Do c (Z.of_nat (length vector)))
    as (c1 & err1 & sent1 & -> & Hb & Hc & Hkeep & _).
  destruct err1 as [err1|].
  { eexists c1, _, sent1. split; [reflexivity|].
    repeat split; try done; by destruct (Hkeep H2) as (-> & _ & ->). }
  assert (Qdrant.VectorSize c ≠ 0 →
          c1 = c ∧ ∀ req, Forall (λ req, isCreate c req = false) (sent1 ++ [req])
                           ↔ isCreate c req = false) as Hk.
  { intros Hv. destruct (Hkeep Hv) as (-> & _ & ->). split; [done|].
    intros req. cbn [app]. rewrite Forall_singleton. done. }
  destruct (http_NewRequest _ _ _) as [err|].
  { eexists c1, _, sent1. split; [reflexivity|].
    repeat split; try done; by destruct (Hkeep H2) as (-> & _ & ->). }
  set (req := {| http.Method := http.MethodPost; http.URL := _; http.Body := _;
                 http.ContentType := _ |}).
  assert (isCreate c req = false) as Hreq.
  { subst req. rewrite Hb, Hc. by apply points_not_create. }
  destruct (Do req) as [resp [err|]].
  { eexists c1, _, (sent1 ++ [req]). split; [reflexivity|]. repeat split; try done.
    - by apply Hk. - by apply Hk. }
  destruct (bool_decide _).
  { eexists c1, _, (sent1 ++ [req]). split; [reflexivity|]. repeat split; try done.
    - by apply Hk. - by apply Hk. }
  destruct (json_DecodeSearch _) as [result [err|]].
  - eexists c1, _, (sent1 ++ [req]). split; [reflexivity|]. repeat split; try done.
    + by apply Hk. + by apply Hk.
  - eexists c1, _, (sent1 ++ [req]). split; [reflexivity|]. repeat split; try done.
    + by apply Hk. + by apply Hk.
Qed.

(** X18. The collection is created at most once per client: once the
    client has recorded a vector size, no later upsert or search sends
    the request that creates the collection, whatever the server
    answers, and the client (base URL, collection, recorded size) stays
    as it is, also when a later vector has another length. *)
Theorem qdrant_collection_created_once (c : Qdrant.Client) (calls : list QdrantCall) :
  Qdrant.VectorSize c ≠ 0 →
  (foldl qdrantStep (Some c, []) calls).1 = Some c
  ∧ Forall (λ req, isCreate c req = false) (foldl qdrantStep (Some c, []) calls).2.
Proof.
  intros Hv.
  assert (∀ sent, Forall (λ req, isCreate c req = false) sent →
            (foldl qdrantStep (Some c, sent) calls).1 = Some c
            ∧ Forall (λ req, isCreate c req = false)
                (foldl qdrantStep (Some c, sent) calls).2) as Hgen.
  { induction calls as [|call calls IH]; intros sent Hsent; [done|].
    cbn [foldl]. unfold qdrantStep at 2 4.
    destruct call as [Do id vector payload|Do vector limit].
    - destruct (UpsertService_spec Do c id vector payload)
        as (c' & err & reqs & -> & _ & _ & Hkeep).
      destruct (Hkeep Hv) as [-> Hreqs]. apply IH. by apply Forall_app.
    - destruct (Search_spec Do c vector limit)
        as (c' & res & reqs & -> & _ & _ & Hkeep).
      destruct (Hkeep Hv) as [-> Hreqs]. apply IH. by apply Forall_app. }
  by apply Hgen.
Qed.

(** X19. [UpsertService] does nothing and returns [nil] on a nil client
    and on an empty vector. Otherwise a [nil] result means that the
    server accepted the point: the last request sent is the PUT of the
    point to [<base>/collections/<collection>/points], carrying the
    vector, the payload and the id [hashToUint64(id)], and it was
    answered with status 200 or 202; the client then has a vector size
    recorded (the length of this vector, if it had none). At most two
    requests are sent, and when creating the collection fails the point
    is not sent. *)
Theorem UpsertService_nil_means_accepted (Do : http.Request → http.Response * error)
    (qc : option Qdrant.Client) (id : string) (vector : list spec_float)
    (payload : list (string * GoLib.Any)) :
  let '(qc', err, sent) := UpsertService Do qc id vector payload in
  (qc = None ∨ vector = [] → qc' = qc ∧ err = None ∧ sent = [])
  ∧ (length sent ≤ 2)%nat
  ∧ (∀ c, qc = Some c → vector ≠ [] →
       (err = None →
        ∃ c' req resp,
          qc' = Some c' ∧ Qdrant.VectorSize c' ≠ 0
          ∧ (Qdrant.VectorSize c = 0 → Qdrant.VectorSize c' = Z.of_nat (length vector))
          ∧ last sent = Some req
          ∧ http.Method req = "PUT"
          ∧ http.URL req = Qdrant.BaseURL c +:+ "/collections/" +:+ Qdrant.Collection c
                           +:+ "/points"
          ∧ http.Body req
            = json_Marshal
                (GoLib.AnyMap
                   [("points",
                     GoLib.AnySlice
                       [GoLib.AnyMap
                          [("id", GoLib.AnyInt (hashToUint64 id));
                           ("vector", GoLib.AnySlice (GoLib.AnyFloat <$> vector));
                           ("payload", GoLib.AnyMap payload)]])])
          ∧ Do req = (resp, None)
          ∧ (http.StatusCode resp = 200 ∨ http.StatusCode resp = 202))
       ∧ ((ensureCollection Do qc (Z.of_nat (length vector))).1.2 ≠ None →
          err = (ensureCollection Do qc (Z.of_nat (length vector))).1.2
          ∧ Forall (λ req, isCreate c req = true) sent)).
Proof.
  unfold UpsertService. destruct qc as [c|].
  2:{ split; [done|]. split; [cbn; lia|]. done. }
  case_bool_decide as Hlen.
  { split; [done|]. split; [cbn; lia|]. intros c0 _ Hne.
    apply nil_length_inv in Hlen. done. }
  assert (vector ≠ []) as Hvne by (by intros ->).
  destruct (ensureCollection_spec Do c (Z.of_nat (length vector)))
    as (c1 & err1 & sent1 & -> & Hb & Hc & Hkeep & Hset & Hset' & Herr & Hcreate & Hlen1).
  cbn [fst snd].
  destruct err1 as [err1|].
  { split; [intros [?|?]; done|]. split; [lia|]. intros c0 [= <-] _. split; [done|].
    intros _. done. }
  assert (Qdrant.VectorSize c1 ≠ 0
          ∧ (Qdrant.VectorSize c = 0 → Qdrant.VectorSize c1 = Z.of_nat (length vector)))
    as [Hv1 Hv2].
  { split; [|by apply Hset].
    destruct (decide (Qdrant.VectorSize c = 0)) as [Hz|Hz]; [|by apply Hset'].
    rewrite (Hset eq_refl Hz). destruct vector; [done|]. cbn [length]. lia. }
  destruct (http_NewRequest _ _ _) as [err|].
  { split; [intros [?|?]; done|]. split; [lia|]. intros c0 [= <-] _. split; done. }
  set (req := {| http.Method := http.MethodPut; http.URL := _; http.Body := _;
                 http.ContentType := _ |}).
  destruct (Do req) as [resp [err|]] eqn:HDo.
  { split; [intros [?|?]; done|]. split; [rewrite length_app; cbn [length]; lia|].
    intros c0 [= <-] _. split; done. }
  destruct (bool_decide (http.StatusCode resp ≠ http.StatusOK)
            && bool_decide (http.StatusCode resp ≠ http.StatusAccepted)) eqn:Hst.
  { split; [intros [?|?]; done|]. split; [rewrite length_app; cbn [length]; lia|].
    intros c0 [= <-] _. split; done. }
  split; [intros [?|?]; done|]. split; [rewrite length_app; cbn [length]; lia|].
  intros c0 [= <-] _. split; [|done]. intros _.
  exists c1, req, resp. split; [done|]. split; [done|]. split; [done|].
  split; [by rewrite last_snoc|]. split; [done|].
  split; [subst req; cbn [http.URL]; by rewrite Hb, Hc|]. split; [done|].
  split; [done|].
  apply andb_false_iff in Hst as [Hst|Hst]; apply bool_decide_eq_false in Hst.
  - left. by destruct (decide (http.StatusCode resp = 200)).
  - right. by destruct (decide (http.StatusCode resp = 202)).
Qed.

(** X20. [Search] returns the error "qdrant client not configured" on a
    nil client and "empty query vector" on an empty vector, without
    sending anything. A limit that is not positive is replaced by 5. It
    returns hits only together with a [nil] error, and then they are
    what the body of a response with status 200 to the POST of the
    vector, the limit and [with_payload: true] to
    [<base>/collections/<collection>/points/search] decodes to. *)
Theorem Search_returns_decoded_hits (Do : http.Request → http.Response * error)
    (qc : option Qdrant.Client) (vector : list spec_float) (limit : Z) :
  let '(qc', (hits, err), sent) := Search Do qc vector limit in
  (qc = None → err = Some "qdrant client not configured" ∧ sent = [])
  ∧ (is_Some qc → vector = [] → err = Some "empty query vector" ∧ sent = [] ∧ qc' = qc)
  ∧ (err ≠ None → hits = [])
  ∧ (limit ≤ 0 → Search Do qc vector limit = Search Do qc vector 5)
  ∧ (err = None →
     ∃ c req resp,
       qc = Some c
       ∧ last sent = Some req
       ∧ http.Method req = "POST"
       ∧ http.URL req = Qdrant.BaseURL c +:+ "/collections/" +:+ Qdrant.Collection c
                        +:+ "/points/search"
       ∧ http.Body req
         = json_Marshal
             (GoLib.AnyMap [("vector", GoLib.AnySlice (GoLib.AnyFloat <$> vector));
                            ("limit", GoLib.AnyInt (if limit <=? 0 then 5 else limit));
                            ("with_payload", GoLib.AnyBool true)])
       ∧ Do req = (resp, None)
       ∧ http.StatusCode resp = 200
       ∧ json_DecodeSearch (http.ResponseBody resp) = (hits, None)).
Proof.
  assert (limit ≤ 0 → Search Do qc vector limit = Search Do qc vector 5) as Hlim.
  { intros Hl. unfold Search. destruct (limit <=? 0) eqn:E; [done|].
    apply Z.leb_gt in E. lia. }
  unfold Search in *. destruct qc as [c|]; [|done].
  case_bool_decide as Hlen.
  { split; [done|]. split; [done|]. done. }
  assert (vector ≠ []) as Hvne by (by intros ->).
  destruct (ensureCollection_spec Do c (Z.of_nat (length vector)))
    as (c1 & err1 & sent1 & Heq & Hb & Hc & _).
  rewrite Heq in Hlim |- *.
  destruct err1 as [err1|]; [done|].
  destruct (http_NewRequest _ _ _) as [err|]; [done|].
  set (req := {| http.Method := http.MethodPost; http.URL := _; http.Body := _;
                 http.ContentType := _ |}) in *.
  destruct (Do req) as [resp [err|]] eqn:HDo; [done|].
  case_bool_decide as Hst; [done|].
  destruct (json_DecodeSearch _) as [result [err|]] eqn:Hdec; [done|].
  split; [done|]. split; [done|]. split; [done|]. split; [done|]. intros _.
  exists c, req, resp. split; [done|]. split; [by rewrite last_snoc|].
  split; [done|]. split; [subst req; cbn [http.URL]; by rewrite Hb, Hc|].
  split; [done|]. split; [done|].
  split; [by destruct (decide (http.StatusCode resp = http.StatusOK))|done].
Qed.

Lemma bytes_bound (s : string) : Forall (λ b, 0 ≤ b < 256) (Go.bytes s).
Proof.
  induction s as [|a s IH]; [constructor|].
  cbn [Go.bytes]. constructor; [|done].
  pose proof (Ascii.N_ascii_bounded a) as Hb. cbv beta.
  split; [apply N2Z.is_nonneg|]. by apply N2Z.inj_lt in Hb.
Qed.

Lemma lor_shiftl_byte (v b : Z) :
  0 ≤ v → 0 ≤ b < 256 → Z.lor (Z.shiftl v 8) b = v * 256 + b.
Proof.
  intros Hv Hb. rewrite Z.shiftl_mul_pow2 by lia.
  rewrite <- Z.lxor_lor, <- Z.add_nocarry_lxor; [done| |].
  all: apply Z.bits_inj'; intros n Hn; rewrite Z.land_spec, Z.bits_0.
  all: destruct (decide (n < 8)) as [Hlt|Hge]; [by rewrite Z.mul_pow2_bits_low by lia|].
  all: rewrite (Z.bits_above_log2 b n); [apply andb_false_r|lia|].
  all: destruct (decide (b = 0)) as [->|Hb0]; [change (Z.log2 0) with 0; lia|].
  all: assert (Z.log2 b < 8) by (apply Z.log2_lt_pow2; lia); lia.
Qed.

Lemma hash_fold (l : list Z) (v : Z) :
  Forall (λ b, 0 ≤ b < 256) l → 0 ≤ v → (v + 1) * 256 ^ Z.of_nat (length l) ≤ 2 ^ 64 →
  foldl (λ v b, Z.lor (Z.shiftl v 8 mod 2 ^ 64) b) v l = foldl (λ v b, v * 256 + b) v l
  ∧ 0 ≤ foldl (λ v b, v * 256 + b) v l < 2 ^ 64.
Proof.
  revert v. induction l as [|b l IH]; intros v Hall Hv Hbound.
  - cbn [foldl length] in *. change (256 ^ Z.of_nat 0) with 1 in Hbound. split; [done|lia].
  - apply Forall_cons in Hall as [Hb Hall]. cbn [foldl].
    rewrite length_cons, Nat2Z.inj_succ, Z.pow_succ_r in Hbound by lia.
    assert (0 < 256 ^ Z.of_nat (length l)) as Hp by (apply Z.pow_pos_nonneg; lia).
    set (P := 256 ^ Z.of_nat (length l)) in *.
    assert (Z.shiftl v 8 mod 2 ^ 64 = Z.shiftl v 8) as ->.
    { apply Z.mod_small. rewrite Z.shiftl_mul_pow2 by lia. change (2 ^ 8) with 256.
      split; [lia|]. nia. }
    rewrite lor_shiftl_byte by done. apply IH; [done|lia|].
    fold P. nia.
Qed.

Lemma bigEndian_snoc (l : list Z) (b : Z) : bigEndian (l ++ [b]) = bigEndian l * 256 + b.
Proof. unfold bigEndian. by rewrite foldl_app. Qed.

Lemma bigEndian_inj (l l' : list Z) :
  Forall (λ b, 0 ≤ b < 256) l → Forall (λ b, 0 ≤ b < 256) l' →
  length l = length l' → bigEndian l = bigEndian l' → l = l'.
Proof.
  revert l'. induction l as [|b l IH] using rev_ind; intros l' Hl Hl' Hlen Heq.
  - destruct l'; [done|discriminate].
  - destruct l' as [|b' l' _] using rev_ind.
    { rewrite length_app in Hlen. cbn in Hlen. lia. }
    rewrite !bigEndian_snoc in Heq.
    apply Forall_app in Hl as [Hl Hb]. apply Forall_app in Hl' as [Hl' Hb'].
    rewrite Forall_singleton in Hb, Hb'.
    rewrite !length_app in Hlen. cbn [length] in Hlen.
    assert (bigEndian l = bigEndian l' ∧ b = b') as [Hbe ->] by lia.
    f_equal. apply IH; [done|done|lia|done].
Qed.

(** X21. [hashToUint64] is the big-endian number held by the first 8
    bytes of the SHA-256 digest of the string: it is below 2^64 (the
    shifts never lose a bit), and two strings get the same number exactly
    when their digests agree on those 8 bytes. So the id of a point keeps
    64 of the 256 bits of the digest of [<peer id>:<service name>]. *)
Theorem hashToUint64_big_endian (s : string) :
  hashToUint64 s = bigEndian (take 8 (Go.bytes (sha256_Sum256 s)))
  ∧ 0 ≤ hashToUint64 s < 2 ^ 64
  ∧ ∀ s', String.length (sha256_Sum256 s) = String.length (sha256_Sum256 s') →
          (hashToUint64 s = hashToUint64 s' ↔
           take 8 (Go.bytes (sha256_Sum256 s)) = take 8 (Go.bytes (sha256_Sum256 s'))).
Proof.
  assert (∀ s, hashToUint64 s = bigEndian (take 8 (Go.bytes (sha256_Sum256 s)))
               ∧ 0 ≤ hashToUint64 s < 2 ^ 64) as Hbe.
  { clear s. intros s. unfold hashToUint64, bigEndian.
    destruct (hash_fold (take 8 (Go.bytes (sha256_Sum256 s))) 0) as [-> Hb]; [|done| |done].
    - apply Forall_take, bytes_bound.
    - assert (length (take 8 (Go.bytes (sha256_Sum256 s))) ≤ 8)%nat as Hl
        by (rewrite length_take; lia).
      change (2 ^ 64) with (1 * 256 ^ 8). apply Z.mul_le_mono_nonneg_l; [lia|].
      apply Z.pow_le_mono_r; lia. }
  split; [apply Hbe|]. split; [apply Hbe|].
  intros s' Hlen. rewrite (proj1 (Hbe s)), (proj1 (Hbe s')). split; [|by intros ->].
  apply bigEndian_inj; try (apply Forall_take, bytes_bound).
  rewrite !length_take. f_equal.
  assert (∀ t, length (Go.bytes t) = String.length t) as Hl.
  { induction t as [|a t IH]; [done|]. cbn. by rewrite IH. }
  by rewrite !Hl.
Qed.

End QdrantExtras.

(* ===================================================================== *)
(** * The Redis adapter *)
(* ===================================================================== *)

Lemma HasPrefix_append (a s : string) : Go.HasPrefix (a +:+ s) a = true.
Proof.
  induction a as [|c a IH]; [by destruct s|].
  rewrite append_cons. cbn [Go.HasPrefix]. by rewrite bool_decide_eq_true_2, IH.
Qed.

Lemma TrimPrefix_append (a s : string) : Go.TrimPrefix (a +:+ s) a = s.
Proof.
  unfold Go.TrimPrefix. rewrite HasPrefix_append.
  induction a as [|c a IH]; [rewrite append_nil_l; by destruct s|].
  by rewrite append_cons.
Qed.

Section RedisExtras.
Context `{Libs} `{ApiLibs}.

Lemma registrationKey_ne_serviceKey (pid : peer.ID) (name : string) :
  registrationKey pid ≠ serviceKey name.
Proof. unfold registrationKey, serviceKey. rewrite !append_cons. discriminate. Qed.

Lemma SaveRegistration_ok (st : storage.RedisStorage) (db : redis.DB) (now : Z)
    (pid : peer.ID) (record : storage.RegistrationRecord.t) (data : string) :
  redis.online db = true →
  0 < storage.ttl st →
  json_MarshalRecord record = (data, None) →
  redis.isString db now
    (serviceKey (ServiceCard.Name (storage.RegistrationRecord.ServiceCard record))) = false →
  ∃ db',
    SaveRegistration (Some st) db now pid record = (db', None)
    ∧ redis.online db' = true
    ∧ redis.strings db'
      = delete (serviceKey (ServiceCard.Name (storage.RegistrationRecord.ServiceCard record)))
          (<[registrationKey pid := (data, Some (now + storage.ttl st))]> (redis.strings db))
    ∧ redis.sets db' !! registrationKey pid = None
    ∧ (∀ key entry,
         redis.sets db' !! key = Some entry →
         key = serviceKey (ServiceCard.Name (storage.RegistrationRecord.ServiceCard record))
         ∨ is_Some (redis.sets db !! key))
    ∧ ∃ members,
        redis.sets db'
          !! serviceKey (ServiceCard.Name (storage.RegistrationRecord.ServiceCard record))
        = Some (members, Some (now + storage.ttl st))
        ∧ peer_String pid ∈ members.
Proof.
  intros Hon Httl Hm Hstr. unfold SaveRegistration. rewrite Hm.
  set (skey := serviceKey _) in *.
  assert (registrationKey pid ≠ skey) as Hne by apply registrationKey_ne_serviceKey.
  unfold redis.Set_. rewrite Hon.
  unfold redis.deadline. rewrite (proj2 (Z.ltb_lt 0 _)) by done.
  unfold redis.SAdd. cbn [redis.online redis.strings redis.sets].
  assert (redis.isString
            {| redis.online := true;
               redis.strings := <[registrationKey pid := (data, Some (now + storage.ttl st))]>
                                  (redis.strings db);
               redis.sets := delete (registrationKey pid) (redis.sets db) |} now skey
          = false) as ->.
  { unfold redis.isString in *. cbn [redis.strings]. by rewrite lookup_insert_ne. }
  unfold redis.Expire. cbn [redis.online redis.strings redis.sets].
  rewrite lookup_delete_eq, lookup_insert_eq.
  set (entry := match delete (registrationKey pid) (redis.sets db) !! skey with
                | Some entry => if redis.live now entry then entry else (∅, None)
                | None => (∅, None)
                end).
  assert (redis.live now ({[peer_String pid]} ∪ entry.1, entry.2) = true) as ->.
  { subst entry. destruct (delete _ _ !! skey) as [e|]; [|done].
    destruct (redis.live now e) eqn:E; [|done]. exact E. }
  eexists. split; [reflexivity|]. cbn [redis.online redis.strings redis.sets].
  split; [done|]. split; [done|]. split; [|split].
  - rewrite !lookup_insert_ne by done. by rewrite lookup_delete_eq.
  - intros key e He. destruct (decide (key = skey)) as [->|Hk]; [by left|]. right.
    rewrite !lookup_insert_ne in He by done.
    apply lookup_delete_Some in He as [_ He]. by eexists.
  - eexists. rewrite lookup_insert_eq. split; [reflexivity|]. set_solver.
Qed.

Lemma DeleteRegistration_ok (st : storage.RedisStorage) (db : redis.DB) (now : Z)
    (pid : peer.ID) (serviceName : string) :
  redis.online db = true →
  ∃ db',
    DeleteRegistration (Some st) db now pid serviceName = (db', None)
    ∧ redis.online db' = true
    ∧ redis.strings db' = delete (registrationKey pid) (redis.strings db)
    ∧ redis.sets db' !! registrationKey pid = None
    ∧ (∀ key entry, redis.sets db' !! key = Some entry → is_Some (redis.sets db !! key)).
Proof.
  intros Hon. unfold DeleteRegistration, redis.Del. rewrite Hon.
  assert (registrationKey pid ≠ serviceKey serviceName) as Hne
    by apply registrationKey_ne_serviceKey.
  unfold redis.SRem. cbn [redis.online redis.strings redis.sets].
  assert (∀ key entry,
            delete (registrationKey pid) (redis.sets db) !! key = Some entry →
            is_Some (redis.sets db !! key)) as Hdel.
  { intros key e He. apply lookup_delete_Some in He as [_ He]. by eexists. }
  destruct (redis.isString _ now (serviceKey serviceName)).
  { eexists. split; [reflexivity|]. cbn. by rewrite lookup_delete_eq. }
  destruct (delete (registrationKey pid) (redis.sets db) !! serviceKey serviceName)
    as [entry|] eqn:E.
  2:{ eexists. split; [reflexivity|]. cbn. by rewrite lookup_delete_eq. }
  destruct (redis.live now entry).
  2:{ eexists. split; [reflexivity|]. cbn. by rewrite lookup_delete_eq. }
  eexists. split; [reflexivity|]. cbn [redis.online redis.strings redis.sets].
  split; [done|]. split; [done|].
  case_bool_decide.
  - split; [rewrite lookup_delete_ne by done; by rewrite lookup_delete_eq|].
    intros key e He. apply lookup_delete_Some in He as [_ He]. by eapply Hdel.
  - split; [rewrite lookup_insert_ne by done; by rewrite lookup_delete_eq|].
    intros key e He. destruct (decide (key = serviceKey serviceName)) as [->|Hk].
    + by eapply Hdel.
    + rewrite lookup_insert_ne in He by done. by eapply Hdel.
Qed.

Lemma LoadRegistration_lookup (st : storage.RedisStorage) (db : redis.DB) (now : Z)
    (pid : peer.ID) :
  redis.online db = true →
  redis.sets db !! registrationKey pid = None →
  LoadRegistration (Some st) db now pid
  = match redis.strings db !! registrationKey pid with
    | Some entry =>
      if redis.live now entry then
        match json_Unmarshal entry.1 with
        | Some record => (Some record, None)
        | None =>
          (None, Some ("failed to unmarshal registration: " +:+ json_UnmarshalError entry.1))
        end
      else (None, Some redis.Nil)
    | None => (None, Some redis.Nil)
    end.
Proof.
  intros Hon Hset. unfold LoadRegistration, redis.Get, redis.isSet. rewrite Hon, Hset.
  destruct (redis.strings db !! registrationKey pid) as [entry|]; [|done].
  by destruct (redis.live now entry).
Qed.

(** X22. A registration saved on a reachable server loads back: when
    the record marshals to a document that unmarshals to the record,
    [SaveRegistration] returns [nil], and [LoadRegistration] of the same
    peer returns the record for as long as the key lives, that is, until
    [ttl] after the save; from then on, and after [DeleteRegistration]
    of the peer, it returns the error [redis.Nil]. The save also puts
    the peer into the set of its service name, with the same life. *)
Theorem saved_registration_loads_back (st : storage.RedisStorage) (db : redis.DB)
    (now : Z) (pid : peer.ID) (record : storage.RegistrationRecord.t) (data : string) :
  redis.online db = true →
  0 < storage.ttl st →
  json_MarshalRecord record = (data, None) →
  json_Unmarshal data = Some record →
  redis.isString db now
    (serviceKey (ServiceCard.Name (storage.RegistrationRecord.ServiceCard record))) = false →
  ∃ db',
    SaveRegistration (Some st) db now pid record = (db', None)
    ∧ (∀ now', now' < now + storage.ttl st →
         LoadRegistration (Some st) db' now' pid = (Some record, None))
    ∧ (∀ now', now + storage.ttl st ≤ now' →
         LoadRegistration (Some st) db' now' pid = (None, Some redis.Nil))
    ∧ (∀ now' serviceName,
         DeleteRegistration (Some st) db' now' pid serviceName
         = ((DeleteRegistration (Some st) db' now' pid serviceName).1, None)
         ∧ LoadRegistration (Some st)
             (DeleteRegistration (Some st) db' now' pid serviceName).1 now' pid
           = (None, Some redis.Nil))
    ∧ ∃ members,
        redis.sets db'
          !! serviceKey (ServiceCard.Name (storage.RegistrationRecord.ServiceCard record))
        = Some (members, Some (now + storage.ttl st))
        ∧ peer_String pid ∈ members.
Proof.
  intros Hon Httl Hm Hu Hstr.
  destruct (SaveRegistration_ok st db now pid record data Hon Httl Hm Hstr)
    as (db' & Hsave & Hon' & Hstrings & Hsets & _ & Hmem).
  exists db'. split; [done|].
  assert (redis.strings db' !! registrationKey pid
          = Some (data, Some (now + storage.ttl st))) as Hlook.
  { rewrite Hstrings, lookup_delete_ne by (symmetry; apply registrationKey_ne_serviceKey).
    by rewrite lookup_insert_eq. }
  split; [|split; [|split; [|done]]].
  - intros now' Hlt. rewrite LoadRegistration_lookup, Hlook by done.
    unfold redis.live. cbn [fst snd]. rewrite (proj2 (Z.ltb_lt _ _)) by done. by rewrite Hu.
  - intros now' Hge. rewrite LoadRegistration_lookup, Hlook by done.
    unfold redis.live. cbn [fst snd]. by rewrite (proj2 (Z.ltb_ge _ _)).
  - intros now' serviceName.
    destruct (DeleteRegistration_ok st db' now' pid serviceName Hon')
      as (db'' & -> & Hon'' & Hstr'' & Hset'' & _). cbn [fst]. split; [done|].
    rewrite LoadRegistration_lookup, Hstr'' by done. by rewrite lookup_delete_eq.
Qed.

(** X23. Without a storage the adapter does nothing: a save and a delete
    on a nil storage return [nil] and leave the server alone, a load and
    a restore return "redis not configured"; [NewRedisStorage] returns
    the nil storage for an empty address and pings the server otherwise.
    With a server that cannot be reached, [NewRedisStorage] and a save
    fail, a load returns the error of the command, a restore returns
    "redis scan error", and [DeleteRegistration] still returns [nil]: it
    only logs the errors of its commands. *)
Theorem adapter_without_server (st : storage.RedisStorage) (db : redis.DB) (now : Z)
    (pid : peer.ID) (record : storage.RegistrationRecord.t) (serviceName addr : string)
    (keys : list string) :
  SaveRegistration None db now pid record = (db, None)
  ∧ DeleteRegistration None db now pid serviceName = (db, None)
  ∧ LoadRegistration None db now pid = (None, Some "redis not configured")
  ∧ RestoreAllRegistrations None db now keys = (∅, Some "redis not configured")
  ∧ NewRedisStorage db "" (storage.ttl st) = (None, None)
  ∧ (redis.online db = true → addr ≠ "" →
     NewRedisStorage db addr (storage.ttl st)
     = (Some {| storage.ttl := storage.ttl st |}, None))
  ∧ (redis.online db = false →
     (addr ≠ "" →
      NewRedisStorage db addr (storage.ttl st)
      = (None, Some ("failed to connect to Redis at " +:+ addr +:+ ": " +:+
                     redis.unreachable)))
     ∧ (∃ err, SaveRegistration (Some st) db now pid record = (db, Some err))
     ∧ DeleteRegistration (Some st) db now pid serviceName = (db, None)
     ∧ LoadRegistration (Some st) db now pid = (None, Some redis.unreachable)
     ∧ RestoreAllRegistrations (Some st) db now keys
       = (∅, Some ("redis scan error: " +:+ redis.unreachable))).
Proof.
  split; [done|]. split; [done|]. split; [done|]. split; [done|]. split; [done|].
  split.
  { intros Hon Ha. unfold NewRedisStorage, redis.Ping.
    by rewrite bool_decide_eq_false_2, Hon by done. }
  intros Hoff. split.
  { intros Ha. unfold NewRedisStorage, redis.Ping.
    by rewrite bool_decide_eq_false_2, Hoff by done. }
  split.
  { unfold SaveRegistration, redis.Set_. rewrite Hoff.
    destruct (json_MarshalRecord record) as [data [err|]]; by eexists. }
  split.
  { unfold DeleteRegistration, redis.Del, redis.SRem. rewrite Hoff. cbn. by rewrite Hoff. }
  split.
  { unfold LoadRegistration, redis.Get. by rewrite Hoff. }
  unfold RestoreAllRegistrations, storage_RestoreAllRegistrations, redisView, redis.Ping.
  cbn [storage.scan_err storage.scan_keys]. by rewrite Hoff.
Qed.

End RedisExtras.

(* ===================================================================== *)
(** * The registry and its durable store *)
(* ===================================================================== *)

Section Mirror.
Context `{Libs} `{ApiLibs}.
Variable st : storage.RedisStorage.
Hypothesis ttl_pos : 0 < storage.ttl st.
Hypothesis decode_string : ∀ pid, peer_Decode (peer_String pid) = Some pid.

Lemma registrationKey_inj (p q : peer.ID) :
  registrationKey p = registrationKey q → p = q.
Proof.
  unfold registrationKey. intros Heq. apply append_inv_head in Heq.
  apply (f_equal peer_Decode) in Heq. rewrite !decode_string in Heq. by injection Heq.
Qed.

Lemma execEvent_other (now : Z) (db : redis.DB) (e : Event) :
  isStoreWrite e = false → execEvent (Some st) now db e = db.
Proof. by destruct e. Qed.

Lemma foldl_execEvent_other (now : Z) (db : redis.DB) (tr : list Event) :
  Forall (λ e, isStoreWrite e = false) tr → foldl (execEvent (Some st) now) db tr = db.
Proof.
  revert db. induction tr as [|e tr IH]; intros db Hall; [done|].
  apply Forall_cons in Hall as [He Hall]. cbn [foldl].
  rewrite execEvent_other by done. by apply IH.
Qed.

Lemma mirrors_save (r r' : RegistryNode) (db : redis.DB) (now : Z) (pid : peer.ID)
    (record : RegistrationRecord.t) (data : string) :
  mirrors r db (storage.ttl st) →
  Registrations r' = <[pid := record]> (Registrations r) →
  RegistrationRecord.LastSeen record = now →
  json_MarshalRecord (convertToStorageRecord record) = (data, None) →
  json_Unmarshal data = Some (convertToStorageRecord record) →
  mirrors r' (execEvent (Some st) now db (RedisSave pid (convertToStorageRecord record)))
    (storage.ttl st).
Proof.
  intros (Hon & M1 & M2 & M3) HR Hls Hm Hu. cbn [execEvent].
  set (skey := serviceKey (ServiceCard.Name (storage.RegistrationRecord.ServiceCard
                                              (convertToStorageRecord record)))).
  assert (redis.strings db !! skey = None) as Hnone.
  { destruct (redis.strings db !! skey) as [e|] eqn:E; [|done].
    destruct (M2 _ _ E) as (p & Hp & _). symmetry in Hp.
    by apply registrationKey_ne_serviceKey in Hp. }
  destruct (SaveRegistration_ok st db now pid (convertToStorageRecord record) data)
    as (db' & -> & Hon' & Hstr & _ & Hsets & _); [done|done|done| |].
  { unfold redis.isString. fold skey. by rewrite Hnone. }
  fold skey in Hstr, Hsets. cbn [fst].
  rewrite delete_id in Hstr.
  2:{ rewrite lookup_insert_ne; [done|]. apply registrationKey_ne_serviceKey. }
  split; [done|]. split; [|split].
  - intros p rec Hp. rewrite HR in Hp. rewrite Hstr.
    destruct (decide (p = pid)) as [->|Hne].
    + rewrite lookup_insert_eq in Hp. injection Hp as <-. rewrite lookup_insert_eq.
      exists data. by rewrite Hls.
    + rewrite lookup_insert_ne in Hp by done.
      rewrite lookup_insert_ne by (intros Heq; by apply registrationKey_inj in Heq).
      by apply M1.
  - intros key e He. rewrite Hstr in He. rewrite HR.
    destruct (decide (key = registrationKey pid)) as [->|Hne].
    + exists pid. by rewrite lookup_insert_eq.
    + rewrite lookup_insert_ne in He by done.
      destruct (M2 _ _ He) as (p & -> & Hp). exists p. split; [done|].
      destruct (decide (p = pid)) as [->|?];
        [by rewrite lookup_insert_eq|by rewrite lookup_insert_ne].
  - intros key e He. apply Hsets in He as [->|[e' He]]; [by eexists|]. by eapply M3.
Qed.

Lemma mirrors_delete (r r' : RegistryNode) (db : redis.DB) (now : Z) (pid : peer.ID)
    (serviceName : string) :
  mirrors r db (storage.ttl st) →
  Registrations r' = delete pid (Registrations r) →
  mirrors r' (execEvent (Some st) now db (RedisDelete pid serviceName)) (storage.ttl st).
Proof.
  intros (Hon & M1 & M2 & M3) HR. cbn [execEvent].
  destruct (DeleteRegistration_ok st db now pid serviceName Hon)
    as (db' & -> & Hon' & Hstr & _ & Hsets). cbn [fst].
  split; [done|]. split; [|split].
  - intros p rec Hp. rewrite HR in Hp. apply lookup_delete_Some in Hp as [Hne Hp].
    rewrite Hstr, lookup_delete_ne by (intros Heq; by apply registrationKey_inj in Heq).
    by apply M1.
  - intros key e He. rewrite Hstr in He. apply lookup_delete_Some in He as [Hne He].
    destruct (M2 _ _ He) as (p & -> & Hp). exists p. split; [done|].
    rewrite HR, lookup_delete_ne; [done|]. by intros ->.
  - intros key e He. apply Hsets in He as [e' He]. by eapply M3.
Qed.

Lemma mirrors_same (r r' : RegistryNode) (db : redis.DB) :
  mirrors r db (storage.ttl st) → Registrations r' = Registrations r →
  mirrors r' db (storage.ttl st).
Proof. unfold mirrors. by intros ? ->. Qed.

(** The store calls of a request: none, with the records as they were,
    or one save, of the record the request installs for its peer. *)
Lemma handleStream_store (r : RegistryNode) (remotePeer : peer.ID) (now : Z)
    (req : RegistryRequest.t) :
  storage_ r = Some st →
  (Registrations (handleStream r remotePeer now req).1.1 = Registrations r
   ∧ Forall (λ e, isStoreWrite e = false) (handleStream r remotePeer now req).2)
  ∨ ∃ record pre post,
      Registrations (handleStream r remotePeer now req).1.1
      = <[remotePeer := record]> (Registrations r)
      ∧ RegistrationRecord.LastSeen record = now
      ∧ (handleStream r remotePeer now req).2
        = pre ++ RedisSave remotePeer (convertToStorageRecord record) :: post
      ∧ Forall (λ e, isStoreWrite e = false) pre
      ∧ Forall (λ e, isStoreWrite e = false) post.
Proof.
  intros Hst. unfold handleStream. case_bool_decide.
  2:{ left. case_bool_decide; cbn; split; try done; repeat constructor. }
  destruct (isHeartbeat _ req).
  - unfold handleHeartbeat. destruct (Registrations r !! remotePeer) as [entry|].
    + right. rewrite Hst. cbn [storage_SaveRegistration fst snd].
      eexists _, [MuLock; MuUnlock; MuLock], [MuUnlock].
      split; [reflexivity|]. split; [done|]. split; [done|].
      split; repeat constructor.
    + left. cbn. split; [done|]. repeat constructor.
  - unfold handleNewRegistration.
    destruct (checkStakeValidity _ _ _); [left; cbn; split; [done|repeat constructor]|].
    destruct (RegistryRequest.StakeProof req) as [proof|];
      [|left; cbn; split; [done|repeat constructor]].
    destruct (default false _); [left; cbn; split; [done|repeat constructor]|].
    set (r1 := with_seenStakeNonces r _).
    set (r2 := match Registrations r !! remotePeer with
               | Some existing => _ | None => r1 end).
    assert (Registrations r2 = Registrations r ∧ config r2 = config r) as [HR2 HC2].
    { subst r2. destruct (Registrations r !! remotePeer) as [existing|]; [|done].
      case_bool_decide; [|done].
      destruct (removeFromIndex_frame r1 remotePeer
                  (ServiceCard.Name (RegistrationRecord.ServiceCard existing)))
        as (? & _ & ?). done. }
    unfold config in HC2. injection HC2 as _ _ Hq2 Hs2.
    assert (∀ indexed : list Event,
              indexed = match qdrant r2 with
                        | Some _ =>
                          if (0 <? length (buildServiceEmbedding (RegistryRequest.Card req)))%nat
                          then [QdrantUpsert
                                  (peer_String remotePeer +:+ ":" +:+
                                   ServiceCard.Name (RegistryRequest.Card req))
                                  (buildServiceEmbedding (RegistryRequest.Card req))]
                          else []
                        | None => []
                        end →
              Forall (λ e, isStoreWrite e = false) indexed) as Hidx.
    { intros indexed ->. destruct (qdrant r2); [|constructor].
      case_match; repeat constructor. }
    destruct (RegistryRequest.ProviderInfo req) as [info|].
    + right.
      set (rec := {| RegistrationRecord.LastSeen := now;
                     RegistrationRecord.ServiceCard := RegistryRequest.Card req;
                     RegistrationRecord.StakeProof := Some proof;
                     RegistrationRecord.AddrInfo := info |}).
      destruct (addToIndex_frame
                  (with_Registrations r2 (<[remotePeer := rec]> (Registrations r2)))
                  remotePeer (ServiceCard.Name (RegistryRequest.Card req)))
        as (HR3 & _ & HC3).
      unfold config in HC3. injection HC3 as _ _ Hq3 Hs3.
      cbn [fst snd]. rewrite Hs3, Hq3. cbn [storage_ qdrant with_Registrations].
      rewrite Hs2, Hst. cbn [storage_SaveRegistration].
      exists rec, [MuLock; MuUnlock; StakeMuLock; StakeMuUnlock; MuLock].
      eexists (MuUnlock :: _).
      split; [by rewrite HR3; cbn; rewrite HR2|]. split; [done|].
      split; [reflexivity|]. split; [repeat constructor|].
      constructor; [done|]. by apply Hidx.
    + left. cbn [fst snd app]. split; [done|].
      repeat (constructor; [done|]). by apply Hidx.
Qed.

Lemma handleStream_mirrors (r : RegistryNode) (db : redis.DB) (remotePeer : peer.ID)
    (now : Z) (req : RegistryRequest.t) :
  storage_ r = Some st →
  mirrors r db (storage.ttl st) →
  (∀ pid record,
     RedisSave pid record ∈ (handleStream r remotePeer now req).2 →
     ∃ data, json_MarshalRecord record = (data, None)
             ∧ json_Unmarshal data = Some record) →
  mirrors (handleStream r remotePeer now req).1.1
    (foldl (execEvent (Some st) now) db (handleStream r remotePeer now req).2)
    (storage.ttl st).
Proof.
  intros Hst Hm Hjson.
  destruct (handleStream_store r remotePeer now req Hst)
    as [[HR Hall]|(record & pre & post & HR & Hls & Htr & Hpre & Hpost)].
  - rewrite foldl_execEvent_other by done. by eapply mirrors_same.
  - destruct (Hjson remotePeer (convertToStorageRecord record)) as (data & Hma & Hun).
    { rewrite Htr. apply elem_of_app. right. by left. }
    rewrite Htr, foldl_app. cbn [foldl].
    rewrite (foldl_execEvent_other now db pre) by done.
    rewrite foldl_execEvent_other by done.
    by eapply mirrors_save.
Qed.

Lemma foldl_gcVisit_mirrors (now : Z) (entries : list (string * RegistrationRecord.t))
    (r : RegistryNode) (tr : list Event) (db : redis.DB) :
  storage_ r = Some st →
  mirrors r db (storage.ttl st) →
  ∃ new,
    (foldl (gcVisit now) (r, tr) entries).2 = tr ++ new
    ∧ mirrors (foldl (gcVisit now) (r, tr) entries).1
        (foldl (execEvent (Some st) now) db new) (storage.ttl st).
Proof.
  revert r tr db. induction entries as [|[pid record] entries IH]; intros r tr db Hst Hm.
  - exists []. cbn [foldl]. by rewrite app_nil_r.
  - cbn [foldl].
    destruct (staleb now (RegistrationRecord.LastSeen record)) eqn:Hs.
    + rewrite gcVisit_evict by done. rewrite Hst. cbn [storage_DeleteRegistration].
      set (name := ServiceCard.Name (RegistrationRecord.ServiceCard record)).
      set (r1 := removeFromIndex (with_Registrations r (delete pid (Registrations r)))
                   pid name).
      destruct (IH r1 (tr ++ [RedisDelete pid name])
                  (execEvent (Some st) now db (RedisDelete pid name)))
        as (new & Htr & Hm').
      { exact Hst. }
      { eapply mirrors_delete; [exact Hm|]. reflexivity. }
      exists (RedisDelete pid name :: new). split; [by rewrite Htr, <- app_assoc|done].
    + rewrite gcVisit_keep by done. by apply IH.
Qed.

Lemma step_mirrors (r : RegistryNode) (db : redis.DB) (op : Op) :
  storage_ r = Some st →
  mirrors r db (storage.ttl st) →
  (∀ pid record,
     RedisSave pid record ∈ stepTrace r op →
     ∃ data, json_MarshalRecord record = (data, None)
             ∧ json_Unmarshal data = Some record) →
  mirrors (step r op) (stepWith (r, db) op).2 (storage.ttl st).
Proof.
  intros Hst Hm Hjson. unfold stepWith. cbn [fst snd]. rewrite Hst.
  destruct op as [remotePeer now req|now]; cbn [step stepTrace opTime] in *.
  - by apply handleStream_mirrors.
  - unfold gcTick, gcTickIn.
    destruct (foldl_gcVisit_mirrors now (map_to_list (Registrations r)) r [MuLock] db Hst Hm)
      as (new & Htr & Hm').
    destruct (foldl (gcVisit now) (r, [MuLock]) (map_to_list (Registrations r)))
      as [r' tr'] eqn:E.
    cbn [fst snd] in *. subst tr'.
    rewrite foldl_app. cbn [foldl app execEvent]. exact Hm'.
Qed.

Lemma runWith_mirrors (ops : list Op) (r : RegistryNode) (db : redis.DB) :
  storage_ r = Some st →
  mirrors r db (storage.ttl st) →
  (∀ pid record,
     RedisSave pid record ∈ runTrace r ops →
     ∃ data, json_MarshalRecord record = (data, None)
             ∧ json_Unmarshal data = Some record) →
  (runWith (r, db) ops).1 = run r ops
  ∧ mirrors (run r ops) (runWith (r, db) ops).2 (storage.ttl st).
Proof.
  revert r db. induction ops as [|op ops IH]; intros r db Hst Hm Hjson; [done|].
  cbn [runWith run foldl]. cbn [runTrace] in Hjson.
  change (stepWith (r, db) op) with (step r op, (stepWith (r, db) op).2).
  apply IH.
  - destruct (step_frame r op) as [Hc _]. unfold config in Hc.
    injection Hc as _ _ _ Hs. by rewrite Hs.
  - apply step_mirrors; [done|done|]. intros pid record Hin. apply (Hjson pid).
    apply elem_of_app. by left.
  - intros pid record Hin. apply (Hjson pid). apply elem_of_app. by right.
Qed.

Hypothesis ttl_long : 90 * Go.Second < storage.ttl st.

Lemma restored_of_mirror (r : RegistryNode) (db : redis.DB) (now : Z) (keys : list string)
    (key pid : string) (srec : storage.RegistrationRecord.t) :
  mirrors r db (storage.ttl st) →
  restored (redisView db now keys) now key = Some (pid, srec) ↔
  ∃ record,
    key = registrationKey pid
    ∧ Registrations r !! pid = Some record
    ∧ srec = convertToStorageRecord record
    ∧ now - RegistrationRecord.LastSeen record ≤ 90 * Go.Second.
Proof.
  intros (Hon & M1 & M2 & M3). rewrite restored_holds. unfold holds, stale.
  cbn [storage.get redisView]. unfold redis.Get, redis.isSet. rewrite Hon. split.
  - intros ((data & Hget & Hun & Hdec) & Hfresh).
    destruct (redis.sets db !! key) as [e|] eqn:Es.
    { destruct (M3 _ _ Es) as (n & ->).
      destruct (redis.live now e); [done|].
      destruct (redis.strings db !! serviceKey n) as [e'|] eqn:E'; [|done].
      destruct (M2 _ _ E') as (p & Hp & _). symmetry in Hp.
      by apply registrationKey_ne_serviceKey in Hp. }
    destruct (redis.strings db !! key) as [entry|] eqn:E; [|done].
    destruct (redis.live now entry) eqn:Hl; [|done]. injection Hget as <-.
    destruct (M2 _ _ E) as (p & -> & [record Hr]).
    destruct (M1 _ _ Hr) as (data & E' & Hun'). rewrite E in E'. injection E' as ->.
    cbn [fst] in Hun. rewrite Hun' in Hun. injection Hun as <-.
    unfold registrationKey in Hdec. rewrite TrimPrefix_append, decode_string in Hdec.
    injection Hdec as <-. exists record. repeat split; try done.
    cbn in Hfresh. lia.
  - intros (record & -> & Hr & -> & Hfresh).
    destruct (M1 _ _ Hr) as (data & E & Hun).
    split; [|cbn; lia]. exists data.
    destruct (redis.sets db !! registrationKey pid) as [e|] eqn:Es.
    { destruct (M3 _ _ Es) as (n & Hn). by apply registrationKey_ne_serviceKey in Hn. }
    rewrite E. unfold redis.live. cbn [fst snd].
    rewrite (proj2 (Z.ltb_lt _ _)) by lia.
    split; [done|]. split; [done|].
    unfold registrationKey. by rewrite TrimPrefix_append.
Qed.

Lemma restore_of_mirror (h : host.Host) (m : spec_float) (q : option QdrantClient)
    (r : RegistryNode) (db : redis.DB) (now : Z) (keys : list string) :
  mirrors r db (storage.ttl st) →
  (∀ key, key ∈ keys ↔ key ∈ redis.Keys db now "registration:") →
  let r' := (restoreStateFromRedis (newRegistryNode h m q (Some st))
               (redisView db now keys) now).1.1 in
  (∀ pid record,
     Registrations r' !! pid = Some record ↔
     Registrations r !! pid = Some record
     ∧ now - RegistrationRecord.LastSeen record ≤ 90 * Go.Second)
  ∧ (∀ n pid,
       listed r' n pid ↔
       ∃ record, Registrations r' !! pid = Some record
                 ∧ ServiceCard.Name (RegistrationRecord.ServiceCard record) = n)
  ∧ IndexNoDup r'.
Proof.
  intros Hm Hkeys r'.
  pose proof Hm as (Hon & M1 & M2 & M3).
  assert (storage.scan_err (redisView db now keys) = None) as Herr.
  { cbn. unfold redis.Ping. by rewrite Hon. }
  destruct (restoreStateFromRedis_state h m q st (redisView db now keys) now Herr)
    as (_ & HR & Hnd & Hl).
  fold r' in HR, Hnd, Hl.
  assert (storage.scan_keys (redisView db now keys) = keys) as Hsk.
  { cbn. by rewrite Hon. }
  rewrite Hsk in HR, Hl.
  set (records := foldl (restoreKey (redisView db now keys) now) ∅ keys) in *.
  assert (∀ pid srec,
            records !! pid = Some srec ↔
            ∃ record, Registrations r !! pid = Some record
                      ∧ srec = convertToStorageRecord record
                      ∧ now - RegistrationRecord.LastSeen record ≤ 90 * Go.Second) as Hrec.
  { intros pid srec.
    destruct (foldl_restoreKey (redisView db now keys) now keys pid) as [H1 H2].
    fold records in H1, H2. split.
    - intros Hs. destruct (H1 _ Hs) as (key & _ & Hres).
      apply (restored_of_mirror r) in Hres as (record & _ & ? & ? & ?); [|done].
      by exists record.
    - intros (record & Hr & -> & Hfresh).
      destruct (H2 (registrationKey pid) (convertToStorageRecord record)) as [srec' Hs'].
      + apply Hkeys. unfold redis.Keys. apply elem_of_app. left.
        destruct (M1 _ _ Hr) as (data & E & _).
        apply list_elem_of_fmap.
        exists (registrationKey pid, (data, Some (RegistrationRecord.LastSeen record
                                                  + storage.ttl st))).
        split; [done|]. apply list_elem_of_filter. split.
        * cbn [fst snd]. split.
          -- unfold redis.live. cbn [snd]. apply Z.ltb_lt. lia.
          -- unfold registrationKey. apply HasPrefix_append.
        * by apply elem_of_map_to_list.
      + apply (restored_of_mirror r); [done|]. by exists record.
      + rewrite Hs'. f_equal.
        destruct (H1 _ Hs') as (key & _ & Hres).
        apply (restored_of_mirror r) in Hres as (record' & _ & Hr' & -> & _); [|done].
        rewrite Hr in Hr'. by injection Hr' as <-. }
  assert (∀ record, convertFromStorageRecord (convertToStorageRecord record) = record)
    as Hconv by (by intros []).
  assert (∀ pid record,
     Registrations r' !! pid = Some record ↔
     Registrations r !! pid = Some record
     ∧ now - RegistrationRecord.LastSeen record ≤ 90 * Go.Second) as HR'.
  { intros pid record. rewrite HR. split.
    - intros (srec & Hs & ->). apply Hrec in Hs as (rec & Hr & -> & Hfresh).
      by rewrite Hconv.
    - intros [Hr Hfresh]. exists (convertToStorageRecord record).
      split; [|by rewrite Hconv]. apply Hrec. by exists record. }
  split; [exact HR'|]. split; [|exact Hnd].
  intros n pid. rewrite Hl. split.
  - intros (srec & Hs & ->). exists (convertFromStorageRecord srec).
    split; [|done]. apply HR. by exists srec.
  - intros (record & Hr & <-). apply HR in Hr as (srec & Hs & ->). by exists srec.
Qed.

End Mirror.

(** X24. A registry that runs with a durable store can be restarted
    without losing a live registration. Started on an empty, reachable
    server, the registry keeps the server a mirror of its records along
    every run (every record the run saves surviving the JSON round trip,
    and [peer.Decode] inverting [peer.ID.String]): a registration and a
    heartbeat write the record of the peer, an eviction deletes it. A
    registry started afterwards on that server, at any later instant,
    holds exactly the records of the old one that are at most 90 seconds
    old, and its index lists exactly the peers of these records under
    the service names of the records. The 120 seconds the keys live
    outlast the 90 seconds a record stays fresh. *)
Theorem restart_restores_the_fresh_records `{Libs} `{ApiLibs} (h : host.Host)
    (m : spec_float) (q : option QdrantClient) (addr : string) (ops : list Op)
    (now : Z) (keys : list string) :
  addr ≠ "" →
  (∀ pid, peer_Decode (peer_String pid) = Some pid) →
  let node := newRegistryNode h m q (Some {| storage.ttl := 120 * Go.Second |}) in
  (∀ pid record,
     RedisSave pid record ∈ runTrace node ops →
     ∃ data, json_MarshalRecord record = (data, None)
             ∧ json_Unmarshal data = Some record) →
  let r := run node ops in
  let db := (runWith (node, redis.empty) ops).2 in
  (∀ key, key ∈ keys ↔ key ∈ redis.Keys db now "registration:") →
  startRegistry h m q redis.empty addr 0 [] = Some node
  ∧ mirrors r db (120 * Go.Second)
  ∧ ∃ r',
      startRegistry h m q db addr now keys = Some r'
      ∧ (∀ pid record,
           Registrations r' !! pid = Some record ↔
           Registrations r !! pid = Some record
           ∧ now - RegistrationRecord.LastSeen record ≤ 90 * Go.Second)
      ∧ (∀ n pid,
           listed r' n pid ↔
           ∃ record, Registrations r' !! pid = Some record
                     ∧ ServiceCard.Name (RegistrationRecord.ServiceCard record) = n)
      ∧ IndexNoDup r'.
Proof.
  intros Haddr Hdec node Hjson r db Hkeys.
  set (st := {| storage.ttl := 120 * Go.Second |}).
  assert (0 < storage.ttl st) as Hpos by (cbn; unfold Go.Second; lia).
  assert (90 * Go.Second < storage.ttl st) as Hlong by (cbn; unfold Go.Second; lia).
  assert (mirrors node redis.empty (storage.ttl st)) as Hm0.
  { split; [done|]. split; [|split]; intros ? ? Hl; cbn in Hl;
      by rewrite lookup_empty in Hl. }
  destruct (runWith_mirrors st Hpos Hdec ops node redis.empty eq_refl Hm0 Hjson)
    as [_ Hm].
  fold r db in Hm.
  split.
  { unfold startRegistry, NewRedisStorage. by rewrite bool_decide_eq_false_2 by done. }
  split; [exact Hm|].
  pose proof Hm as (Hon & _).
  destruct (restore_of_mirror st Hdec Hlong h m q r db now keys Hm Hkeys)
    as (HR & Hl & Hnd).
  eexists. split; [|split; [exact HR|split; [exact Hl|exact Hnd]]].
  unfold startRegistry, NewRedisStorage, redis.Ping.
  by rewrite bool_decide_eq_false_2, Hon by done.
Qed.

Lemma restart_restores_the_fresh_records_witness :
  let r := @run StoreScenario.libs StoreScenario.node StoreScenario.ops in
  let db := (@runWith StoreScenario.libs StoreScenario.apiLibs
               (StoreScenario.node, redis.empty) StoreScenario.ops).2 in
  let now := 110 * Go.Second in
  is_Some (Registrations r !! "peerB")
  ∧ ∃ r',
      @startRegistry StoreScenario.libs Scenario.h
        (Go.float64_of_Z 10) None db "localhost:6379" now
        (redis.Keys db now "registration:") = Some r'
      ∧ is_Some (Registrations r' !! "peerA")
      ∧ Registrations r' !! "peerB" = None.
Proof.
  intros r db now.
  assert ("localhost:6379" ≠ "") as Haddr by discriminate.
  assert (∀ pid, @peer_Decode StoreScenario.libs (@peer_String StoreScenario.libs pid)
                 = Some pid) as Hdec by done.
  assert (∀ pid record,
     RedisSave pid record ∈ @runTrace StoreScenario.libs StoreScenario.node StoreScenario.ops →
     ∃ data, @json_MarshalRecord StoreScenario.apiLibs record = (data, None)
             ∧ @json_Unmarshal StoreScenario.libs data = Some record) as Hjson.
  { intros pid record Hin. vm_compute in Hin.
    repeat (apply elem_of_cons in Hin as [Heq|Hin];
            [try discriminate Heq;
             injection Heq as -> ->; eexists; split; vm_compute; reflexivity|]).
    by apply elem_of_nil in Hin. }
  destruct (@restart_restores_the_fresh_records StoreScenario.libs StoreScenario.apiLibs
              Scenario.h (Go.float64_of_Z 10) None "localhost:6379" StoreScenario.ops now
              (redis.Keys db now "registration:") Haddr Hdec Hjson (λ key, reflexivity _))
    as (_ & _ & r' & Hstart & HR & _).
  assert (∃ recA, Registrations r !! "peerA" = Some recA
                  ∧ RegistrationRecord.LastSeen recA = 60 * Go.Second) as (recA & HA & HlA).
  { eexists. split; vm_compute; reflexivity. }
  assert (∃ recB, Registrations r !! "peerB" = Some recB
                  ∧ RegistrationRecord.LastSeen recB = 10 * Go.Second) as (recB & HB & HlB).
  { eexists. split; vm_compute; reflexivity. }
  split; [by exists recB|].
  exists r'. split; [exact Hstart|]. split.
  - exists recA. apply HR. split; [exact HA|]. rewrite HlA. vm_compute. discriminate.
  - destruct (Registrations r' !! "peerB") as [rec|] eqn:E; [|done].
    apply HR in E as [E Hfresh].
    assert (Some recB = Some rec) as Heq by (rewrite <- HB; exact E).
    injection Heq as <-. rewrite HlB in Hfresh. vm_compute in Hfresh. by destruct Hfresh.
Defined.

(* ===================================================================== *)
(** * The properties of the handlers and of the clients on concrete
      registries *)
(* ===================================================================== *)

Lemma getAllServices_groups_records_witness :
  let r := @run Scenario.libs Scenario.empty
             [Request "peerA" 0
                (Scenario.register "math" (Some (Scenario.proof "tx1" 1 10))
                   (Some (Scenario.addrOf "peerA")));
              Request "peerB" Go.Second
                (Scenario.register "math" (Some (Scenario.proof "tx2" 1 10))
                   (Some (Scenario.addrOf "peerB")))] in
  ∃ view,
    getAllServices r = (http.StatusOK, api.Services view (Z.of_nat (size view)))
    ∧ length (default [] (view !! "math")) = 2%nat
    ∧ view !! "echo" = None.
Proof.
  intros r.
  destruct (getAllServices_groups_records r (map_to_list (Registrations r))
              (reflexivity _)) as (view & Heq & Hl & Hs & _).
  exists view. split; [exact Heq|]. split.
  - rewrite (Permutation_length (Hl "math")). vm_compute. reflexivity.
  - destruct (view !! "echo") as [l|] eqn:E; [|done].
    destruct (proj1 (Hs "echo")) as (pid & record & Hr & Hn); [by rewrite E|].
    assert (∀ p rec, Registrations r !! p = Some rec →
              ServiceCard.Name (RegistrationRecord.ServiceCard rec) = "math") as Hall.
    { assert (Forall (λ kv : string * RegistrationRecord.t,
                        ServiceCard.Name (RegistrationRecord.ServiceCard kv.2) = "math")
                (map_to_list (Registrations r))) as HF
        by (apply (bool_decide_unpack _); vm_compute; reflexivity).
      intros p rec Hp. apply elem_of_map_to_list in Hp.
      rewrite Forall_forall in HF. exact (HF _ Hp). }
    rewrite (Hall _ _ Hr) in Hn. discriminate.
Defined.

Lemma getAllServicesFull_agrees_with_getAllServices_witness :
  let r := @run Scenario.libs Scenario.empty
             [Request "peerA" 0
                (Scenario.register "math" (Some (Scenario.proof "tx1" 1 10))
                   (Some (Scenario.addrOf "peerA")));
              Request "peerB" Go.Second
                (Scenario.register "math" (Some (Scenario.proof "tx2" 1 10))
                   (Some (Scenario.addrOf "peerB")))] in
  ∃ full view,
    getAllServicesFull r = (http.StatusOK, api.ServicesFull full (Z.of_nat (size full)))
    ∧ getAllServices r = (http.StatusOK, api.Services view (Z.of_nat (size view)))
    ∧ api.providers <$> full = view
    ∧ size full = 1%nat.
Proof.
  intros r.
  destruct (getAllServicesFull_agrees_with_getAllServices r
              (map_to_list (Registrations r)) (reflexivity _))
    as (full & view & Hf & Hv & Hp & Hs & _).
  exists full, view. split; [exact Hf|]. split; [exact Hv|]. split; [exact Hp|].
  rewrite Hs.
  assert (match (getAllServicesIn (map_to_list (Registrations r))).2 with
          | api.Services v _ => size v
          | _ => 0%nat
          end = 1%nat) as Hc by (vm_compute; reflexivity).
  rewrite Hv in Hc. exact Hc.
Defined.

Lemma searchServices_lists_matching_names_witness :
  let r := @run Scenario.libs Scenario.empty
             [Request "peerA" 0
                (Scenario.register "math" (Some (Scenario.proof "tx1" 1 10))
                   (Some (Scenario.addrOf "peerA")));
              Request "peerB" Go.Second
                (Scenario.register "echo" (Some (Scenario.proof "tx2" 1 10))
                   (Some (Scenario.addrOf "peerB")))] in
  @searchServices Scenario.libs r ""
  = (http.StatusBadRequest, api.Error "query parameter 'q' is required")
  ∧ ∃ results,
      @searchServices Scenario.libs r "MA"
      = (http.StatusOK, api.Search "MA" results (Z.of_nat (size results)))
      ∧ results !! "math" = Some [Scenario.addrOf "peerA"]
      ∧ results !! "echo" = None.
Proof.
  intros r.
  assert ("MA" ≠ "") as Hq by discriminate.
  destruct (@searchServices_lists_matching_names Scenario.libs r
              (map_to_list (ServiceIndex r)) "MA" (reflexivity _) Hq)
    as (Hbad & results & Heq & Hchar & _).
  split; [exact Hbad|]. exists results. split; [exact Heq|]. split.
  - apply Hchar. split; [discriminate|]. split; [vm_compute; reflexivity|].
    exists ["peerA"]. split; vm_compute; reflexivity.
  - destruct (results !! "echo") as [l|] eqn:E; [|done].
    apply Hchar in E as (_ & Hc & _). vm_compute in Hc. discriminate.
Defined.

Lemma getServiceByName_exact_witness :
  let r := @run Scenario.libs Scenario.empty
             [Request "peerA" 0
                (Scenario.register "math" (Some (Scenario.proof "tx1" 1 10))
                   (Some (Scenario.addrOf "peerA")))] in
  getServiceByName r "Math"
  = (http.StatusNotFound, api.Error "service 'Math' not found")
  ∧ ∃ providers,
      getServiceByName r "math" = (http.StatusOK, api.Service "math" providers 1)
      ∧ providers ≡ₚ [Scenario.addrOf "peerA"].
Proof.
  intros r.
  assert (IndexSound r) as Hsound.
  { apply (@run_sound Scenario.libs). apply IndexSound_empty. }
  assert (InvariantA r) as HA.
  { apply (@invariants_along_run Scenario.libs).
    intros done op [rest Hp] Hd. destruct done as [|op0 done].
    - injection Hp as <- _. simpl in Hd. destruct Hd as (_ & _ & Hi & _). discriminate.
    - injection Hp as _ Hp. by destruct done. }
  destruct (getServiceByName_exact r "Math" Hsound HA) as [Hnone _].
  destruct (getServiceByName_exact r "math" Hsound HA) as [_ Hsome].
  split.
  - apply Hnone. vm_compute. reflexivity.
  - destruct Hsome as (providers & Heq & Hperm); [vm_compute; discriminate|].
    exists providers. split.
    + rewrite Heq. vm_compute. reflexivity.
    + rewrite Hperm. vm_compute. reflexivity.
Defined.

Lemma semantic_search_results_are_registered_witness :
  let r := @run Scenario.libs Scenario.emptyStored
             [Request "peerA" 0
                (Scenario.register "math" (Some (Scenario.proof "tx1" 1 10))
                   (Some (Scenario.addrOf "peerA")))] in
  let hit := λ service pid,
    {| ID := GoLib.AnyInt 7; Score := Go.float64_of_Z 1;
       Payload := {[ "service_name" := GoLib.AnyString service;
                     "peer_id" := GoLib.AnyString pid ]} |} in
  let Search := λ (_ : list spec_float) (_ : Z),
    ([hit "math" "peerZ"; hit "math" "peerA"; hit "echo" "peerA"], None : error) in
  ∃ results,
    (@semanticSearchServices Scenario.libs StoreScenario.apiLibs r Search "math" (Some "3")).1
    = (http.StatusOK, api.Semantic "math" results (Z.of_nat (length results)))
    ∧ (api.ServiceName <$> results) = ["math"]
    ∧ (api.Providers <$> results) = [[Scenario.addrOf "peerA"]].
Proof.
  intros r hit Search.
  assert (qdrant r = Some {| BaseURL := "http://localhost:6333";
                             Collection := "prxs_services" |}) as Hq
    by (vm_compute; reflexivity).
  assert (@strings_TrimSpace StoreScenario.apiLibs "math" ≠ "") as Ht by discriminate.
  destruct (@semantic_search_results_are_registered Scenario.libs StoreScenario.apiLibs
              r Search "math" (Some "3") _ _ Hq Ht eq_refl)
    as (results & Heq & _).
  exists results. split; [by rewrite Heq|].
  assert ((@semanticSearchServices Scenario.libs StoreScenario.apiLibs r Search "math"
             (Some "3")).1.2
          = api.Semantic "math"
              [{| api.ServiceName := "math"; api.ResultScore := Go.float64_of_Z 1;
                  api.Card := Scenario.card "math";
                  api.Providers := [Scenario.addrOf "peerA"] |}] 1) as Hc
    by (vm_compute; reflexivity).
  rewrite Heq in Hc. cbn [fst snd] in Hc. injection Hc as -> _. done.
Defined.

Lemma qdrant_collection_created_once_witness :
  let c := {| Qdrant.BaseURL := "http://localhost:6333";
              Qdrant.Collection := "prxs_services"; Qdrant.VectorSize := 64 |} in
  let Do := λ _ : http.Request,
    ({| http.StatusCode := 200; http.ResponseBody := "{}" |}, None : error) in
  let calls := [CallUpsert Do "peerA:math" [Go.float32_one] [];
                CallSearch Do [Go.float32_one; Go.float32_zero] 0] in
  (foldl (@qdrantStep Scenario.libs StoreScenario.apiLibs) (Some c, []) calls).1 = Some c
  ∧ http.URL <$> (foldl (@qdrantStep Scenario.libs StoreScenario.apiLibs) (Some c, []) calls).2
    = ["http://localhost:6333/collections/prxs_services/points";
       "http://localhost:6333/collections/prxs_services/points/search"].
Proof.
  intros c Do calls.
  assert (Qdrant.VectorSize c ≠ 0) as Hv by discriminate.
  split.
  - exact (proj1 (@qdrant_collection_created_once Scenario.libs StoreScenario.apiLibs
                    c calls Hv)).
  - vm_compute. reflexivity.
Defined.

Lemma saved_registration_loads_back_witness :
  let record := StoreScenario.recordOf 0 "peerA" "math" "tx1" in
  let st := Some StoreScenario.storage in
  ∃ db',
    @SaveRegistration StoreScenario.libs StoreScenario.apiLibs st redis.empty 0
      "peerA" record = (db', None)
    ∧ @LoadRegistration StoreScenario.libs StoreScenario.apiLibs st db' (119 * Go.Second)
        "peerA" = (Some record, None)
    ∧ @LoadRegistration StoreScenario.libs StoreScenario.apiLibs st db' (120 * Go.Second)
        "peerA" = (None, Some redis.Nil).
Proof.
  intros record st.
  assert (0 < storage.ttl StoreScenario.storage) as Httl by (vm_compute; reflexivity).
  destruct (@saved_registration_loads_back StoreScenario.libs StoreScenario.apiLibs
              StoreScenario.storage redis.empty 0 "peerA" record "A0"
              eq_refl Httl eq_refl eq_refl eq_refl)
    as (db' & Hsave & Hload & Hgone & _).
  exists db'. split; [exact Hsave|]. split.
  - apply Hload. vm_compute. reflexivity.
  - apply Hgone. vm_compute. discriminate.
Defined.

(* ===================================================================== *)
(** * The agent: reversing a string *)
(* ===================================================================== *)

Lemma lor_disjoint (n x b : Z) :
  0 ≤ n → x mod 2 ^ n = 0 → 0 ≤ b < 2 ^ n → Z.lor x b = x + b.
Proof.
  intros Hn Hx Hb.
  rewrite <- Z.lxor_lor, <- Z.add_nocarry_lxor; [done| |].
  all: apply Z.bits_inj'; intros k Hk; rewrite Z.land_spec, Z.bits_0.
  all: destruct (decide (k < n)) as [Hlt|Hge];
    [by rewrite <- (Z.mod_pow2_bits_low x n k), Hx, Z.bits_0 by lia|].
  all: destruct (decide (b = 0)) as [->|Hb0]; [by rewrite Z.bits_0, andb_false_r|].
  all: rewrite (Z.bits_above_log2 b k); [apply andb_false_r|lia|].
  all: assert (Z.log2 b < n) by (apply Z.log2_lt_pow2; lia); lia.
Qed.

Lemma land_low (n a : Z) : 0 ≤ n → Z.land a (2 ^ n - 1) = a mod 2 ^ n.
Proof.
  intros Hn. rewrite <- Z.land_ones by done. f_equal.
  rewrite Z.ones_equiv. lia.
Qed.

Ltac bits_to_arith :=
  unfold GoLib.byte;
  repeat rewrite Z.shiftr_div_pow2 by lia;
  repeat rewrite Z.shiftl_mul_pow2 by lia;
  change 63 with (2 ^ 6 - 1); change 31 with (2 ^ 5 - 1);
  change 15 with (2 ^ 4 - 1); change 7 with (2 ^ 3 - 1);
  repeat rewrite land_low by lia;
  change (2 ^ 3) with 8; change (2 ^ 4) with 16; change (2 ^ 5) with 32;
  change (2 ^ 6) with 64; change (2 ^ 12) with 4096; change (2 ^ 18) with 262144.

Ltac arith := Z.div_mod_to_equations; lia.

Ltac decide_tests :=
  repeat first
    [ progress cbn [andb negb orb app length Nat.ltb Nat.leb]
    | match goal with
      | |- context [Z.ltb ?a ?b] => destruct (Z.ltb_spec a b); try lia
      | |- context [Z.leb ?a ?b] => destruct (Z.leb_spec a b); try lia
      | |- context [Z.eqb ?a ?b] => destruct (Z.eqb_spec a b); try lia
      end ].

Ltac three_bytes r :=
  bits_to_arith;
  replace ((r / 4096) mod 256) with (r / 4096) by arith;
  replace (((r / 64) mod 256) mod 64) with ((r / 64) mod 64) by arith;
  replace ((r mod 256) mod 64) with (r mod 64) by arith;
  rewrite (lor_disjoint 4 224) by (change (2 ^ 4) with 16; arith);
  rewrite !(lor_disjoint 6 128) by (change (2 ^ 6) with 64; arith);
  assert (0 ≤ r / 4096 ≤ 15) as Hq by arith;
  assert (0 ≤ (r / 64) mod 64 < 64) as Hm1 by arith;
  assert (0 ≤ r mod 64 < 64) as Hm2 by arith;
  assert (r = 4096 * (r / 4096) + 64 * ((r / 64) mod 64) + r mod 64) as Hr by arith;
  set (q := r / 4096) in *; set (m1 := (r / 64) mod 64) in *; set (m2 := r mod 64) in *;
  clearbody q m1 m2; subst r;
  split; [|split; [|done]];
  [ unfold Go.DecodeRune, Go.first, Go.inRange; decide_tests;
    bits_to_arith;
    replace ((224 + q) mod 16) with q by arith;
    replace ((128 + m1) mod 64) with m1 by arith;
    replace ((128 + m2) mod 64) with m2 by arith;
    rewrite (lor_disjoint 12 (q * 4096)) by (change (2 ^ 12) with 4096; arith);
    rewrite (lor_disjoint 6) by (change (2 ^ 6) with 64; arith);
    f_equal; lia
  | repeat (constructor; [lia|]); constructor ].

Lemma DecodeRune_EncodeRune (r : Z) (rest : list Z) :
  validRune r = true →
  Go.DecodeRune (GoLib.EncodeRune r ++ rest) = (r, length (GoLib.EncodeRune r))
  ∧ Forall (λ b, 0 ≤ b < 256) (GoLib.EncodeRune r)
  ∧ GoLib.EncodeRune r ≠ [].
Proof.
  unfold validRune, GoLib.MaxRune, GoLib.surrogateMin, GoLib.surrogateMax.
  intros Hv.
  apply andb_prop in Hv as [Hv Hs]. apply andb_prop in Hv as [H0 Hmax].
  apply Z.leb_le in H0, Hmax. apply negb_true_iff, andb_false_iff in Hs.
  assert (r < 55296 ∨ 57343 < r) as Hsur
    by (destruct Hs as [Hs|Hs]; apply Z.leb_gt in Hs; lia).
  clear Hs. unfold GoLib.EncodeRune, GoLib.MaxRune, GoLib.surrogateMin, GoLib.surrogateMax.
  rewrite (Z.mod_small r (2 ^ 32)) by lia. cbv zeta.
  decide_tests.
  - (* one byte *)
    unfold GoLib.byte. rewrite Z.mod_small by lia. cbn [Go.DecodeRune].
    rewrite (proj2 (Z.ltb_lt r 128)) by lia.
    split; [done|]. split; [|done]. constructor; [lia|constructor].
  - (* two bytes *)
    bits_to_arith.
    replace ((r / 64) mod 256) with (r / 64) by arith.
    replace ((r mod 256) mod 64) with (r mod 64) by arith.
    rewrite (lor_disjoint 6 192), (lor_disjoint 6 128) by (change (2 ^ 6) with 64; arith).
    assert (2 ≤ r / 64 ≤ 31) as Hq by arith.
    assert (0 ≤ r mod 64 < 64) as Hm by arith.
    assert (r = 64 * (r / 64) + r mod 64) as Hr by arith.
    set (q := r / 64) in *. set (m := r mod 64) in *. clearbody q m. subst r.
    split; [|split; [|done]].
    + unfold Go.DecodeRune, Go.first, Go.inRange. decide_tests.
      bits_to_arith.
      replace ((192 + q) mod 32) with q by arith.
      replace ((128 + m) mod 64) with m by arith.
      rewrite (lor_disjoint 6) by (change (2 ^ 6) with 64; arith).
      f_equal. lia.
    + repeat (constructor; [lia|]). constructor.
  - (* three bytes, below the surrogates *) three_bytes r.
  - (* four bytes *)
    bits_to_arith.
    replace ((r / 262144) mod 256) with (r / 262144) by arith.
    replace (((r / 4096) mod 256) mod 64) with ((r / 4096) mod 64) by arith.
    replace (((r / 64) mod 256) mod 64) with ((r / 64) mod 64) by arith.
    replace ((r mod 256) mod 64) with (r mod 64) by arith.
    rewrite (lor_disjoint 3 240) by (change (2 ^ 3) with 8; arith).
    rewrite !(lor_disjoint 6 128) by (change (2 ^ 6) with 64; arith).
    assert (0 ≤ r / 262144 ≤ 4) as Hq by arith.
    assert (0 ≤ (r / 4096) mod 64 < 64) as Hm1 by arith.
    assert (0 ≤ (r / 64) mod 64 < 64) as Hm2 by arith.
    assert (0 ≤ r mod 64 < 64) as Hm3 by arith.
    assert (r = 262144 * (r / 262144) + 4096 * ((r / 4096) mod 64)
                + 64 * ((r / 64) mod 64) + r mod 64) as Hr by arith.
    set (q := r / 262144) in *. set (m1 := (r / 4096) mod 64) in *.
    set (m2 := (r / 64) mod 64) in *. set (m3 := r mod 64) in *.
    clearbody q m1 m2 m3. subst r.
    split; [|split; [|done]].
    + unfold Go.DecodeRune, Go.first, Go.inRange. decide_tests.
      all: bits_to_arith.
      all: replace ((240 + q) mod 8) with q by arith.
      all: replace ((128 + m1) mod 64) with m1 by arith.
      all: replace ((128 + m2) mod 64) with m2 by arith.
      all: replace ((128 + m3) mod 64) with m3 by arith.
      all: rewrite (lor_disjoint 18 (q * 262144)) by (change (2 ^ 18) with 262144; arith).
      all: rewrite (lor_disjoint 12 (q * 262144 + m1 * 4096)) by (change (2 ^ 12) with 4096; arith).
      all: rewrite (lor_disjoint 6) by (change (2 ^ 6) with 64; arith).
      all: f_equal; lia.
    + repeat (constructor; [lia|]). constructor.
  - (* three bytes, above the surrogates *) three_bytes r.
Qed.

Lemma bytes_string_of_bytes (l : list Z) :
  Forall (λ b, 0 ≤ b < 256) l → Go.bytes (GoLib.string_of_bytes l) = l.
Proof.
  induction 1 as [|b l Hb _ IH]; [done|].
  cbn [GoLib.string_of_bytes Go.bytes]. rewrite IH. f_equal.
  rewrite Ascii.N_ascii_embedding by lia. lia.
Qed.

Lemma runes_from_skip (l rest : list Z) :
  Go.runes_from (length l) (l ++ rest) = Go.runes_from 0 rest.
Proof. induction l as [|b l IH]; [done|]. exact IH. Qed.

Lemma runes_from_encoded (rs : list Z) :
  Forall (λ r, validRune r = true) rs →
  Go.runes_from 0 (rs ≫= GoLib.EncodeRune) = rs
  ∧ Forall (λ b, 0 ≤ b < 256) (rs ≫= GoLib.EncodeRune).
Proof.
  induction 1 as [|r rs Hr _ [IH IHb]]; [by split|].
  rewrite bind_cons.
  destruct (DecodeRune_EncodeRune r (rs ≫= GoLib.EncodeRune) Hr) as (Hd & Hb & Hne).
  split; [|by apply Forall_app].
  destruct (GoLib.EncodeRune r) as [|b l] eqn:E; [done|].
  change (Go.runes_from 0 ((b :: l) ++ rs ≫= GoLib.EncodeRune))
    with (let '(r', w) := Go.DecodeRune ((b :: l) ++ rs ≫= GoLib.EncodeRune) in
          r' :: Go.runes_from (w - 1) (l ++ rs ≫= GoLib.EncodeRune)).
  rewrite Hd. cbn [length]. rewrite Nat.sub_1_r. cbn [Nat.pred].
  by rewrite runes_from_skip, IH.
Qed.

Lemma runes_string_of_runes (rs : list Z) :
  Forall (λ r, validRune r = true) rs → Go.runes (GoLib.string_of_runes rs) = rs.
Proof.
  intros Hrs. destruct (runes_from_encoded rs Hrs) as [Hr Hb].
  unfold Go.runes, GoLib.string_of_runes. by rewrite bytes_string_of_bytes.
Qed.

(** The loop of [reverse]: with [i] elements before the part still to be
    reversed and [j] the index of its last element, the loop leaves the
    two ends as they are and reverses the part between them. *)
Lemma reverseLoop_rev (fuel : nat) (a mid b : list Z) :
  (length mid ≤ 2 * fuel)%nat →
  reverseLoop fuel (Z.of_nat (length a)) (Z.of_nat (length a + length mid) - 1)
    (a ++ mid ++ b)
  = a ++ rev mid ++ b.
Proof.
  revert a mid b. induction fuel as [|fuel IH]; intros a mid b Hlen.
  { destruct mid; [done|simpl in Hlen; lia]. }
  cbn [reverseLoop].
  destruct mid as [|x mid].
  { rewrite Nat.add_0_r. rewrite (proj2 (Z.ltb_ge _ _)) by lia. done. }
  destruct mid as [|y mid _] using rev_ind.
  { cbn [length]. rewrite (proj2 (Z.ltb_ge _ _)) by lia. done. }
  rewrite (proj2 (Z.ltb_lt _ _)) by (cbn [length]; rewrite length_app; cbn [length]; lia).
  rewrite Nat2Z.id.
  replace (Z.to_nat (Z.of_nat (length a + length (x :: mid ++ [y])) - 1))
    with (length a + S (length mid))%nat
    by (cbn [length]; rewrite length_app; cbn [length]; lia).
  assert ((a ++ (x :: mid ++ [y]) ++ b) !! length a = Some x) as ->.
  { by rewrite lookup_app_r, Nat.sub_diag by lia. }
  assert ((a ++ (x :: mid ++ [y]) ++ b) !! (length a + S (length mid))%nat = Some y) as ->.
  { rewrite lookup_app_r by lia.
    replace (length a + S (length mid) - length a)%nat with (S (length mid)) by lia.
    cbn [app]. rewrite lookup_cons. rewrite <- app_assoc.
    rewrite lookup_app_r by lia. by rewrite Nat.sub_diag. }
  assert (<[(length a + S (length mid))%nat := x]>
            (<[length a := y]> (a ++ (x :: mid ++ [y]) ++ b))
          = (a ++ [y]) ++ mid ++ (x :: b)) as ->.
  { rewrite (insert_app_r_alt a) by lia. rewrite Nat.sub_diag.
    change (<[0%nat:=y]> ((x :: mid ++ [y]) ++ b)) with (y :: (mid ++ [y]) ++ b).
    rewrite (insert_app_r_alt a) by lia.
    replace (length a + S (length mid) - length a)%nat with (S (length mid)) by lia.
    change (<[S (length mid):=x]> (y :: (mid ++ [y]) ++ b))
      with (y :: <[length mid:=x]> ((mid ++ [y]) ++ b)).
    rewrite <- (app_assoc mid [y] b).
    rewrite (insert_app_r_alt mid) by lia. rewrite Nat.sub_diag.
    change (<[0%nat:=x]> ([y] ++ b)) with (x :: b).
    by rewrite <- app_assoc. }
  replace (Z.of_nat (length a) + 1) with (Z.of_nat (length (a ++ [y])))
    by (rewrite length_app; cbn [length]; lia).
  replace (Z.of_nat (length a + length (x :: mid ++ [y])) - 1 - 1)
    with (Z.of_nat (length (a ++ [y]) + length mid) - 1)
    by (cbn [length]; rewrite !length_app; cbn [length]; lia).
  rewrite IH by (cbn [length] in Hlen; rewrite length_app in Hlen; cbn [length] in Hlen; lia).
  cbn [rev]. rewrite rev_app_distr. cbn [rev app].
  by rewrite <- !app_assoc.
Qed.

Lemma reverse_rev (p : string) :
  reverse p = GoLib.string_of_runes (rev (Go.runes p)).
Proof.
  unfold reverse. f_equal.
  assert (Hl := reverseLoop_rev (length (Go.runes p)) [] (Go.runes p) []).
  cbn [app length Nat.add] in Hl. rewrite !app_nil_r in Hl.
  change (Z.of_nat 0) with 0 in Hl. apply Hl. lia.
Qed.

(** X25. The agent's [reverse] method answers with the code points of
    its first parameter in reverse order, encoded as UTF-8, and with the
    id of the request. For a parameter that is the UTF-8 encoding of a
    sequence of code points (none of them a surrogate) the answer is the
    encoding of the reversed sequence, and reversing the answer gives
    the parameter back. *)
Theorem agent_reverse_round_trip (unicode_upper : string → string) (rs : list Z)
    (rest : list string) (id : Z) :
  Forall (λ r, validRune r = true) rs →
  let answer := λ p,
    agentServe unicode_upper
      {| agent.Method := "reverse"; agent.Params := p :: rest; agent.ID := id |} in
  (∀ p, agent.Result (answer p) = GoLib.string_of_runes (rev (Go.runes p))
        ∧ agent.RespID (answer p) = id)
  ∧ agent.Result (answer (GoLib.string_of_runes rs)) = GoLib.string_of_runes (rev rs)
  ∧ agent.Result (answer (agent.Result (answer (GoLib.string_of_runes rs))))
    = GoLib.string_of_runes rs.
Proof.
  intros Hrs answer.
  assert (∀ p, agent.Result (answer p) = GoLib.string_of_runes (rev (Go.runes p))) as Ha.
  { intros p. apply reverse_rev. }
  split; [intros p; split; [apply Ha|done]|].
  assert (agent.Result (answer (GoLib.string_of_runes rs)) = GoLib.string_of_runes (rev rs))
    as H1 by (by rewrite Ha, runes_string_of_runes).
  split; [exact H1|].
  rewrite H1, Ha, runes_string_of_runes by (by apply Forall_rev).
  by rewrite rev_involutive.
Qed.

Lemma agent_reverse_round_trip_witness :
  let p := GoLib.string_of_runes [104; 233; 8364; 128512] in
  let answer := λ p,
    agentServe (λ s, s) {| agent.Method := "reverse"; agent.Params := [p]; agent.ID := 7 |} in
  length (Go.bytes p) = 10%nat
  ∧ agent.Result (answer p) = GoLib.string_of_runes [128512; 8364; 233; 104]
  ∧ agent.Result (answer (agent.Result (answer p))) = p.
Proof.
  intros p answer. split; [vm_compute; reflexivity|].
  assert (Forall (λ r, validRune r = true) [104; 233; 8364; 128512]) as Hrs
    by (repeat constructor).
  exact (proj2 (agent_reverse_round_trip (λ s, s) [104; 233; 8364; 128512] [] 7 Hrs)).
Defined.
